(** * asc-web-converter: the page parser and the workbook assembler

    A shallow embedding of [utils/parse.ts] (text of one report page to a
    [ParsedPage]) and of [utils/makeExcel.ts] (pages to the calls that
    build the workbook, on a workbook library that is a parameter), with
    the ECMAScript built-ins they call: strings as sequences of UTF-16 code
    units, regular expressions with the backtracking semantics of the
    language specification, and numbers as IEEE 754 binary64 values. *)

From Stdlib Require Import String Ascii DecimalString DecimalNat DecimalZ.
From Stdlib Require Import List NArith ZArith Bool Lia.
From Stdlib Require Import Floats.SpecFloat.
Import ListNotations.

Set Implicit Arguments.

(* ================================================================== *)
(** * Strings *)
(* ================================================================== *)

Module Str.

(** A string is a list of UTF-16 code units. *)
Definition char := N.
Definition str := list char.

(** String literals of the source, written as Rocq strings. *)
Definition lit (s : string) : str := map N_of_ascii (list_ascii_of_string s).
Arguments lit s%_string.

(** One character of the source, written as a Rocq character. *)
Definition ch (a : ascii) : char := N_of_ascii a.
Arguments ch a%_char.

Fixpoint eqb (a b : str) : bool :=
  match a, b with
  | [], [] => true
  | x :: a', y :: b' => N.eqb x y && eqb a' b'
  | _, _ => false
  end.

Fixpoint startsWith (s p : str) : bool :=
  match p, s with
  | [], _ => true
  | x :: p', y :: s' => N.eqb x y && startsWith s' p'
  | _ :: _, [] => false
  end.

(** [String.prototype.includes]: [t] occurs in [s] as a substring. *)
Fixpoint includes (s t : str) : bool :=
  startsWith s t ||
  match s with
  | [] => false
  | _ :: s' => includes s' t
  end.

(** [s.slice(0, n)] for [0 <= n]. *)
Definition slice0 (s : str) (n : nat) : str := firstn n s.

(** Truthiness of a string: [""] is the only falsy one. *)
Definition truthy (s : str) : bool :=
  match s with [] => false | _ :: _ => true end.

(** WhiteSpace and LineTerminator code points: what [trim] strips and
    what [\s] matches. *)
Definition isWhiteSpace (c : char) : bool :=
  ((9 <=? c) && (c <=? 13) || (c =? 32) || (c =? 160) || (c =? 5760)
   || (8192 <=? c) && (c <=? 8202) || (c =? 8232) || (c =? 8233)
   || (c =? 8239) || (c =? 8287) || (c =? 12288) || (c =? 65279))%N.

Fixpoint trimStart (s : str) : str :=
  match s with
  | c :: s' => if isWhiteSpace c then trimStart s' else s
  | [] => []
  end.

Definition trimEnd (s : str) : str := rev (trimStart (rev s)).

Definition trim (s : str) : str := trimEnd (trimStart s).

(** Upper-casing of one code unit.  The Basic Latin and Latin-1 ranges
    follow the Unicode tables; above U+00FF the code units listed are
    those whose upper-case form holds an ASCII letter, and every other
    one is kept as it is: its upper-case form has no ASCII letter, so
    [includes] with an ASCII needle sees no difference. *)
Definition upperChar (c : char) : str :=
  (if (97 <=? c) && (c <=? 122) then [c - 32]
   else if c <? 181 then [c]
   else if c =? 181 then [924]
   else if c =? 223 then [83; 83]
   else if (224 <=? c) && (c <=? 254) && negb (c =? 247) then [c - 32]
   else if c =? 255 then [376]
   else if c =? 305 then [73]
   else if c =? 329 then [700; 78]
   else if c =? 383 then [83]
   else if c =? 496 then [74; 780]
   else if c =? 7830 then [72; 817]
   else if c =? 7831 then [84; 776]
   else if c =? 7832 then [87; 778]
   else if c =? 7833 then [89; 778]
   else if c =? 7834 then [65; 702]
   else if c =? 64256 then [70; 70]
   else if c =? 64257 then [70; 73]
   else if c =? 64258 then [70; 76]
   else if c =? 64259 then [70; 70; 73]
   else if c =? 64260 then [70; 70; 76]
   else if (c =? 64261) || (c =? 64262) then [83; 84]
   else [c])%N.

Definition toUpperCase (s : str) : str := flat_map upperChar s.

(** [String(n)] for an integer [n]. *)
Definition ofNat (n : nat) : str := lit (NilEmpty.string_of_uint (Nat.to_uint n)).
Definition ofZ (z : Z) : str := lit (NilEmpty.string_of_int (Z.to_int z)).

(** [l.join(sep)] for an array of strings. *)
Fixpoint join (sep : str) (l : list str) : str :=
  match l with
  | [] => []
  | [x] => x
  | x :: tl => x ++ sep ++ join sep tl
  end.

End Str.

Import Str.

(* ================================================================== *)
(** * Regular expressions *)
(* ================================================================== *)

Module Regex.

(** Members of a character class. *)
Inductive item : Type :=
| IChar (c : char)
| IRange (lo hi : char)
| IDigit                      (* \d *)
| ISpace.                     (* \s *)

Inductive regex : Type :=
| Chr (c : char)                    (* a literal character *)
| Dot                               (* . *)
| Cls (items : list item)           (* [...], \d, \s *)
| Bol                               (* ^ *)
| Eol                               (* $ *)
| WordB                             (* \b *)
| Eps
| Seq (r1 r2 : regex)
| Alt (r1 r2 : regex)
| Rep (min : nat) (max : option nat) (greedy : bool) (r : regex)
| Group (i : nat) (r : regex)       (* the i-th capturing group *)
| NegLook (r : regex).              (* (?! r) *)

Definition isDigit (c : char) : bool := ((48 <=? c) && (c <=? 57))%N.

Definition isWordChar (c : char) : bool :=
  (isDigit c || (65 <=? c) && (c <=? 90) || (97 <=? c) && (c <=? 122)
   || (c =? 95))%N.

Definition isLineTerminator (c : char) : bool :=
  ((c =? 10) || (c =? 13) || (c =? 8232) || (c =? 8233))%N.

Definition inItem (c : char) (i : item) : bool :=
  match i with
  | IChar d => N.eqb c d
  | IRange lo hi => (lo <=? c)%N && (c <=? hi)%N
  | IDigit => isDigit c
  | ISpace => isWhiteSpace c
  end.

Definition inClass (items : list item) (c : char) : bool :=
  existsb (inItem c) items.

(** The matcher's state: the input before the current position (nearest
    character first), the input from it on, and the captures so far. *)
Record mstate : Type := MState {
  past : list char;
  rest : list char;
  caps : nat -> option str
}.

Definition cont := mstate -> option mstate.

Definition step (st : mstate) (c : char) (tl : list char) : mstate :=
  MState (c :: past st) tl (caps st).

Definition setCap (i : nat) (v : option str) (f : nat -> option str)
  : nat -> option str :=
  fun j => if Nat.eqb j i then v else f j.

Fixpoint groupsOf (r : regex) : list nat :=
  match r with
  | Seq a b | Alt a b => groupsOf a ++ groupsOf b
  | Rep _ _ _ a | NegLook a => groupsOf a
  | Group i a => i :: groupsOf a
  | _ => []
  end.

Definition clearCaps (gs : list nat) (st : mstate) : mstate :=
  MState (past st) (rest st)
         (fold_right (fun i f => setCap i None f) (caps st) gs).

Definition isWordAt (l : list char) : bool :=
  match l with c :: _ => isWordChar c | [] => false end.

(** Text consumed between two states of one run. *)
Definition consumed (st st' : mstate) : str :=
  firstn (length (rest st) - length (rest st')) (rest st).

Definition orElse (a : option mstate) (b : unit -> option mstate) :=
  match a with Some x => Some x | None => b tt end.

Definition oneChar (p : char -> bool) (st : mstate) (k : cont) :=
  match rest st with
  | c :: tl => if p c then k (step st c tl) else None
  | [] => None
  end.

(** RepeatMatcher of the language specification; [mr] matches the
    quantified atom.  One round either lowers [min] or consumes input,
    so [min + length (rest st) + 1] rounds of fuel are never used up. *)
Fixpoint repeatMatcher (mr : mstate -> cont -> option mstate) (gs : list nat)
         (greedy : bool) (fuel min : nat) (max : option nat)
         (st : mstate) (k : cont) {struct fuel} : option mstate :=
  match fuel with
  | O => None
  | S fuel' =>
    match max with
    | Some O => k st
    | _ =>
      let d := fun st' =>
        if Nat.eqb min 0 && Nat.eqb (length (rest st')) (length (rest st))
        then None
        else repeatMatcher mr gs greedy fuel' (Nat.pred min)
                    (option_map Nat.pred max) st' k in
      if negb (Nat.eqb min 0) then mr (clearCaps gs st) d
      else if greedy
           then orElse (mr (clearCaps gs st) d) (fun _ => k st)
           else orElse (k st) (fun _ => mr (clearCaps gs st) d)
    end
  end.

Fixpoint run (r : regex) (st : mstate) (k : cont) {struct r}
  : option mstate :=
  match r with
  | Chr c => oneChar (N.eqb c) st k
  | Dot => oneChar (fun c => negb (isLineTerminator c)) st k
  | Cls items => oneChar (inClass items) st k
  | Bol => match past st with [] => k st | _ :: _ => None end
  | Eol => match rest st with [] => k st | _ :: _ => None end
  | WordB =>
    if xorb (isWordAt (past st)) (isWordAt (rest st)) then k st else None
  | Eps => k st
  | Seq r1 r2 => run r1 st (fun st' => run r2 st' k)
  | Alt r1 r2 => orElse (run r1 st k) (fun _ => run r2 st k)
  | Rep min max greedy r' =>
    repeatMatcher (run r') (groupsOf r') greedy
           (min + length (rest st) + 1) min max st k
  | Group i r' =>
    run r' st
        (fun st' =>
           k (MState (past st') (rest st')
                     (setCap i (Some (consumed st st')) (caps st'))))
  | NegLook r' =>
    match run r' st (fun st' => Some st') with
    | Some _ => None
    | None => k st
    end
  end.

(** The result of a successful match: where it starts, the matched
    text (group 0) and the captures. *)
Record result : Type := Result {
  index : nat;
  whole : str;
  group : nat -> option str;
  after : mstate
}.

Definition noCaps : nat -> option str := fun _ => None.

(** One attempt at the current position (a sticky match). *)
Definition matchAt (r : regex) (before s : list char) : option result :=
  let st := MState before s noCaps in
  match run r st (fun st' => Some st') with
  | Some st' => Some (Result (length before) (consumed st st') (caps st') st')
  | None => None
  end.

(** [RegExp.prototype.exec] without flags: the first position, from
    the left, at which an attempt succeeds. *)
Fixpoint search (r : regex) (before s : list char) {struct s}
  : option result :=
  match matchAt r before s with
  | Some m => Some m
  | None =>
    match s with
    | [] => None
    | c :: tl => search r (c :: before) tl
    end
  end.

(** [s.match(r)] for a regular expression without the [g] flag. *)
Definition exec (r : regex) (s : str) : option result := search r [] s.

(** [s.replace(r, by)] for a regular expression with the [g] flag and a
    replacement text without [$] patterns. *)
Fixpoint replaceFrom (r : regex) (by_ : str) (fuel : nat)
         (before s : list char) {struct fuel} : str :=
  match fuel with
  | O => s
  | S fuel' =>
    let skip := fun _ : unit =>
      match s with
      | [] => []
      | c :: tl => c :: replaceFrom r by_ fuel' (c :: before) tl
      end in
    match matchAt r before s with
    | None => skip tt
    | Some m =>
      let st' := after m in
      if Nat.eqb (length (rest st')) (length s)
      then by_ ++ skip tt
      else by_ ++ replaceFrom r by_ fuel' (past st') (rest st')
    end
  end.

Definition replaceAll (r : regex) (by_ : str) (s : str) : str :=
  replaceFrom r by_ (S (length s)) [] s.

(** [s.replace(r, by)] for a regular expression without the [g] flag and
    a replacement text without [$] patterns: the first match only. *)
Definition replaceFirst (r : regex) (by_ : str) (s : str) : str :=
  match exec r s with
  | Some m => firstn (index m) s ++ by_ ++ rest (after m)
  | None => s
  end.

(** [s.split(r)] for a regular expression without groups; [piece] holds,
    last character first, the text since the last separator.  A round
    moves on in the text, or ends a piece and is followed by one that
    moves on, so twice the length of the text is fuel enough. *)
Fixpoint splitFrom (r : regex) (fuel : nat) (piece : list char)
         (before s : list char) {struct fuel} : list str :=
  match fuel with
  | O => [rev piece ++ s]
  | S fuel' =>
    match s with
    | [] => [rev piece]
    | c :: tl =>
      let next := fun _ : unit =>
        splitFrom r fuel' (c :: piece) (c :: before) tl in
      match matchAt r before s with
      | None => next tt
      | Some m =>
        let st' := after m in
        if Nat.eqb (length (rest st')) (length s) && Nat.eqb (length piece) 0
        then next tt
        else rev piece :: splitFrom r fuel' [] (past st') (rest st')
      end
    end
  end.

Definition split (r : regex) (s : str) : list str :=
  match s with
  | [] => match matchAt r [] [] with Some _ => [] | None => [[]] end
  | _ :: _ => splitFrom r (S (2 * length s)) [] [] s
  end.

(** Abbreviations for the quantifiers of the source. *)
Definition plus (r : regex) := Rep 1 None true r.           (* r+   *)
Definition star (r : regex) := Rep 0 None true r.           (* r*   *)
Definition opt (r : regex) := Rep 0 (Some 1) true r.        (* r?   *)
Definition plusLazy (r : regex) := Rep 1 None false r.      (* r+?  *)
Definition atLeast (n : nat) (r : regex) := Rep n None true r.     (* r{n,} *)
Definition exactly (n : nat) (r : regex) := Rep n (Some n) true r. (* r{n}  *)
Definition between (n m : nat) (r : regex) := Rep n (Some m) true r.
Definition digit := Cls [IDigit].                            (* \d *)
Definition space := Cls [ISpace].                            (* \s *)

Fixpoint seq (rs : list regex) : regex :=
  match rs with
  | [] => Eps
  | [r] => r
  | r :: rs' => Seq r (seq rs')
  end.

End Regex.

Import Regex.

(* ================================================================== *)
(** * Numbers *)
(* ================================================================== *)

Module Num.

(** Number values: IEEE 754 binary64, after the specification of the
    operations in the standard library. *)
Definition number := spec_float.
Definition prec : Z := 53.
Definition emax : Z := 1024.

Definition zero : number := S754_zero false.
Definition add (x y : number) : number := SFadd prec emax x y.

(** [isFinite] and [Number.isFinite] on a number. *)
Definition isFinite (x : number) : bool :=
  match x with
  | S754_zero _ | S754_finite _ _ _ => true
  | S754_infinity _ | S754_nan => false
  end.

(** Neither negative nor NaN. *)
Definition isNonNegative (x : number) : bool :=
  match x with
  | S754_zero s | S754_finite s _ _ | S754_infinity s => negb s
  | S754_nan => false
  end.

(** The number value of the integer [z]. *)
Definition ofZ (z : Z) : number := binary_normalize prec emax z 0 false.

(** The number value of [m * 10^e], rounded to nearest, ties to even. *)
Definition ofDecimal (neg : bool) (m : N) (e : Z) : number :=
  match m with
  | N0 => S754_zero neg
  | Npos p =>
    match e with
    | Zneg k =>
      SFdiv prec emax (S754_finite neg p 0)
            (S754_finite false (Pos.pow 10 k) 0)
    | Z0 => binary_round prec emax neg p 0
    | Zpos k => binary_round prec emax neg (p * Pos.pow 10 k) 0
    end
  end.

(** ** StringToNumber *)

Fixpoint span (p : char -> bool) (s : str) : str * str :=
  match s with
  | c :: s' =>
    if p c then let (a, b) := span p s' in (c :: a, b) else ([], s)
  | [] => ([], [])
  end.

Definition digitsValue (base : N) (val : char -> N) (ds : str) : N :=
  fold_left (fun a c => base * a + val c)%N ds 0%N.

Definition decValue (ds : str) : N := digitsValue 10 (fun c => c - 48)%N ds.

Definition isHexDigit (c : char) : bool :=
  (isDigit c || (65 <=? c) && (c <=? 70) || (97 <=? c) && (c <=? 102))%N.
Definition hexVal (c : char) : N :=
  (if isDigit c then c - 48 else if c <=? 70 then c - 55 else c - 87)%N.
Definition isOctDigit (c : char) : bool := ((48 <=? c) && (c <=? 55))%N.
Definition isBinDigit (c : char) : bool := ((48 <=? c) && (c <=? 49))%N.

(** ExponentPart, after its [e]: an optional sign and decimal digits up
    to the end of the text. *)
Definition exponent (s : str) : option Z :=
  let '(neg, ds) :=
    match s with
    | c :: s' =>
      if (c =? ch "-")%N then (true, s')
      else if (c =? ch "+")%N then (false, s') else (false, s)
    | [] => (false, [])
    end in
  match ds with
  | [] => None
  | _ :: _ =>
    if forallb isDigit ds
    then Some (if neg then - Z.of_N (decValue ds) else Z.of_N (decValue ds))%Z
    else None
  end.

(** StrUnsignedDecimalLiteral. *)
Definition unsignedDecimal (neg : bool) (s : str) : number :=
  if Str.eqb s (lit "Infinity") then S754_infinity neg
  else
    let (ip, r1) := span isDigit s in
    let '(dot, fp, r2) :=
      match r1 with
      | c :: r =>
        if (c =? ch ".")%N then let (f, r') := span isDigit r in (true, f, r')
        else (false, [], r1)
      | [] => (false, [], [])
      end in
    let e :=
      match r2 with
      | [] => Some 0%Z
      | c :: r => if (c =? ch "e")%N || (c =? ch "E")%N then exponent r else None
      end in
    match ip, fp, e with
    | [], [], _ => S754_nan
    | _, _, None => S754_nan
    | _, _, Some x =>
      ofDecimal neg (decValue (ip ++ fp)) (x - Z.of_nat (length fp))
    end.

Definition radixLiteral (p : char -> bool) (base : N) (val : char -> N)
           (ds : str) : number :=
  match ds with
  | [] => S754_nan
  | _ :: _ =>
    if forallb p ds then ofZ (Z.of_N (digitsValue base val ds)) else S754_nan
  end.

(** [Number(s)] for a string [s]. *)
Definition ofString (s : str) : number :=
  match trim s with
  | [] => zero
  | c :: t =>
    if (c =? ch "+")%N then unsignedDecimal false t
    else if (c =? ch "-")%N then unsignedDecimal true t
    else
      match t with
      | d :: ds =>
        if (c =? ch "0")%N && ((d =? ch "x") || (d =? ch "X"))%N
        then radixLiteral isHexDigit 16 hexVal ds
        else if (c =? ch "0")%N && ((d =? ch "o") || (d =? ch "O"))%N
        then radixLiteral isOctDigit 8 (fun c => c - 48)%N ds
        else if (c =? ch "0")%N && ((d =? ch "b") || (d =? ch "B"))%N
        then radixLiteral isBinDigit 2 (fun c => c - 48)%N ds
        else unsignedDecimal false (c :: t)
      | [] => unsignedDecimal false (c :: t)
      end
  end.

(** ** Formatting *)

Definition digitsOfN (n : N) : str :=
  lit (NilZero.string_of_uint (N.to_uint n)).

(** The digits [ds] of an integer, last digit first, in groups of three
    with the separator [sep] between them. *)
Fixpoint groupRev (sep : char) (ds : list char) : list char :=
  match ds with
  | a :: b :: c :: (_ :: _) as tl => a :: b :: c :: sep :: groupRev sep tl
  | _ => ds
  end.

Definition grouped (sep : char) (n : N) : str :=
  rev (groupRev sep (rev (digitsOfN n))).

Definition twoDigits (n : N) : str :=
  [48 + n / 10; 48 + n mod 10]%N.

(** ** Number::toString *)

Definition sameNumber (x y : number) : bool :=
  match x, y with
  | S754_zero a, S754_zero b | S754_infinity a, S754_infinity b =>
    Bool.eqb a b
  | S754_nan, S754_nan => true
  | S754_finite a m e, S754_finite b m' e' =>
    Bool.eqb a b && Pos.eqb m m' && Z.eqb e e'
  | _, _ => false
  end.

(** [a * 10^sh / b] as a fraction. *)
Definition scaled (a b : N) (sh : Z) : N * N :=
  match sh with
  | Zneg p => (a, b * N.pow 10 (Npos p))%N
  | Z0 => (a, b)
  | Zpos p => (a * N.pow 10 (Npos p), b)%N
  end.

Fixpoint scaleUp (fuel : nat) (a b : N) (j : Z) : Z :=
  match fuel with
  | O => j
  | S fuel' =>
    if (b <=? a * 10)%N then j else scaleUp fuel' (a * 10)%N b (j + 1)%Z
  end.

(** The [n] with [10^(n-1) <= a/b < 10^n]. *)
Definition order (a b : N) : Z :=
  if (b <=? a)%N then Z.of_nat (length (digitsOfN (a / b)))
  else (1 - scaleUp 400 a b 1)%Z.

(** The [k]-digit decimals next to [a/b], the nearer one first, and
    the first [k] for which one of them is read back as [x]. *)
Fixpoint shortest (fuel : nat) (x : number) (a b : N) (n : Z) (k : positive)
  : N * positive :=
  let (num, den) := scaled a b (Zpos k - n) in
  let lo := (num / den)%N in
  let r := (num mod den)%N in
  let hi := (lo + 1)%N in
  let upFirst := (den <? 2 * r)%N || (den =? 2 * r)%N && N.odd lo in
  let c1 := if upFirst then hi else lo in
  let c2 := if upFirst then lo else hi in
  let ok c := sameNumber (ofDecimal false c (n - Zpos k)) x in
  match fuel with
  | O => (c1, k)
  | S fuel' =>
    if ok c1 then (c1, k)
    else if ok c2 then (c2, k)
    else shortest fuel' x a b n (Pos.succ k)
  end.

Definition zeros (n : Z) : str := repeat (ch "0") (Z.to_nat n).

Definition layout (ds : str) (n : Z) : str :=
  let k := Z.of_nat (length ds) in
  if (-5 <=? n)%Z && (n <=? 21)%Z then
    if (k <=? n)%Z then ds ++ zeros (n - k)
    else if (0 <? n)%Z
         then firstn (Z.to_nat n) ds ++ [ch "."] ++ skipn (Z.to_nat n) ds
         else lit "0." ++ zeros (- n) ++ ds
  else
    let e := (n - 1)%Z in
    let ex := [ch "e"; if (e <? 0)%Z then ch "-" else ch "+"]
                ++ digitsOfN (Z.abs_N e) in
    match ds with
    | [d] => d :: ex
    | d :: tl => d :: ch "." :: tl ++ ex
    | [] => ex
    end.

(** [String(x)] for a number [x]. *)
Definition toString (x : number) : str :=
  match x with
  | S754_nan => lit "NaN"
  | S754_zero _ => lit "0"
  | S754_infinity s => (if s then [ch "-"] else []) ++ lit "Infinity"
  | S754_finite s m e =>
    let (a, b) :=
      match e with
      | Zneg p => (Npos m, N.pow 2 (Npos p))
      | Z0 => (Npos m, 1%N)
      | Zpos p => (Npos m * N.pow 2 (Npos p), 1)%N
      end in
    let n := order a b in
    let (c, k) := shortest 16 (S754_finite false m e) a b n 1 in
    let body :=
      if (c =? N.pow 10 (Npos k))%N then layout [ch "1"] (n + 1)
      else layout (digitsOfN c) n in
    (if s then [ch "-"] else []) ++ body
  end.

(** ** Formatting with two decimals *)

(** The magnitude [m * 2^e] in hundredths.  The number is formatted from
    its shortest decimal that reads back as the number, the digits of
    [toString], and this decimal is rounded to the second decimal, half
    away from zero: 1.005 gives 101 hundredths, although the number
    value of 1.005 is below the half. *)
Definition hundredths (m : positive) (e : Z) : N :=
  let (a, b) :=
    match e with
    | Zneg p => (Npos m, N.pow 2 (Npos p))
    | Z0 => (Npos m, 1%N)
    | Zpos p => (Npos m * N.pow 2 (Npos p), 1)%N
    end in
  let n := order a b in
  let (c, k) := shortest 16 (S754_finite false m e) a b n 1 in
  match (n - Zpos k + 2)%Z with
  | Zneg p =>
    let den := N.pow 10 (Npos p) in
    let q := (c / den)%N in
    let r := (c mod den)%N in
    if (den <=? 2 * r)%N then (q + 1)%N else q
  | Z0 => c
  | Zpos p => (c * N.pow 10 (Npos p))%N
  end.

(** A number with two decimals, in groups of three digits set off by
    [group], with [decimal] before the decimals. *)
Definition formatWith (group decimal : char) (n : number) : str :=
  let sign (s : bool) : str := if s then [ch "-"] else [] in
  match n with
  | S754_nan => lit "NaN"
  | S754_infinity s => sign s ++ [8734%N]
  | S754_zero s => sign s ++ [ch "0"; decimal; ch "0"; ch "0"]
  | S754_finite s m e =>
    let c := hundredths m e in
    sign s ++ grouped group (c / 100) ++ [decimal] ++ twoDigits (c mod 100)
  end.

(** The default locale of the runtime, by the text it gives a number
    with [{minimumFractionDigits: 2, maximumFractionDigits: 2}].  Two
    locales are written out: en-US, with commas between the groups and a
    point before the decimals, and de-DE, with points and a comma. *)
Definition locale := number -> str.

Definition enUS : locale := formatWith (ch ",") (ch ".").
Definition deDE : locale := formatWith (ch ".") (ch ",").

(** [n.toLocaleString(undefined, {minimumFractionDigits: 2,
    maximumFractionDigits: 2})] under the default locale [loc]. *)
Definition toLocaleString2 (loc : locale) (n : number) : str := loc n.

End Num.

Import Num.

(* ================================================================== *)
(** * utils/types.ts *)
(* ================================================================== *)

Module Types.

(** The values at hand: [undefined], a string, a number, and any object
    or function, of which only the text [String] gives for it is
    read. *)
Inductive value : Type :=
| VUndefined
| VString (s : str)
| VNumber (n : number)
| VObject (text : str).

Definition ofOption (o : option str) : value :=
  match o with Some s => VString s | None => VUndefined end.

Record ParsedRow : Type := mkRow {
  studentNo : option str;
  sin : option str;
  gov : option str;
  cert : option str;
  name : option str;
  eosDate : option str;
  amount : value;
  extra : list (str * value)          (* [k: string]: any *)
}.

Record ParsedTotals : Type := mkTotals {
  count : option number;
  t_amount : value
}.

Record ParsedPage : Type := mkPage {
  sheetName : option str;
  headerLines : option (list str);
  columns : option (list str);
  rows : list ParsedRow;
  totals : option ParsedTotals
}.

End Types.

Import Types.

(* ================================================================== *)
(** * utils/parse.ts *)
(* ================================================================== *)

Module Parse.

Definition nbsp : char := 160%N.
Definition tab : char := 9%N.

(** [/ /g], [/[ \t]+/g] *)
Definition rxNbsp : regex := Chr nbsp.
Definition rxBlanks : regex := plus (Cls [IChar (ch " "); IChar tab]).

Definition normalize (s : str) : str :=
  trim (replaceAll rxBlanks (lit " ") (replaceAll rxNbsp (lit " ") s)).

Definition tokens : list str :=
  [lit "STUDENT"; lit "SIN"; lit "GOV"; lit "CERT"; lit "NAME"; lit "EOS";
   lit "DATE"; lit "AMOUNT"].

Definition looksLikeHeader (line : str) : bool :=
  let L := toUpperCase line in
  3 <=? fold_left (fun n t => if includes L t then n + 1 else n) tokens 0.

(** [/\|/g], [/ {2,}|\t+/] *)
Definition rxPipe : regex := Chr (ch "|").
Definition rxGap : regex := Alt (atLeast 2 (Chr (ch " "))) (plus (Chr tab)).

Definition canonicalColumns : list str :=
  [lit "STUDENT NO"; lit "SIN"; lit "GOV"; lit "CERT #";
   lit "ABBREVIATED NAME"; lit "EOS DATE"; lit "AMOUNT"].

Definition splitColumns (header : str) : list str :=
  let parts :=
    filter truthy
           (map trim (split rxGap (replaceAll rxPipe (lit "  ") header))) in
  if 3 <=? length parts then parts else canonicalColumns.

(** [/[,$\s$]/g] *)
Definition rxStrip : regex :=
  Cls [IChar (ch ","); IChar (ch "$"); ISpace; IChar (ch "$")].

(** [String(v)] *)
Definition String_ (v : value) : str :=
  match v with
  | VUndefined => lit "undefined"
  | VString s => s
  | VNumber n => Num.toString n
  | VObject text => text
  end.

(** [Number(s || 0)] *)
Definition numberOr0 (s : str) : number :=
  if truthy s then ofString s else ofZ 0.

Definition toNumber (v : value) : number :=
  match v with
  | VNumber x => if isFinite x then x else zero
  | _ =>
    let n := numberOr0 (replaceAll rxStrip (lit "") (String_ v)) in
    if isFinite n then n else zero
  end.

(** [/[$]?\s*([\d,]+\.\d{2})\b/] *)
Definition rxAmount : regex :=
  seq [ opt (Cls [IChar (ch "$")]);
        star space;
        Group 1 (seq [plus (Cls [IDigit; IChar (ch ",")]);
                      Chr (ch "."); exactly 2 digit]);
        WordB ].

(** [/\b(\d{1,4})\b(?!.*\b\d{1,4}\b)/] *)
Definition rxCount : regex :=
  seq [ WordB;
        Group 1 (between 1 4 digit);
        WordB;
        NegLook (seq [star Dot; WordB; between 1 4 digit; WordB]) ].

(** The text of group [i] of a match; every group read below takes part
    in each match of its expression, [m[3]] of [rxRow] apart. *)
Definition groupText (m : result) (i : nat) : str :=
  match group m i with Some s => s | None => [] end.

Definition parseTotals (line : str) : option ParsedTotals :=
  let L := toUpperCase line in
  if negb (includes L (lit "TOTAL")) then None
  else
    let amount :=
      match exec rxAmount line with
      | Some m => Some (toNumber (VString (groupText m 1)))
      | None => None
      end in
    let count :=
      match exec rxCount line with
      | Some m => Some (ofString (groupText m 1))
      | None => None
      end in
    match amount, count with
    | None, None => None
    | _, _ =>
      Some (mkTotals count
                     (match amount with
                      | Some a => VNumber a
                      | None => VUndefined
                      end))
    end.

(** [/^(\d{3,})\s+(\d{3}-\d{3}-\d{3})\s+([A-Z]{2})?\s*(\d{4,})\s+(.+?)\s+(\d{2}\/\d{2}\/\d{2})\s+([$]?[\d,]+\.\d{2})$/] *)
Definition rxRow : regex :=
  seq [ Bol;
        Group 1 (atLeast 3 digit);
        plus space;
        Group 2 (seq [exactly 3 digit; Chr (ch "-"); exactly 3 digit;
                      Chr (ch "-"); exactly 3 digit]);
        plus space;
        opt (Group 3 (exactly 2 (Cls [IRange (ch "A") (ch "Z")])));
        star space;
        Group 4 (atLeast 4 digit);
        plus space;
        Group 5 (plusLazy Dot);
        plus space;
        Group 6 (seq [exactly 2 digit; Chr (ch "/"); exactly 2 digit;
                      Chr (ch "/"); exactly 2 digit]);
        plus space;
        Group 7 (seq [opt (Cls [IChar (ch "$")]);
                      plus (Cls [IDigit; IChar (ch ",")]);
                      Chr (ch "."); exactly 2 digit]);
        Eol ].

(** [(m[3] || "").trim() || undefined] *)
Definition govOf (g : option str) : option str :=
  let t := trim (match g with Some s => s | None => [] end) in
  if truthy t then Some t else None.

Definition parseRow (line : str) : option ParsedRow :=
  let l := normalize line in
  match exec rxRow l with
  | None => None
  | Some m =>
    Some (mkRow (group m 1) (group m 2) (govOf (group m 3)) (group m 4)
                (group m 5) (group m 6) (ofOption (group m 7)) [])
  end.

Fixpoint findIndex {A : Type} (p : A -> bool) (l : list A) : option nat :=
  match l with
  | [] => None
  | x :: l' => if p x then Some 0 else option_map S (findIndex p l')
  end.

(** The loop over the lines after the header line: [rows] is the array
    built so far; a totals line ends the loop. *)
Fixpoint scan (lines : list str) (rows : list ParsedRow)
  : list ParsedRow * option ParsedTotals :=
  match lines with
  | [] => (rows, None)
  | ln :: tl =>
    match parseTotals ln with
    | Some t => (rows, Some t)
    | None =>
      match parseRow ln with
      | Some r => scan tl (rows ++ [r])
      | None => scan tl rows
      end
    end
  end.

Definition cleanLines (lines : list str) : list str :=
  filter truthy (map normalize lines).

Definition headerIndex (clean : list str) : nat :=
  match findIndex looksLikeHeader clean with
  | Some i => i
  | None => Nat.min 4 (length clean)
  end.

Definition parseFromLines (lines : list str) (pageIndex : Z) : ParsedPage :=
  let clean := cleanLines lines in
  let headerIdx := headerIndex clean in
  let headerLines := firstn headerIdx clean in
  let headerLine := nth headerIdx clean [] in
  let columns := splitColumns headerLine in
  let (rows, totals) := scan (skipn (headerIdx + 1) clean) [] in
  let sheetName :=
    match headerLines with
    | h :: _ => if truthy h then h else lit "Page " ++ Str.ofZ pageIndex
    | [] => lit "Page " ++ Str.ofZ pageIndex
    end in
  mkPage (Some sheetName) (Some headerLines) (Some columns) rows totals.

(** [/\r?\n/] *)
Definition rxNewline : regex := Seq (opt (Chr 13%N)) (Chr 10%N).

Definition parseDisbursementPageFromText (rawText : str) (pageIndex : Z)
  : ParsedPage :=
  parseFromLines (split rxNewline rawText) pageIndex.

(** The text of a canvas is what the recognition engine makes of it. *)
Section Canvas.

Variable canvas : Type.
Variable ocrCanvas : canvas -> str.

Definition parseDisbursementPageFromCanvas (c : canvas) (pageIndex : Z)
  : ParsedPage :=
  parseFromLines (split rxNewline (ocrCanvas c)) pageIndex.

End Canvas.

End Parse.

(* ================================================================== *)
(** * utils/makeExcel.ts *)
(* ================================================================== *)

Module MakeExcel.

(** The default locale of the runtime, which [fmtMoney] relies on. *)
Section Runtime.

Variable loc : locale.

Definition asString (v : value) : str :=
  match v with
  | VUndefined => []
  | VString s => s
  | VNumber n => Num.toString n
  | VObject text => text
  end.

Definition toNumber (v : value) : number :=
  match v with
  | VNumber x => if isFinite x then x else zero
  | _ =>
    let n := Parse.numberOr0 (replaceAll Parse.rxStrip (lit "") (asString v)) in
    if isFinite n then n else zero
  end.

Definition fmtMoney (n : number) : str := toLocaleString2 loc n.

Definition sumAmounts (rows : list ParsedRow) : number :=
  fold_left (fun acc r => add acc (toNumber (amount r))) rows zero.

(** [/[\\/*?:\[\]:]/g] *)
Definition rxIllegal : regex :=
  Cls [IChar 92%N; IChar (ch "/"); IChar (ch "*"); IChar (ch "?");
       IChar (ch ":"); IChar (ch "["); IChar (ch "]"); IChar (ch ":")].

Definition pageLabel (n : nat) : str := lit "Page " ++ Str.ofNat n.

Definition safeSheetName (raw : value) (indexZeroBased : nat) : str :=
  let s := trim (replaceAll rxIllegal (lit "") (asString raw)) in
  let s := if truthy s then s else pageLabel (indexZeroBased + 1) in
  if 31 <? length s then slice0 s 31 else s.

(** ** The set of names in use *)

(** A [Set<string>]: its members, in the order of insertion. *)
Definition StrSet := list str.

Definition has (used : StrSet) (x : str) : bool := existsb (Str.eqb x) used.

Definition add (used : StrSet) (x : str) : StrSet :=
  if has used x then used else used ++ [x].

(** The candidate name [`${stem} (${n})`]. *)
Definition numbered (base : str) (n : nat) : str :=
  slice0 base (31 - 4) ++ lit " (" ++ Str.ofNat n ++ lit ")".

(** The [while] loop of [uniqueSheetName], from the state [(name, n)]. *)
Fixpoint whileUsed (fuel : nat) (base : str) (used : StrSet)
         (name : str) (n : nat) : option str :=
  if has used name then
    match fuel with
    | O => None
    | S fuel' => whileUsed fuel' base used (numbered base n) (S n)
    end
  else Some name.

(** The number of rounds the loop can need: one per name in use. *)
Definition rounds (used : StrSet) : nat := S (length used).

Definition uniqueSheetName (base : str) (used : StrSet)
  : option (str * StrSet) :=
  match whileUsed (rounds used) base used base 2 with
  | Some name => Some (name, add used name)
  | None => None
  end.

(** ** The calls on the library *)

(** The workbook is built by ExcelJS, which is no part of the program.
    The assembler never reads anything back from it: what it does is a
    sequence of calls that the pages alone determine, and the library
    either carries a call out or throws, which ends the assembly.  So
    the calls are described first, and then the run of them on a
    library. *)

(** The calls on the cells of a sheet: [ws.mergeCells(top, left, bottom,
    right)] and [ws.getCell(row, col).value = v].  Fonts, borders and
    alignments, which carry no data, are left out. *)
Inductive op : Type :=
| MergeCells (top left bottom right : nat)
| SetValue (row col : nat) (v : value).

Record column : Type := mkColumn { header : str; width : nat }.

(** What the assembler asks for one page: a sheet under the name
    [wsName] ([wb.addWorksheet(wsName)]), the columns [wsColumns]
    ([ws.columns = ...]) and its calls on the cells, in order. *)
Record worksheet : Type := mkSheet {
  wsName : str;
  wsColumns : list column;
  wsOps : list op
}.

Definition defaultHeaders : list str :=
  [lit "STUDENT NO"; lit "SIN"; lit "GOV"; lit "CERT #";
   lit "ABBREVIATED NAME"; lit "EOS DATE"; lit "AMOUNT"].

(** [Array.isArray(page.columns) && page.columns.length] *)
Definition hasColumns (page : ParsedPage) : bool :=
  match columns page with
  | Some (_ :: _) => true
  | _ => false
  end.

Definition headersOf (page : ParsedPage) : list str :=
  if hasColumns page
  then map (fun h => asString (VString h))
           (match columns page with Some cs => cs | None => [] end)
  else defaultHeaders.

Definition columnsOf (headers : list str) : list column :=
  map (fun h => mkColumn h (Nat.max 12 (Nat.min 40 (length h + 6)))) headers.

(** The rows of the free-form header lines; the result holds the next
    free row. *)
Definition headerLineOps (width : nat) (lines : list str) (rowIndex : nat)
  : list op * nat :=
  match lines with
  | [] => ([], rowIndex)
  | _ :: _ =>
    let (ops, r) :=
      fold_left
        (fun (acc : list op * nat) line =>
           let (ops, r) := acc in
           (ops ++ [MergeCells r 1 r width;
                    SetValue r 1 (VString (asString (VString line)))],
            r + 1))
        lines ([], rowIndex) in
    (ops, r + 1)
  end.

Definition headerKeyMap (key : str) : option (ParsedRow -> value) :=
  if Str.eqb key (lit "STUDENT NO") then Some (fun r => ofOption (studentNo r))
  else if Str.eqb key (lit "SIN") then Some (fun r => ofOption (sin r))
  else if Str.eqb key (lit "GOV") then Some (fun r => ofOption (gov r))
  else if Str.eqb key (lit "CERT #") then Some (fun r => ofOption (cert r))
  else if Str.eqb key (lit "ABBREVIATED NAME")
  then Some (fun r => ofOption (name r))
  else if Str.eqb key (lit "EOS DATE") then Some (fun r => ofOption (eosDate r))
  else if Str.eqb key (lit "AMOUNT") then Some (fun r => amount r)
  else None.

Fixpoint assoc (key : str) (l : list (str * value)) : option value :=
  match l with
  | [] => None
  | (k, v) :: l' => if Str.eqb k key then Some v else assoc key l'
  end.

(** A built-in function, by the text [String] gives for it (the engine
    chooses the white space; this is the text of V8). *)
Definition nativeFunction (name : str) : value :=
  VObject (lit "function " ++ name ++ lit "() { [native code] }").

(** The members of [Object.prototype], which every row inherits:
    [constructor] is the function [Object], [__proto__] gives the
    prototype itself, the others are functions of their own name. *)
Definition objectPrototype : list (str * value) :=
  [ (lit "constructor", nativeFunction (lit "Object"));
    (lit "__defineGetter__", nativeFunction (lit "__defineGetter__"));
    (lit "__defineSetter__", nativeFunction (lit "__defineSetter__"));
    (lit "hasOwnProperty", nativeFunction (lit "hasOwnProperty"));
    (lit "__lookupGetter__", nativeFunction (lit "__lookupGetter__"));
    (lit "__lookupSetter__", nativeFunction (lit "__lookupSetter__"));
    (lit "isPrototypeOf", nativeFunction (lit "isPrototypeOf"));
    (lit "propertyIsEnumerable", nativeFunction (lit "propertyIsEnumerable"));
    (lit "toString", nativeFunction (lit "toString"));
    (lit "valueOf", nativeFunction (lit "valueOf"));
    (lit "__proto__", VObject (lit "[object Object]"));
    (lit "toLocaleString", nativeFunction (lit "toLocaleString")) ].

(** [(r as any)[h]]: a property of the row by its name, one of its own
    or, failing that, one it inherits. *)
Definition property (r : ParsedRow) (h : str) : value :=
  if Str.eqb h (lit "studentNo") then ofOption (studentNo r)
  else if Str.eqb h (lit "sin") then ofOption (sin r)
  else if Str.eqb h (lit "gov") then ofOption (gov r)
  else if Str.eqb h (lit "cert") then ofOption (cert r)
  else if Str.eqb h (lit "name") then ofOption (name r)
  else if Str.eqb h (lit "eosDate") then ofOption (eosDate r)
  else if Str.eqb h (lit "amount") then amount r
  else
    match assoc h (extra r) with
    | Some v => v
    | None =>
      match assoc h objectPrototype with
      | Some v => v
      | None => VUndefined
      end
    end.

Definition rawOf (r : ParsedRow) (h : str) : value :=
  match headerKeyMap (toUpperCase h) with
  | Some getter => getter r
  | None => property r h
  end.

Definition isCurrency (h : str) : bool :=
  includes (toUpperCase h) (lit "AMOUNT").

(** The value given to the cell of row [r] under the header [h]. *)
Definition cellValue (r : ParsedRow) (h : str) : value :=
  let raw := rawOf r h in
  if isCurrency h then
    let n := toNumber raw in
    VString (if isFinite n then lit "$" ++ fmtMoney n else asString raw)
  else VString (asString raw).

Fixpoint rowOps (r : ParsedRow) (rowIndex i : nat) (headers : list str)
  : list op :=
  match headers with
  | [] => []
  | h :: hs => SetValue rowIndex (i + 1) (cellValue r h)
                 :: rowOps r rowIndex (i + 1) hs
  end.

Fixpoint dataOps (headers : list str) (rows : list ParsedRow)
         (rowIndex : nat) : list op * nat :=
  match rows with
  | [] => ([], rowIndex)
  | r :: rs =>
    let (ops, next) := dataOps headers rs (rowIndex + 1) in
    (rowOps r rowIndex 0 headers ++ ops, next)
  end.

Definition totalCount (page : ParsedPage) : number :=
  match totals page with
  | Some (mkTotals (Some c) _) => c
  | _ => ofZ (Z.of_nat (length (rows page)))
  end.

Definition totalAmountNum (page : ParsedPage) : number :=
  match totals page with
  | None | Some (mkTotals _ VUndefined) => sumAmounts (rows page)
  | Some (mkTotals _ a) => toNumber a
  end.

(** The totals row.  The count goes to the column before the last: for
    a page with one label this is [ws.getCell(rowIndex, 0)]. *)
Definition totalsOps (page : ParsedPage) (width rowIndex : nat) : list op :=
  [ MergeCells rowIndex 1 rowIndex (Nat.max 1 (width - 2));
    SetValue rowIndex 1 (VString (lit "TOTAL FOR THIS DISBURSEMENT"));
    SetValue rowIndex (width - 1) (VNumber (totalCount page));
    SetValue rowIndex width
             (VString (lit "$" ++ fmtMoney (totalAmountNum page))) ].

(** The intended name of a sheet:
    [page.sheetName ?? page.headerLines?.[0] ?? `Page ${idx + 1}`]. *)
Definition intendedName (page : ParsedPage) (idx : nat) : str :=
  match sheetName page with
  | Some s => s
  | None =>
    match headerLines page with
    | Some (h :: _) => h
    | _ => pageLabel (idx + 1)
    end
  end.

(** The body of the [forEach] over the pages: the calls for the page
    [idx], and the names in use after it. *)
Definition addPage (page : ParsedPage) (idx : nat) (used : StrSet)
  : option (worksheet * StrSet) :=
  let base := safeSheetName (VString (intendedName page idx)) idx in
  match uniqueSheetName base used with
  | None => None
  | Some (wsName, used') =>
    let headers := headersOf page in
    let width := length headers in
    let (ops1, rowIndex) :=
      headerLineOps width
                    (match headerLines page with Some l => l | None => [] end)
                    1 in
    let rowIndex := rowIndex + 1 in
    let (ops2, rowIndex) := dataOps headers (rows page) rowIndex in
    let rowIndex := rowIndex + 1 in
    Some (mkSheet wsName (columnsOf headers)
                  (ops1 ++ ops2 ++ totalsOps page width rowIndex),
          used')
  end.

Fixpoint addPages (pages : list ParsedPage) (idx : nat) (used : StrSet)
  : option (list worksheet) :=
  match pages with
  | [] => Some []
  | page :: ps =>
    match addPage page idx used with
    | None => None
    | Some (ws, used') =>
      match addPages ps (idx + 1) used' with
      | Some wss => Some (ws :: wss)
      | None => None
      end
    end
  end.

(** The calls of the [forEach] over all the pages, sheet by sheet. *)
Definition requests (pages : list ParsedPage) : option (list worksheet) :=
  addPages pages 0 [].

(** The calls in the order in which they are made. *)
Inductive call : Type :=
| AddWorksheet (name : str)
| SetColumns (cols : list column)
| OnSheet (o : op).

Definition callsOf (ws : worksheet) : list call :=
  AddWorksheet (wsName ws) :: SetColumns (wsColumns ws)
               :: map OnSheet (wsOps ws).

(** The library: a workbook is a value of any type, and [perform] tells
    what a call makes of it, [None] when the call throws.  (ExcelJS
    throws, for one, on [addWorksheet] with a name that is in use up to
    the case of its letters, and on [getCell] with the column 0; it cuts
    the name of a sheet to 31 characters; and it writes the header of
    each column assigned to [ws.columns] into row 1.) *)
Section Library.

Variable workbook : Type.
Variable perform : workbook -> call -> option workbook.

(** The calls are made one after the other until one throws. *)
Fixpoint performAll (wb : workbook) (calls : list call) : option workbook :=
  match calls with
  | [] => Some wb
  | c :: calls' =>
    match perform wb c with
    | Some wb' => performAll wb' calls'
    | None => None
    end
  end.

(** [createWorkbookFromPages(pages)], from the workbook [wb] that
    [new ExcelJS.Workbook()] gives: the workbook after the last call, or
    [None] when a call throws. *)
Definition createWorkbookFromPages (wb : workbook) (pages : list ParsedPage)
  : option workbook :=
  match requests pages with
  | Some sheets => performAll wb (flat_map callsOf sheets)
  | None => None
  end.

End Library.

End Runtime.

End MakeExcel.

(* ================================================================== *)
(** * pages/index.tsx *)
(* ================================================================== *)

Module Index.

Import Parse MakeExcel.

(** [/\.pdf$/i] *)
Definition rxPdf : regex :=
  seq [ Chr (ch ".");
        Cls [IChar (ch "p"); IChar (ch "P")];
        Cls [IChar (ch "d"); IChar (ch "D")];
        Cls [IChar (ch "f"); IChar (ch "F")];
        Eol ].

(** The name of the download:
    [file.name.replace(/\.pdf$/i, "") + ".xlsx"]. *)
Definition outName (name : str) : str :=
  replaceFirst rxPdf (lit "") name ++ lit ".xlsx".

(** The text of the text layer of a page: the [str] of every item that
    has one, joined by line feeds, with the non-breaking spaces replaced,
    the runs of spaces and tabs squeezed and the ends trimmed. *)
Definition rawTextOf (items : list (option str)) : str :=
  trim
    (replaceAll rxBlanks (lit " ")
       (replaceAll rxNbsp (lit " ")
          (join [10%N]
                (map (fun item => match item with Some s => s | None => [] end)
                     items)))).

(** The data path of [handleFile]; the log, the progress flags and the
    download are left out. *)
Section HandleFile.

Variable canvas : Type.
Variable ocrCanvas : canvas -> str.
Variable loc : locale.
Variable workbook : Type.
Variable perform : workbook -> call -> option workbook.

(** A page of the document: the items of its text layer and the canvas
    it is rendered to. *)
Record pdfPage : Type := mkPdfPage {
  textItems : list (option str);
  rendered : canvas
}.

(** Page [i]: parsed from its text when the text has more than 50
    characters, else from the recognized text of its canvas. *)
Definition pageResult (i : nat) (pg : pdfPage) : ParsedPage :=
  let rawText := rawTextOf (textItems pg) in
  if truthy rawText && (50 <? length rawText)
  then parseDisbursementPageFromText rawText (Z.of_nat i)
  else parseDisbursementPageFromCanvas ocrCanvas (rendered pg) (Z.of_nat i).

(** The loop over the pages, from page [i] on. *)
Fixpoint resultsFrom (i : nat) (pages : list pdfPage) : list ParsedPage :=
  match pages with
  | [] => []
  | pg :: tl => pageResult i pg :: resultsFrom (S i) tl
  end.

(** The workbook of the document, [createWorkbookFromPages(results)];
    when a call on the library throws there is none, and [handleFile]
    logs the error. *)
Definition workbookOf (wb : workbook) (doc : list pdfPage)
  : option workbook :=
  createWorkbookFromPages loc perform wb (resultsFrom 1 doc).

End HandleFile.

End Index.

(* ================================================================== *)
(** * The matcher and the language of an expression *)
(* ================================================================== *)

Module RegexFacts.

(** ** What a successful run has matched *)

Definition withinMax (max : option nat) (n : nat) : Prop :=
  match max with Some m => n <= m | None => True end.

Fixpoint Iter (M : mstate -> mstate -> Prop) (gs : list nat) (n : nat)
         (st st' : mstate) : Prop :=
  match n with
  | O => st' = st
  | S n' => exists mid, M (clearCaps gs st) mid /\ Iter M gs n' mid st'
  end.

(** [Matches r st st']: from the state [st] the expression [r] can
    match up to the state [st'], whatever the order in which the
    matcher tries the alternatives. *)
Fixpoint Matches (r : regex) (st st' : mstate) : Prop :=
  match r with
  | Chr c => exists tl, rest st = c :: tl /\ st' = step st c tl
  | Dot =>
    exists c tl, rest st = c :: tl /\ isLineTerminator c = false
                 /\ st' = step st c tl
  | Cls items =>
    exists c tl, rest st = c :: tl /\ inClass items c = true
                 /\ st' = step st c tl
  | Bol => past st = [] /\ st' = st
  | Eol => rest st = [] /\ st' = st
  | WordB =>
    xorb (isWordAt (past st)) (isWordAt (rest st)) = true /\ st' = st
  | Eps => st' = st
  | Seq r1 r2 => exists mid, Matches r1 st mid /\ Matches r2 mid st'
  | Alt r1 r2 => Matches r1 st st' \/ Matches r2 st st'
  | Rep min max _ r' =>
    exists n, (min <= n \/ max = Some n) /\ withinMax max n
              /\ Iter (Matches r') (groupsOf r') n st st'
  | Group i r' =>
    exists mid, Matches r' st mid
                /\ st' = MState (past mid) (rest mid)
                                (setCap i (Some (consumed st mid)) (caps mid))
  | NegLook r' => run r' st (fun x => Some x) = None /\ st' = st
  end.

Definition Sound (mr : mstate -> cont -> option mstate)
           (M : mstate -> mstate -> Prop) : Prop :=
  forall st k res, mr st k = Some res ->
                   exists st', M st st' /\ k st' = Some res.

Lemma oneChar_sound (p : char -> bool) st k res :
  oneChar p st k = Some res ->
  exists c tl, rest st = c :: tl /\ p c = true /\ k (step st c tl) = Some res.
Proof.
  unfold oneChar. destruct (rest st) as [|c tl]; [discriminate|].
  destruct (p c) eqn:E; [|discriminate]. intros H. now exists c, tl.
Qed.

Lemma orElse_Some a b res :
  orElse a b = Some res -> a = Some res \/ (a = None /\ b tt = Some res).
Proof. destruct a; simpl; auto. Qed.

Lemma repeatMatcher_sound mr M gs greedy :
  Sound mr M ->
  forall fuel min max st k res,
    repeatMatcher mr gs greedy fuel min max st k = Some res ->
    exists n st', (min <= n \/ max = Some n) /\ withinMax max n
                  /\ Iter M gs n st st' /\ k st' = Some res.
Proof.
  intros HS. induction fuel as [|fuel IH]; intros min max st k res H.
  - discriminate.
  - simpl in H.
    assert (Hzero : k st = Some res -> min = 0 \/ max = Some 0 ->
                    exists n st', (min <= n \/ max = Some n) /\ withinMax max n
                                  /\ Iter M gs n st st' /\ k st' = Some res).
    { intros Hk Hm. exists 0, st. repeat split; auto.
      - destruct Hm as [-> | ->]; [left; lia | now right].
      - destruct max; simpl; lia. }
    assert (Hiter : mr (clearCaps gs st)
              (fun st' =>
                 if Nat.eqb min 0
                    && Nat.eqb (length (rest st')) (length (rest st))
                 then None
                 else repeatMatcher mr gs greedy fuel (Nat.pred min)
                                    (option_map Nat.pred max) st' k)
              = Some res -> max <> Some 0 ->
              exists n st', (min <= n \/ max = Some n) /\ withinMax max n
                            /\ Iter M gs n st st' /\ k st' = Some res).
    { intros Hr Hmax. apply HS in Hr. destruct Hr as (mid & HM & Hd).
      destruct (Nat.eqb min 0 && _); [discriminate|].
      apply IH in Hd. destruct Hd as (n & st' & Hmin & Hmx & Hit & Hk).
      exists (S n), st'. repeat split; auto.
      - destruct Hmin as [Hmin | Hmin]; [left; lia|].
        destruct max as [[|m]|]; simpl in *; try congruence.
        right. inversion Hmin. reflexivity.
      - destruct max as [[|m]|]; simpl in *; try congruence; lia.
      - simpl. eauto. }
    destruct max as [[|m]|].
    + apply Hzero; auto.
    + destruct (Nat.eqb min 0) eqn:E0; simpl in H.
      * apply Nat.eqb_eq in E0.
        destruct greedy; apply orElse_Some in H;
          destruct H as [H | [_ H]];
          try (apply Hiter; [exact H | discriminate]);
          apply Hzero; auto.
      * apply Hiter; [exact H | discriminate].
    + destruct (Nat.eqb min 0) eqn:E0; simpl in H.
      * apply Nat.eqb_eq in E0.
        destruct greedy; apply orElse_Some in H;
          destruct H as [H | [_ H]];
          try (apply Hiter; [exact H | discriminate]);
          apply Hzero; auto.
      * apply Hiter; [exact H | discriminate].
Qed.

(** The matcher only returns what the expression can match. *)
Lemma run_sound r : Sound (run r) (Matches r).
Proof.
  induction r; intros st k res H; simpl in H |- *.
  - apply oneChar_sound in H. destruct H as (c' & tl & Hr & Hc & Hk).
    apply N.eqb_eq in Hc. subst c'. eauto.
  - apply oneChar_sound in H. destruct H as (c' & tl & Hr & Hc & Hk).
    apply negb_true_iff in Hc. eauto 8.
  - apply oneChar_sound in H. destruct H as (c' & tl & Hr & Hc & Hk).
    eauto 8.
  - destruct (past st) eqn:E; [eauto | discriminate].
  - destruct (rest st) eqn:E; [eauto | discriminate].
  - destruct (xorb _ _) eqn:E; [eauto | discriminate].
  - eauto.
  - apply IHr1 in H. destruct H as (mid & H1 & H).
    apply IHr2 in H. destruct H as (st' & H2 & H). eauto.
  - apply orElse_Some in H. destruct H as [H | [_ H]].
    + apply IHr1 in H. destruct H as (st' & H1 & H). eauto.
    + apply IHr2 in H. destruct H as (st' & H1 & H). eauto.
  - eapply repeatMatcher_sound in H; [|exact IHr].
    destruct H as (n & st' & H1 & H2 & H3 & H4). eauto 8.
  - apply IHr in H. destruct H as (mid & H1 & H). eauto.
  - destruct (run r st (fun st' => Some st')) eqn:E; [discriminate|]. eauto.
Qed.

(** ** The language of an expression without assertions *)

Fixpoint lang (r : regex) (w : str) : Prop :=
  match r with
  | Chr c => w = [c]
  | Dot => exists c, w = [c] /\ isLineTerminator c = false
  | Cls items => exists c, w = [c] /\ inClass items c = true
  | Eps => w = []
  | Seq r1 r2 => exists w1 w2, w = w1 ++ w2 /\ lang r1 w1 /\ lang r2 w2
  | Alt r1 r2 => lang r1 w \/ lang r2 w
  | Rep min max _ r' =>
    exists ws, w = concat ws /\ min <= length ws
               /\ withinMax max (length ws) /\ Forall (lang r') ws
  | Group _ r' => lang r' w
  | Bol | Eol | WordB | NegLook _ => False
  end.

(** Every match of the expression takes at least one character. *)
Fixpoint consuming (r : regex) : bool :=
  match r with
  | Chr _ | Dot | Cls _ => true
  | Seq a b => consuming a || consuming b
  | Alt a b => consuming a && consuming b
  | Rep min _ _ a => negb (Nat.eqb min 0) && consuming a
  | Group _ a => consuming a
  | _ => false
  end.

(** No assertion, each quantified atom takes a character, and no
    quantifier has its bounds out of order. *)
Fixpoint plain (r : regex) : bool :=
  match r with
  | Chr _ | Dot | Cls _ | Eps => true
  | Seq a b | Alt a b => plain a && plain b
  | Rep min max _ a =>
    plain a && consuming a
    && match max with Some m => min <=? m | None => true end
  | Group _ a => plain a
  | _ => false
  end.

Lemma consumed_app st st' w :
  rest st = w ++ rest st' -> consumed st st' = w.
Proof.
  intros H. unfold consumed. rewrite H, length_app.
  replace (length w + length (rest st') - length (rest st')) with (length w)
    by lia.
  rewrite firstn_app, firstn_all, Nat.sub_diag. simpl. apply app_nil_r.
Qed.

Lemma lang_nonempty r :
  plain r = true -> consuming r = true -> forall w, lang r w -> w <> [].
Proof.
  induction r; simpl; intros Hp Hc w Hw; try discriminate.
  - subst. discriminate.
  - destruct Hw as (c & -> & _). discriminate.
  - destruct Hw as (c & -> & _). discriminate.
  - apply andb_true_iff in Hp. destruct Hp as [Hp1 Hp2].
    destruct Hw as (w1 & w2 & -> & H1 & H2).
    apply orb_true_iff in Hc. intros E. apply app_eq_nil in E.
    destruct E as [-> ->]. destruct Hc as [Hc | Hc].
    + now apply (IHr1 Hp1 Hc []).
    + now apply (IHr2 Hp2 Hc []).
  - apply andb_true_iff in Hp. destruct Hp as [Hp1 Hp2].
    apply andb_true_iff in Hc. destruct Hc as [Hc1 Hc2].
    destruct Hw; eauto.
  - apply andb_true_iff in Hp. destruct Hp as [Hp _].
    apply andb_true_iff in Hp. destruct Hp as [Hp _].
    apply andb_true_iff in Hc. destruct Hc as [Hm Hc].
    apply negb_true_iff, Nat.eqb_neq in Hm.
    destruct Hw as (ws & -> & Hlen & _ & Hall).
    destruct ws as [|w ws]; simpl in *; [lia|].
    inversion Hall; subst. intros E. apply app_eq_nil in E.
    destruct E as [-> _]. now apply (IHr Hp Hc []).
  - eauto.
Qed.

Lemma Iter_lang (M : mstate -> mstate -> Prop) (L : str -> Prop) gs :
  (forall st st', M st st' ->
                  exists w, rest st = w ++ rest st'
                            /\ past st' = rev w ++ past st /\ L w) ->
  forall n st st',
    Iter M gs n st st' ->
    exists ws, length ws = n /\ rest st = concat ws ++ rest st'
               /\ past st' = rev (concat ws) ++ past st /\ Forall L ws.
Proof.
  intros HM. induction n as [|n IH]; simpl; intros st st' H.
  - subst. exists []. simpl. auto.
  - destruct H as (mid & H1 & H2).
    apply HM in H1. destruct H1 as (w & Hr & Hp & Hw).
    apply IH in H2. destruct H2 as (ws & Hl & Hr' & Hp' & Hws).
    exists (w :: ws). simpl in *. repeat split; auto.
    + now rewrite Hr, Hr', app_assoc.
    + now rewrite Hp', Hp, rev_app_distr, app_assoc.
Qed.

(** A match of a plain expression is a word of its language. *)
Lemma Matches_lang r :
  plain r = true ->
  forall st st',
    Matches r st st' ->
    exists w, rest st = w ++ rest st' /\ past st' = rev w ++ past st
              /\ lang r w.
Proof.
  induction r; simpl; intros Hp st st' H; try discriminate.
  - destruct H as (tl & Hr & ->). exists [c]. simpl. auto.
  - destruct H as (c & tl & Hr & Hc & ->). exists [c]. simpl. eauto.
  - destruct H as (c & tl & Hr & Hc & ->). exists [c]. simpl. eauto.
  - subst. exists []. auto.
  - apply andb_true_iff in Hp. destruct Hp as [Hp1 Hp2].
    destruct H as (mid & H1 & H2).
    apply (IHr1 Hp1) in H1. destruct H1 as (w1 & Hr1 & Hq1 & Hw1).
    apply (IHr2 Hp2) in H2. destruct H2 as (w2 & Hr2 & Hq2 & Hw2).
    exists (w1 ++ w2). repeat split.
    + now rewrite Hr1, Hr2, app_assoc.
    + now rewrite Hq2, Hq1, rev_app_distr, app_assoc.
    + eauto.
  - apply andb_true_iff in Hp. destruct Hp as [Hp1 Hp2].
    destruct H as [H | H].
    + apply (IHr1 Hp1) in H. destruct H as (w & ? & ? & ?). eauto 6.
    + apply (IHr2 Hp2) in H. destruct H as (w & ? & ? & ?). eauto 6.
  - apply andb_true_iff in Hp. destruct Hp as [Hp Hb].
    apply andb_true_iff in Hp. destruct Hp as [Hp _].
    destruct H as (n & Hmin & Hmax & Hit).
    eapply Iter_lang in Hit; [|exact (IHr Hp)].
    destruct Hit as (ws & Hl & Hr & Hq & Hws).
    exists (concat ws). repeat split; auto.
    exists ws. subst n. repeat split; auto.
    destruct Hmin as [Hmin | ->]; [exact Hmin|].
    now apply Nat.leb_le in Hb.
  - destruct H as (mid & H & ->). simpl. apply (IHr Hp) in H. exact H.
Qed.

(** ** The matcher finds a match when there is one *)

Definition arrive (st : mstate) (w s2 : str) (c : nat -> option str) :=
  MState (rev w ++ past st) s2 c.

Definition Complete (mr : mstate -> cont -> option mstate)
           (L : str -> Prop) : Prop :=
  forall w, L w ->
  forall st s2 k, rest st = w ++ s2 ->
                  (forall c, k (arrive st w s2 c) <> None) ->
                  mr st k <> None.

Lemma orElse_not_None_l a b : a <> None -> orElse a b <> None.
Proof. destruct a; simpl; congruence. Qed.

Lemma orElse_not_None_r a b : b tt <> None -> orElse a b <> None.
Proof. destruct a; simpl; congruence. Qed.

Lemma repeatMatcher_complete mr (L : str -> Prop) gs greedy :
  Complete mr L ->
  (forall w, L w -> w <> []) ->
  forall ws, Forall L ws ->
  forall fuel min max st s2 k,
    length ws < fuel -> min <= length ws -> withinMax max (length ws) ->
    rest st = concat ws ++ s2 ->
    (forall c, k (arrive st (concat ws) s2 c) <> None) ->
    repeatMatcher mr gs greedy fuel min max st k <> None.
Proof.
  intros HC HN ws Hws. induction Hws as [|w ws Hw Hws IH];
    intros fuel min max st s2 k Hf Hmin Hmax Hr Hk;
    (destruct fuel as [|fuel]; [simpl in Hf; lia|]); simpl in *.
  - assert (Hst : k st <> None).
    { specialize (Hk (caps st)). unfold arrive in Hk. simpl in Hk.
      subst s2. now destruct st. }
    assert (min = 0) as -> by lia. simpl.
    destruct max as [[|m]|]; auto;
      destruct greedy;
      auto using orElse_not_None_l, orElse_not_None_r.
  - assert (Hd : mr (clearCaps gs st)
              (fun st' =>
                 if Nat.eqb min 0
                    && Nat.eqb (length (rest st')) (length (rest st))
                 then None
                 else repeatMatcher mr gs greedy fuel (Nat.pred min)
                                    (option_map Nat.pred max) st' k)
              <> None).
    { apply (HC w Hw) with (s2 := concat ws ++ s2).
      - simpl. now rewrite Hr, app_assoc.
      - intros c. unfold arrive. simpl.
        rewrite Hr, !length_app.
        assert (length w <> 0).
        { specialize (HN w Hw). destruct w; simpl; congruence. }
        replace (Nat.eqb (length (concat ws) + length s2)
                         (length w + length (concat ws) + length s2))
          with false by (symmetry; apply Nat.eqb_neq; lia).
        rewrite andb_false_r.
        apply IH with (s2 := s2); simpl; try lia.
        + destruct max as [m|]; simpl in *; lia.
        + reflexivity.
        + intros c'. specialize (Hk c'). unfold arrive in *. simpl in *.
          now rewrite rev_app_distr, <- app_assoc in Hk. }
    destruct max as [[|m]|]; simpl in Hmax; try lia;
      destruct (Nat.eqb min 0); simpl; auto;
      destruct greedy;
      auto using orElse_not_None_l, orElse_not_None_r.
Qed.

Lemma oneChar_complete (p : char -> bool) c :
  p c = true ->
  forall st s2 k, rest st = [c] ++ s2 ->
                  (forall cs, k (arrive st [c] s2 cs) <> None) ->
                  oneChar p st k <> None.
Proof.
  intros Hp st s2 k Hr Hk. unfold oneChar. rewrite Hr. simpl. rewrite Hp.
  apply (Hk (caps st)).
Qed.

Lemma concat_length_ge (L : str -> Prop) ws :
  (forall w, L w -> w <> []) -> Forall L ws ->
  length ws <= length (concat ws).
Proof.
  intros HN H. induction H as [|w ws Hw _ IH]; simpl; [lia|].
  rewrite length_app. specialize (HN w Hw).
  destruct w; simpl; [congruence | lia].
Qed.

(** On a plain expression the matcher fails only where no word of the
    language starts. *)
Lemma run_complete r : plain r = true -> Complete (run r) (lang r).
Proof.
  induction r; simpl; intros Hp w Hw st s2 k Hr Hk; try discriminate.
  - subst w. apply oneChar_complete with (c := c) (s2 := s2); auto.
    apply N.eqb_refl.
  - destruct Hw as (c & -> & Hc).
    apply oneChar_complete with (c := c) (s2 := s2); auto. now rewrite Hc.
  - destruct Hw as (c & -> & Hc).
    apply oneChar_complete with (c := c) (s2 := s2); auto.
  - subst w. specialize (Hk (caps st)). unfold arrive in Hk. simpl in *.
    subst s2. now destruct st.
  - apply andb_true_iff in Hp. destruct Hp as [Hp1 Hp2].
    destruct Hw as (w1 & w2 & -> & H1 & H2).
    apply (IHr1 Hp1 w1 H1) with (s2 := w2 ++ s2).
    + now rewrite Hr, app_assoc.
    + intros c. apply (IHr2 Hp2 w2 H2) with (s2 := s2); [reflexivity|].
      intros c'. specialize (Hk c'). unfold arrive in *. simpl in *.
      now rewrite rev_app_distr, <- app_assoc in Hk.
  - apply andb_true_iff in Hp. destruct Hp as [Hp1 Hp2].
    destruct Hw as [Hw | Hw].
    + apply orElse_not_None_l. eapply IHr1; eauto.
    + apply orElse_not_None_r. eapply IHr2; eauto.
  - apply andb_true_iff in Hp. destruct Hp as [Hp Hb].
    apply andb_true_iff in Hp. destruct Hp as [Hp Hc].
    destruct Hw as (ws & -> & Hmin & Hmax & Hws).
    assert (HN : forall w, lang r w -> w <> [])
      by (intros; eapply lang_nonempty; eauto).
    eapply repeatMatcher_complete with (L := lang r) (ws := ws); eauto.
    pose proof (concat_length_ge HN Hws) as Hl.
    rewrite Hr, length_app. lia.
  - apply (IHr Hp w Hw) with (s2 := s2); auto.
    intros c. simpl. apply Hk.
Qed.

(** ** The first match the matcher returns *)

(** The next character, if any, is outside [p]. *)
Definition stopsAt (p : char -> bool) (s : str) : Prop :=
  match s with [] => True | c :: _ => p c = false end.

Lemma mstate_eta st : MState (past st) (rest st) (caps st) = st.
Proof. now destruct st. Qed.

Lemma run_Rep min max greedy r st k :
  run (Rep min max greedy r) st k
  = repeatMatcher (run r) (groupsOf r) greedy (S (min + length (rest st)))
                  min max st k.
Proof. simpl. now rewrite Nat.add_1_r. Qed.

Lemma oneChar_stops p st k : stopsAt p (rest st) -> oneChar p st k = None.
Proof.
  unfold oneChar, stopsAt. destruct (rest st); auto. now intros ->.
Qed.

(** A greedy repetition of a character class takes the longest run of
    the class first; when the rest of the expression accepts that, it
    is the match. *)
Lemma repeat_class_greedy p k res :
  forall w st s' fuel min max,
    rest st = w ++ s' -> Forall (fun c => p c = true) w ->
    min <= length w -> withinMax max (length w) ->
    max = Some (length w) \/ stopsAt p s' ->
    length w < fuel ->
    k (arrive st w s' (caps st)) = Some res ->
    repeatMatcher (oneChar p) [] true fuel min max st k = Some res.
Proof.
  induction w as [|c w IH]; intros st s' fuel min max Hr Hw Hmin Hmax Hstop Hf Hk;
    (destruct fuel as [|fuel]; [simpl in Hf; lia|]); simpl in *.
  - assert (Hst : k st = Some res).
    { unfold arrive in Hk. simpl in Hk. rewrite <- Hr in Hk.
      now rewrite mstate_eta in Hk. }
    assert (min = 0) as -> by lia. simpl.
    destruct max as [[|m]|]; auto.
    + destruct Hstop as [Hstop | Hstop]; [discriminate|].
      unfold clearCaps. simpl. rewrite mstate_eta.
      rewrite oneChar_stops by now rewrite Hr. exact Hst.
    + destruct Hstop as [Hstop | Hstop]; [discriminate|].
      unfold clearCaps. simpl. rewrite mstate_eta.
      rewrite oneChar_stops by now rewrite Hr. exact Hst.
  - inversion Hw as [|c' w' Hc Hw']; subst c' w'.
    assert (Hd : oneChar p (clearCaps [] st)
              (fun st' =>
                 if Nat.eqb min 0
                    && Nat.eqb (length (rest st')) (length (rest st))
                 then None
                 else repeatMatcher (oneChar p) [] true fuel (Nat.pred min)
                                    (option_map Nat.pred max) st' k)
              = Some res).
    { unfold clearCaps. simpl. rewrite mstate_eta.
      unfold oneChar. rewrite Hr, Hc. simpl.
      replace (Nat.eqb (length (w ++ s')) (S (length (w ++ s')))) with false
        by (symmetry; apply Nat.eqb_neq; lia).
      rewrite andb_false_r.
      apply IH with (s' := s'); simpl; auto; try lia.
      - destruct max as [m|]; simpl in *; lia.
      - destruct Hstop as [-> | Hstop]; [left | right]; auto.
      - unfold arrive in *. simpl in *.
        now rewrite <- app_assoc in Hk. }
    destruct max as [[|m]|]; simpl in Hmax; try lia;
      revert Hd; destruct (Nat.eqb min 0); simpl; now intros ->.
Qed.

Lemma run_class_greedy items min max w st s' k res :
  rest st = w ++ s' -> Forall (fun c => inClass items c = true) w ->
  min <= length w -> withinMax max (length w) ->
  max = Some (length w) \/ stopsAt (inClass items) s' ->
  k (arrive st w s' (caps st)) = Some res ->
  run (Rep min max true (Cls items)) st k = Some res.
Proof.
  intros Hr Hw Hmin Hmax Hstop Hk. rewrite run_Rep.
  apply repeat_class_greedy with (w := w) (s' := s'); auto.
  rewrite Hr, length_app. lia.
Qed.

(** A repetition that needs one more character of the class fails where
    the next character is outside the class. *)
Lemma repeatMatcher_S mr gs greedy fuel min max st k :
  repeatMatcher mr gs greedy (S fuel) min max st k
  = match max with
    | Some O => k st
    | _ =>
      let d := fun st' =>
        if Nat.eqb min 0 && Nat.eqb (length (rest st')) (length (rest st))
        then None
        else repeatMatcher mr gs greedy fuel (Nat.pred min)
                           (option_map Nat.pred max) st' k in
      if negb (Nat.eqb min 0) then mr (clearCaps gs st) d
      else if greedy
           then orElse (mr (clearCaps gs st) d) (fun _ => k st)
           else orElse (k st) (fun _ => mr (clearCaps gs st) d)
    end.
Proof. reflexivity. Qed.

Lemma clearCaps_nil st : clearCaps [] st = st.
Proof. unfold clearCaps. simpl. apply mstate_eta. Qed.

Lemma run_class_none items min max greedy st k :
  0 < min -> max <> Some 0 -> stopsAt (inClass items) (rest st) ->
  run (Rep min max greedy (Cls items)) st k = None.
Proof.
  intros Hmin Hmax Hstop. rewrite run_Rep, repeatMatcher_S.
  replace (Nat.eqb min 0) with false by (symmetry; apply Nat.eqb_neq; lia).
  cbv zeta. simpl negb. cbv iota.
  assert (E : forall d, run (Cls items) (clearCaps [] st) d = None).
  { intros d. rewrite clearCaps_nil. simpl. now apply oneChar_stops. }
  destruct max as [[|m]|]; try congruence; apply E.
Qed.

(** A lazy repetition of a character class stops at the first length
    the rest of the expression accepts. *)
Lemma repeat_class_lazy p k res :
  forall w st s' fuel,
    rest st = w ++ s' -> Forall (fun c => p c = true) w ->
    length w < fuel ->
    (forall w1 w2, w = w1 ++ w2 -> w2 <> [] ->
                   k (arrive st w1 (w2 ++ s') (caps st)) = None) ->
    k (arrive st w s' (caps st)) = Some res ->
    repeatMatcher (oneChar p) [] false fuel 0 None st k = Some res.
Proof.
  induction w as [|c w IH]; intros st s' fuel Hr Hw Hf Hnone Hk;
    (destruct fuel as [|fuel]; [simpl in Hf; lia|]);
    rewrite repeatMatcher_S; cbv zeta; simpl negb; cbv iota.
  - unfold arrive in Hk. simpl in *. rewrite <- Hr, mstate_eta in Hk.
    now rewrite Hk.
  - inversion Hw as [|c' w' Hc Hw']; subst c' w'.
    assert (E : k st = None).
    { specialize (Hnone [] (c :: w) eq_refl). unfold arrive in Hnone.
      simpl in Hnone, Hr. rewrite <- Hr, mstate_eta in Hnone.
      apply Hnone. discriminate. }
    rewrite E. simpl orElse. rewrite clearCaps_nil.
    unfold oneChar at 1. rewrite Hr. simpl. rewrite Hc.
    replace (Nat.eqb (length (w ++ s')) (S (length (w ++ s')))) with false
      by (symmetry; apply Nat.eqb_neq; lia).
    apply IH with (s' := s'); simpl; auto; try (simpl in Hf; lia).
    + intros w1 w2 -> Hw2. specialize (Hnone (c :: w1) w2 eq_refl Hw2).
      unfold arrive in *. simpl in *. now rewrite <- app_assoc in Hnone.
    + unfold arrive in *. simpl in *. now rewrite <- app_assoc in Hk.
Qed.

Lemma run_dot_lazy k res c w st s' :
  rest st = (c :: w) ++ s' ->
  Forall (fun c => isLineTerminator c = false) (c :: w) ->
  (forall w1 w2, c :: w = w1 ++ w2 -> w1 <> [] -> w2 <> [] ->
                 k (arrive st w1 (w2 ++ s') (caps st)) = None) ->
  k (arrive st (c :: w) s' (caps st)) = Some res ->
  run (plusLazy Dot) st k = Some res.
Proof.
  intros Hr Hw Hnone Hk. unfold plusLazy. rewrite run_Rep.
  change (run Dot) with (oneChar (fun c => negb (isLineTerminator c))).
  change (groupsOf Dot) with (@nil nat).
  rewrite repeatMatcher_S.
  cbv zeta. simpl negb. cbv iota. rewrite clearCaps_nil.
  inversion Hw as [|c' w' Hc Hw']; subst c' w'.
  assert (Hf : length w < 1 + length (rest st))
    by (rewrite Hr; simpl; rewrite length_app; lia).
  remember (1 + length (rest st)) as fuel eqn:Ef. clear Ef.
  unfold oneChar at 1. rewrite Hr. cbn [app]. rewrite Hc.
  cbn [negb Nat.eqb andb Nat.pred option_map].
  apply repeat_class_lazy with (w := w) (s' := s'); auto.
  - eapply Forall_impl; [|exact Hw']. simpl. now intros a ->.
  - intros w1 w2 -> Hw2.
    specialize (Hnone (c :: w1) w2 eq_refl).
    unfold arrive in *. simpl in *. rewrite <- app_assoc in Hnone.
    apply Hnone; [discriminate | exact Hw2].
  - unfold arrive in *. simpl in *. now rewrite <- app_assoc in Hk.
Qed.

(** ** The fuel of a repetition is never used up *)

(** Two continuations that agree on the states at most [n] characters
    from the end of the input. *)
Definition agreeBelow (n : nat) (k k' : cont) : Prop :=
  forall st', length (rest st') <= n -> k st' = k' st'.

(** One round of [repeatMatcher], with [d] for the rounds after it. *)
Definition round (mr : mstate -> cont -> option mstate) (gs : list nat)
           (greedy : bool) (min : nat) (max : option nat) (st : mstate)
           (k d : cont) : option mstate :=
  match max with
  | Some O => k st
  | _ =>
    if negb (Nat.eqb min 0) then mr (clearCaps gs st) d
    else if greedy
         then orElse (mr (clearCaps gs st) d) (fun _ => k st)
         else orElse (k st) (fun _ => mr (clearCaps gs st) d)
  end.

Lemma repeatMatcher_round mr gs greedy fuel min max st k :
  repeatMatcher mr gs greedy (S fuel) min max st k
  = round mr gs greedy min max st k
          (fun st' =>
             if Nat.eqb min 0 && Nat.eqb (length (rest st')) (length (rest st))
             then None
             else repeatMatcher mr gs greedy fuel (Nat.pred min)
                                (option_map Nat.pred max) st' k).
Proof. reflexivity. Qed.

Lemma round_ext mr gs greedy min max st k k' d d' :
  k st = k' st -> mr (clearCaps gs st) d = mr (clearCaps gs st) d' ->
  round mr gs greedy min max st k d = round mr gs greedy min max st k' d'.
Proof. unfold round. now intros -> ->. Qed.

(** The matcher of an atom calls its continuation no further from the
    end of the input than where it starts. *)
Definition Inward (mr : mstate -> cont -> option mstate) : Prop :=
  forall st k k', agreeBelow (length (rest st)) k k' -> mr st k = mr st k'.

Lemma oneChar_inward p : Inward (oneChar p).
Proof.
  intros st k k'. unfold oneChar. destruct (rest st) as [|c tl]; auto.
  destruct (p c); auto. intros H. apply H. simpl. lia.
Qed.

Lemma repeatMatcher_inward mr gs greedy :
  Inward mr ->
  forall fuel min max, Inward (fun st k => repeatMatcher mr gs greedy fuel min max st k).
Proof.
  intros Hmr. induction fuel as [|fuel IH]; intros min max st k k' H;
    [reflexivity|].
  rewrite !repeatMatcher_round. apply round_ext.
  - apply H. lia.
  - apply Hmr. intros st' Hle. simpl in Hle.
    destruct (_ && _); [reflexivity|].
    apply IH. intros st'' Hle'. apply H. lia.
Qed.

Lemma run_inward r : Inward (run r).
Proof.
  induction r; intros st k k' H; simpl.
  - now apply oneChar_inward.
  - now apply oneChar_inward.
  - now apply oneChar_inward.
  - destruct (past st); [apply H; lia | reflexivity].
  - destruct (rest st) eqn:E; [apply H; rewrite E; simpl; lia | reflexivity].
  - destruct (xorb _ _); [apply H; lia | reflexivity].
  - apply H. lia.
  - apply IHr1. intros st' Hle. apply IHr2. intros st'' Hle'. apply H. lia.
  - rewrite (IHr1 st k k' H), (IHr2 st k k' H). reflexivity.
  - now apply repeatMatcher_inward.
  - apply IHr. intros st' Hle. apply H. simpl. lia.
  - destruct (run r st _); [reflexivity | apply H; lia].
Qed.

(** More fuel than [min + length (rest st)] makes no difference. *)
Lemma repeatMatcher_fuel mr gs greedy :
  Inward mr ->
  forall fuel fuel' min max st k,
    min + length (rest st) < fuel -> min + length (rest st) < fuel' ->
    repeatMatcher mr gs greedy fuel min max st k
    = repeatMatcher mr gs greedy fuel' min max st k.
Proof.
  intros Hmr. induction fuel as [|fuel IH];
    intros fuel' min max st k Hf Hf'; [lia|].
  destruct fuel' as [|fuel']; [lia|].
  rewrite !repeatMatcher_round. apply round_ext; [reflexivity|].
  apply Hmr. intros st' Hle. simpl in Hle.
  destruct (Nat.eqb min 0) eqn:E0;
    destruct (Nat.eqb (length (rest st')) (length (rest st))) eqn:E1;
    simpl; try reflexivity.
  - apply Nat.eqb_eq in E0. apply Nat.eqb_neq in E1. subst min.
    apply IH; simpl; lia.
  - apply Nat.eqb_neq in E0. apply IH; lia.
  - apply Nat.eqb_neq in E0. apply IH; lia.
Qed.

(** A repetition runs as RepeatMatcher does with any larger fuel. *)
Lemma run_Rep_fuel min max greedy r st k fuel :
  min + length (rest st) < fuel ->
  run (Rep min max greedy r) st k
  = repeatMatcher (run r) (groupsOf r) greedy fuel min max st k.
Proof.
  intros Hf. simpl. apply repeatMatcher_fuel; [apply run_inward | lia | exact Hf].
Qed.

(** ** Captures *)

Lemma clearCaps_other gs st i :
  ~ In i gs -> caps (clearCaps gs st) i = caps st i.
Proof.
  unfold clearCaps. simpl. induction gs as [|g gs IH]; simpl; [reflexivity|].
  intros H. unfold setCap at 1.
  destruct (Nat.eqb i g) eqn:E.
  - apply Nat.eqb_eq in E. subst. tauto.
  - apply IH. tauto.
Qed.

(** An expression leaves the captures of the groups outside it alone. *)
Lemma Matches_caps r :
  forall st st', Matches r st st' ->
                 forall i, ~ In i (groupsOf r) -> caps st' i = caps st i.
Proof.
  induction r; simpl; intros st st' H j Hj.
  - destruct H as (tl & _ & ->). reflexivity.
  - destruct H as (c & tl & _ & _ & ->). reflexivity.
  - destruct H as (c & tl & _ & _ & ->). reflexivity.
  - destruct H as [_ ->]. reflexivity.
  - destruct H as [_ ->]. reflexivity.
  - destruct H as [_ ->]. reflexivity.
  - now subst.
  - destruct H as (mid & H1 & H2). rewrite in_app_iff in Hj.
    rewrite (IHr2 _ _ H2), (IHr1 _ _ H1); tauto.
  - rewrite in_app_iff in Hj. destruct H as [H | H]; eauto.
  - destruct H as (n & _ & _ & H). revert st H.
    induction n as [|n IHn]; simpl; intros st H; [now subst|].
    destruct H as (mid & H1 & H2).
    rewrite (IHn _ H2), (IHr _ _ H1) by exact Hj.
    now apply clearCaps_other.
  - destruct H as (mid & H & ->). simpl. unfold setCap.
    destruct (Nat.eqb j i) eqn:E.
    + apply Nat.eqb_eq in E. subst. tauto.
    + apply (IHr _ _ H). tauto.
  - destruct H as [_ ->]. reflexivity.
Qed.

(** A group captures the word its expression matches. *)
Lemma Matches_Group_word i r st st' :
  plain r = true -> Matches (Group i r) st st' ->
  exists w, rest st = w ++ rest st' /\ lang r w /\ caps st' i = Some w
            /\ forall j, j <> i -> ~ In j (groupsOf r) ->
                         caps st' j = caps st j.
Proof.
  intros Hp (mid & H & ->). simpl.
  destruct (Matches_lang r Hp _ _ H) as (w & Hr & _ & Hw).
  exists w. repeat split; auto.
  - unfold setCap. rewrite Nat.eqb_refl. f_equal. now apply consumed_app.
  - intros j Hj Hn. unfold setCap.
    replace (Nat.eqb j i) with false by (symmetry; now apply Nat.eqb_neq).
    now apply (Matches_caps _ _ _ H).
Qed.

(** An optional group captures the word it matches, or is skipped. *)
Lemma Matches_opt_group i r st st' :
  plain r = true -> Matches (opt (Group i r)) st st' ->
  exists w, rest st = w ++ rest st'
            /\ ((w = [] /\ caps st' i = caps st i)
                \/ (lang r w /\ caps st' i = Some w))
            /\ forall j, j <> i -> ~ In j (groupsOf r) ->
                         caps st' j = caps st j.
Proof.
  intros Hp (n & _ & Hn & H). simpl in Hn.
  destruct n as [|[|n]]; [| |lia]; simpl in H.
  - subst. exists []. auto.
  - destruct H as (mid & H & ->).
    apply (Matches_Group_word Hp) in H.
    destruct H as (w & Hr & Hw & Hc & Ho).
    exists w. repeat split; auto.
    intros j Hj Hn'. rewrite (Ho j Hj Hn').
    apply clearCaps_other. simpl. intuition congruence.
Qed.

(** An expression without groups or assertions matches a word of its
    language and leaves every capture alone. *)
Lemma Matches_plain_word r st st' :
  plain r = true -> groupsOf r = [] -> Matches r st st' ->
  exists w, rest st = w ++ rest st' /\ lang r w
            /\ forall j, caps st' j = caps st j.
Proof.
  intros Hp Hg H.
  destruct (Matches_lang r Hp _ _ H) as (w & Hr & _ & Hw).
  exists w. repeat split; auto.
  intros j. apply (Matches_caps _ _ _ H). rewrite Hg. tauto.
Qed.

End RegexFacts.

(* ================================================================== *)
(** * Replacing, trimming and normalizing *)
(* ================================================================== *)

Module StrFacts.

Import RegexFacts Parse.

Lemma span_app (p : char -> bool) a b :
  Forall (fun c => p c = true) a -> stopsAt p b -> span p (a ++ b) = (a, b).
Proof.
  intros Ha Hb. induction Ha as [|c a Hc _ IH]; simpl.
  - destruct b as [|c b]; simpl in *; [reflexivity | now rewrite Hb].
  - now rewrite Hc, IH.
Qed.

Lemma span_spec (p : char -> bool) s a b :
  span p s = (a, b) ->
  s = a ++ b /\ Forall (fun c => p c = true) a /\ stopsAt p b.
Proof.
  revert a b. induction s as [|c s IH]; simpl; intros a b H.
  - inversion H. subst. simpl. auto.
  - destruct (p c) eqn:E.
    + destruct (span p s) as [a' b']. inversion H. subst.
      destruct (IH a' b eq_refl) as (-> & Ha & Hb). auto.
    + inversion H. subst. simpl. auto.
Qed.

(** The longest run of [p] at the head of a text is unique. *)
Lemma prefix_unique (p : char -> bool) a b x y :
  a ++ x = b ++ y ->
  Forall (fun c => p c = true) a -> Forall (fun c => p c = true) b ->
  stopsAt p x -> stopsAt p y -> a = b /\ x = y.
Proof.
  intros E Ha Hb Hx Hy.
  pose proof (@span_app p a x Ha Hx) as H1.
  pose proof (@span_app p b y Hb Hy) as H2.
  rewrite E in H1. rewrite H1 in H2. inversion H2. auto.
Qed.

Lemma app_eq_length {A : Type} (a b x y : list A) :
  a ++ x = b ++ y -> length a = length b -> a = b /\ x = y.
Proof.
  revert b. induction a as [|c a IH]; intros [|d b]; simpl; try discriminate.
  - auto.
  - intros E L. inversion E. subst.
    destruct (IH b H1) as [-> ->]; auto.
Qed.

(** ** [replace] with a one-character expression *)

Lemma replaceFrom_oneChar r (p : char -> bool) by_ :
  (forall st k, run r st k = oneChar p st k) ->
  forall s fuel before,
    length s < fuel ->
    replaceFrom r by_ fuel before s
    = flat_map (fun c => if p c then by_ else [c]) s.
Proof.
  intros Hr. induction s as [|c s IH]; intros fuel before Hf;
    (destruct fuel as [|fuel]; [simpl in Hf; lia|]); simpl.
  - unfold matchAt. now rewrite Hr.
  - unfold matchAt. rewrite Hr. unfold oneChar. simpl.
    destruct (p c); simpl.
    + replace (Nat.eqb (length s) (S (length s))) with false
        by (symmetry; apply Nat.eqb_neq; lia).
      f_equal. apply IH. simpl in Hf. lia.
    + f_equal. apply IH. simpl in Hf. lia.
Qed.

Lemma replaceAll_Cls items by_ s :
  replaceAll (Cls items) by_ s
  = flat_map (fun c => if inClass items c then by_ else [c]) s.
Proof. apply replaceFrom_oneChar; [reflexivity | lia]. Qed.

Lemma replaceAll_Chr c by_ s :
  replaceAll (Chr c) by_ s
  = flat_map (fun d => if N.eqb c d then by_ else [d]) s.
Proof. apply replaceFrom_oneChar; [reflexivity | lia]. Qed.

Lemma flat_map_none (p : char -> bool) by_ s :
  forallb (fun c => negb (p c)) s = true ->
  flat_map (fun c => if p c then by_ else [c]) s = s.
Proof.
  induction s as [|c s IH]; simpl; [reflexivity|].
  rewrite andb_true_iff, negb_true_iff. intros [-> H]. simpl. now rewrite IH.
Qed.

Lemma flat_map_delete (p : char -> bool) s :
  flat_map (fun c => if p c then [] else [c]) s
  = filter (fun c => negb (p c)) s.
Proof.
  induction s as [|c s IH]; simpl; [reflexivity|].
  destruct (p c); simpl; now rewrite IH.
Qed.

(** ** Texts that [normalize] leaves as they are *)

Definition space : char := ch " ".

Definition startsWithSpace (s : str) : bool :=
  match s with c :: _ => N.eqb space c | [] => false end.

(** No tab, no non-breaking space, and no two spaces in a row. *)
Fixpoint tidy (s : str) : bool :=
  match s with
  | [] => true
  | c :: tl =>
    negb (N.eqb tab c) && negb (N.eqb nbsp c)
    && negb (N.eqb space c && startsWithSpace tl) && tidy tl
  end.

Lemma tidy_cons c s :
  tidy (c :: s) = true ->
  N.eqb tab c = false /\ N.eqb nbsp c = false
  /\ (N.eqb space c && startsWithSpace s) = false /\ tidy s = true.
Proof.
  cbn [tidy]. rewrite !andb_true_iff, !negb_true_iff. tauto.
Qed.

Lemma tidy_no_nbsp s :
  tidy s = true -> forallb (fun c => negb (N.eqb nbsp c)) s = true.
Proof.
  induction s as [|c s IH]; [reflexivity|].
  intros H. apply tidy_cons in H. destruct H as (_ & H & _ & Ht).
  cbn [forallb]. now rewrite H, IH.
Qed.

Lemma blank_class c :
  inClass [IChar (ch " "); IChar tab] c = N.eqb space c || N.eqb tab c.
Proof.
  unfold inClass. cbn [existsb inItem]. rewrite orb_false_r.
  now rewrite (N.eqb_sym c), (N.eqb_sym c tab).
Qed.

Lemma replaceFrom_blanks :
  forall s fuel before,
    length s < fuel -> tidy s = true ->
    replaceFrom rxBlanks (lit " ") fuel before s = s.
Proof.
  unfold rxBlanks, plus.
  induction s as [|c s IH]; intros fuel before Hf Ht;
    (destruct fuel as [|fuel]; [simpl in Hf; lia|]).
  - cbn [replaceFrom]. unfold matchAt.
    rewrite run_class_none; [reflexivity | lia | discriminate | exact I].
  - apply tidy_cons in Ht. destruct Ht as (Htab & _ & Hsp & Ht).
    assert (Hrec : replaceFrom (Rep 1 None true (Cls [IChar (ch " "); IChar tab]))
                               (lit " ") fuel (c :: before) s = s)
      by (apply IH; [simpl in Hf; lia | exact Ht]).
    cbn [replaceFrom]. unfold matchAt.
    destruct (N.eqb space c) eqn:Ec.
    + apply N.eqb_eq in Ec. subst c. cbn [andb] in Hsp.
      erewrite run_class_greedy with (w := [space]) (s' := s);
        [| reflexivity | repeat constructor | simpl; lia | exact I
         | right | reflexivity].
      * cbn [after arrive rest past rev app].
        replace (Nat.eqb (length s) (length (space :: s))) with false
          by (symmetry; apply Nat.eqb_neq; simpl; lia).
        change (lit " ") with [space]. cbn [app]. f_equal. exact Hrec.
      * destruct s as [|d s]; [exact I|].
        apply tidy_cons in Ht. destruct Ht as (Hd & _).
        cbn [startsWithSpace] in Hsp.
        cbn [stopsAt]. now rewrite blank_class, Hsp, Hd.
    + rewrite run_class_none;
        [now rewrite Hrec | lia | discriminate
         | cbn [stopsAt rest]; now rewrite blank_class, Ec, Htab].
Qed.

Lemma trimStart_id c s : isWhiteSpace c = false -> trimStart (c :: s) = c :: s.
Proof. intros H. simpl. now rewrite H. Qed.

Lemma trim_id c s pre y :
  c :: s = pre ++ [y] -> isWhiteSpace c = false -> isWhiteSpace y = false ->
  trim (c :: s) = c :: s.
Proof.
  intros E Hc Hy. unfold trim. rewrite trimStart_id by exact Hc.
  unfold trimEnd. rewrite E, rev_app_distr. simpl. rewrite Hy. simpl.
  now rewrite rev_involutive.
Qed.

Lemma normalize_id c s pre y :
  c :: s = pre ++ [y] -> isWhiteSpace c = false -> isWhiteSpace y = false ->
  tidy (c :: s) = true ->
  normalize (c :: s) = c :: s.
Proof.
  intros E Hc Hy Ht. unfold normalize, rxNbsp.
  rewrite replaceAll_Chr, flat_map_none by now apply tidy_no_nbsp.
  unfold replaceAll. rewrite replaceFrom_blanks by (auto; lia).
  eapply trim_id; eauto.
Qed.

End StrFacts.

(* ================================================================== *)
(** * The grammar of a row *)
(* ================================================================== *)

Module RowFacts.

Import RegexFacts StrFacts Parse.

(** ** The fields of the grammar *)

Definition isUpper (c : char) : bool := ((ch "A" <=? c) && (c <=? ch "Z"))%N.
Definition isAmountChar (c : char) : bool := isDigit c || N.eqb c (ch ",").
Definition notTerminator (c : char) : bool := negb (isLineTerminator c).

(** [\d{n,}] *)
Definition isDigitsFrom (n : nat) (w : str) : bool :=
  (n <=? length w) && forallb isDigit w.

(** [\s+] and [\s*] *)
Definition isGap (w : str) : bool := (1 <=? length w) && forallb isWhiteSpace w.
Definition isGap0 (w : str) : bool := forallb isWhiteSpace w.

(** [\d{3}-\d{3}-\d{3}] *)
Definition isSin (w : str) : bool :=
  match w with
  | [a; b; c; h1; d; e; f; h2; g; h; i] =>
    forallb isDigit [a; b; c; d; e; f; g; h; i]
    && N.eqb h1 (ch "-") && N.eqb h2 (ch "-")
  | _ => false
  end.

(** [[A-Z]{2}] *)
Definition isGov (w : str) : bool :=
  match w with
  | [a; b] => isUpper a && isUpper b
  | _ => false
  end.

(** [.+?] *)
Definition isNameText (w : str) : bool :=
  (1 <=? length w) && forallb notTerminator w.

(** [\d{2}\/\d{2}\/\d{2}] *)
Definition isDate (w : str) : bool :=
  match w with
  | [a; b; s1; c; d; s2; e; f] =>
    forallb isDigit [a; b; c; d; e; f]
    && N.eqb s1 (ch "/") && N.eqb s2 (ch "/")
  | _ => false
  end.

(** [[$]?[\d,]+\.\d{2}] *)
Definition isAmount (w : str) : bool :=
  let body :=
    match w with
    | c :: tl => if N.eqb c (ch "$") then tl else w
    | [] => []
    end in
  let (m, r) := span isAmountChar body in
  (1 <=? length m)
  && match r with
     | [dot; x; y] => N.eqb dot (ch ".") && isDigit x && isDigit y
     | _ => false
     end.

(** ** The expressions of the fields and their languages *)

Definition rxStudentNo : regex := atLeast 3 digit.
Definition rxSin : regex :=
  seq [exactly 3 digit; Chr (ch "-"); exactly 3 digit; Chr (ch "-");
       exactly 3 digit].
Definition rxGov : regex := exactly 2 (Cls [IRange (ch "A") (ch "Z")]).
Definition rxCert : regex := atLeast 4 digit.
Definition rxName : regex := plusLazy Dot.
Definition rxDate : regex :=
  seq [exactly 2 digit; Chr (ch "/"); exactly 2 digit; Chr (ch "/");
       exactly 2 digit].
Definition rxAmountText : regex :=
  seq [opt (Cls [IChar (ch "$")]); plus (Cls [IDigit; IChar (ch ",")]);
       Chr (ch "."); exactly 2 digit].

(** The expression of [parseRow] between its [^] and its [$]. *)
Definition rowBody : list regex :=
  [ Group 1 rxStudentNo; plus Regex.space; Group 2 rxSin; plus Regex.space;
    opt (Group 3 rxGov); star Regex.space; Group 4 rxCert; plus Regex.space;
    Group 5 rxName; plus Regex.space; Group 6 rxDate; plus Regex.space;
    Group 7 rxAmountText ].

Lemma rxRow_body : rxRow = seq ([Bol] ++ rowBody ++ [Eol]).
Proof. reflexivity. Qed.

Lemma forallb_Forall {A : Type} (p : A -> bool) l :
  forallb p l = true <-> Forall (fun c => p c = true) l.
Proof.
  rewrite forallb_forall, Forall_forall. tauto.
Qed.

Lemma concat_singletons (w : str) : concat (map (fun c => [c]) w) = w.
Proof. induction w as [|c w IH]; simpl; congruence. Qed.

(** A quantified one-character expression matches the runs of its
    characters whose length is within the bounds. *)
Lemma lang_rep_one (p : char -> bool) r min max g :
  (forall w, lang r w <-> exists c, w = [c] /\ p c = true) ->
  forall w,
    lang (Rep min max g r) w
    <-> min <= length w /\ withinMax max (length w) /\ forallb p w = true.
Proof.
  intros Hr w. cbn [lang]. split.
  - intros (ws & -> & Hmin & Hmax & Hall).
    assert (H : length (concat ws) = length ws /\ forallb p (concat ws) = true).
    { clear Hmin Hmax. induction Hall as [|x ws Hx _ [IH1 IH2]]; simpl; auto.
      apply Hr in Hx. destruct Hx as (c & -> & Hc). simpl.
      rewrite Hc, IH1, IH2. auto. }
    destruct H as [-> ->]. auto.
  - intros (Hmin & Hmax & Hall). exists (map (fun c => [c]) w).
    rewrite concat_singletons, length_map. repeat split; auto.
    apply forallb_Forall in Hall. apply Forall_map.
    eapply Forall_impl; [|exact Hall]. intros c Hc. apply Hr. eauto.
Qed.

Lemma lang_Cls_one items w :
  lang (Cls items) w <-> exists c, w = [c] /\ inClass items c = true.
Proof. reflexivity. Qed.

Lemma lang_Dot_one w :
  lang Dot w <-> exists c, w = [c] /\ notTerminator c = true.
Proof.
  cbn [lang]. unfold notTerminator.
  split; intros (c & -> & H); exists c; split; auto.
  - now rewrite H.
  - now apply negb_true_iff.
Qed.

Lemma inClass_digit c : inClass [IDigit] c = isDigit c.
Proof. unfold inClass. simpl. apply orb_false_r. Qed.

Lemma inClass_space c : inClass [ISpace] c = isWhiteSpace c.
Proof. unfold inClass. simpl. apply orb_false_r. Qed.

Lemma inClass_upper c : inClass [IRange (ch "A") (ch "Z")] c = isUpper c.
Proof. unfold inClass. simpl. apply orb_false_r. Qed.

Lemma inClass_amount c : inClass [IDigit; IChar (ch ",")] c = isAmountChar c.
Proof.
  unfold inClass, isAmountChar. cbn [existsb inItem]. now rewrite orb_false_r.
Qed.

Lemma inClass_dollar c : inClass [IChar (ch "$")] c = N.eqb c (ch "$").
Proof. unfold inClass. cbn [existsb inItem]. apply orb_false_r. Qed.

Lemma forallb_ext' {A : Type} (p q : A -> bool) l :
  (forall x, p x = q x) -> forallb p l = forallb q l.
Proof. intros H. induction l; simpl; congruence. Qed.

Lemma lang_digits n g max w :
  lang (Rep n max g digit) w
  <-> n <= length w /\ withinMax max (length w) /\ forallb isDigit w = true.
Proof.
  unfold digit.
  rewrite (@lang_rep_one (inClass [IDigit]) (Cls [IDigit]) n max g
                         (lang_Cls_one [IDigit])).
  now rewrite (forallb_ext' _ _ w inClass_digit).
Qed.

Lemma lang_studentNo n w :
  lang (atLeast n digit) w <-> isDigitsFrom n w = true.
Proof.
  unfold atLeast, isDigitsFrom. rewrite lang_digits, andb_true_iff, Nat.leb_le.
  simpl. tauto.
Qed.

Lemma lang_gap w : lang (plus Regex.space) w <-> isGap w = true.
Proof.
  unfold plus, Regex.space, isGap.
  rewrite (@lang_rep_one (inClass [ISpace]) (Cls [ISpace]) 1 None true
                         (lang_Cls_one [ISpace])).
  rewrite (forallb_ext' _ _ w inClass_space), andb_true_iff, Nat.leb_le.
  simpl. tauto.
Qed.

Lemma lang_gap0 w : lang (star Regex.space) w <-> isGap0 w = true.
Proof.
  unfold star, Regex.space, isGap0.
  rewrite (@lang_rep_one (inClass [ISpace]) (Cls [ISpace]) 0 None true
                         (lang_Cls_one [ISpace])).
  rewrite (forallb_ext' _ _ w inClass_space). simpl.
  split; [tauto|]. intros H. repeat split; auto. lia.
Qed.

Lemma lang_name w : lang rxName w <-> isNameText w = true.
Proof.
  unfold rxName, plusLazy, isNameText.
  rewrite (@lang_rep_one notTerminator Dot 1 None false lang_Dot_one).
  rewrite andb_true_iff, Nat.leb_le. simpl. tauto.
Qed.

Lemma lang_exactly n w :
  lang (exactly n digit) w <-> length w = n /\ forallb isDigit w = true.
Proof.
  unfold exactly. rewrite lang_digits. simpl. split.
  - intros (H1 & H2 & H3). split; [lia | exact H3].
  - intros (H1 & H2). repeat split; auto; lia.
Qed.

Lemma lang_gov w : lang rxGov w <-> isGov w = true.
Proof.
  unfold rxGov, exactly, isGov.
  assert (H : forall x, lang (Cls [IRange (ch "A") (ch "Z")]) x
                        <-> exists c, x = [c] /\ isUpper c = true).
  { intros x. rewrite lang_Cls_one.
    split; intros (c & -> & H); exists c; split; auto;
      now rewrite inClass_upper in *. }
  rewrite (@lang_rep_one isUpper _ 2 (Some 2) true H).
  simpl. split.
  - intros (H1 & H2 & H3).
    destruct w as [|a [|b [|c w]]]; simpl in *; try lia.
    now rewrite andb_true_r in H3.
  - destruct w as [|a [|b [|c w]]]; try discriminate.
    intros H'. simpl. rewrite andb_true_r. repeat split; auto.
Qed.

Lemma exactly_2 w :
  lang (exactly 2 digit) w
  <-> exists a b, w = [a; b] /\ isDigit a = true /\ isDigit b = true.
Proof.
  rewrite lang_exactly. split.
  - intros [Hl Hd]. destruct w as [|a [|b [|c w]]]; try discriminate.
    simpl in Hd. rewrite andb_true_r, andb_true_iff in Hd. exists a, b. tauto.
  - intros (a & b & -> & Ha & Hb). simpl. now rewrite Ha, Hb.
Qed.

Lemma exactly_3 w :
  lang (exactly 3 digit) w
  <-> exists a b c, w = [a; b; c] /\ isDigit a = true /\ isDigit b = true
                    /\ isDigit c = true.
Proof.
  rewrite lang_exactly. split.
  - intros [Hl Hd]. destruct w as [|a [|b [|c [|d w]]]]; try discriminate.
    simpl in Hd. rewrite andb_true_r, !andb_true_iff in Hd.
    exists a, b, c. tauto.
  - intros (a & b & c & -> & Ha & Hb & Hc). simpl. now rewrite Ha, Hb, Hc.
Qed.

Lemma lang_sin w : lang rxSin w <-> isSin w = true.
Proof.
  unfold rxSin. cbn [seq]. split.
  - intros (w1 & r1 & -> & H1 & w2 & r2 & -> & H2 & w3 & r3 & -> & H3
            & w4 & w5 & -> & H4 & H5).
    apply exactly_3 in H1, H3, H5. cbn [lang] in H2, H4. subst w2 w4.
    destruct H1 as (a & b & c & -> & Ha & Hb & Hc).
    destruct H3 as (d & e & f & -> & Hd & He & Hf).
    destruct H5 as (g & h & i & -> & Hg & Hh & Hi).
    simpl. now rewrite Ha, Hb, Hc, Hd, He, Hf, Hg, Hh, Hi.
  - unfold isSin.
    destruct w as [|a [|b [|c [|h1 [|d [|e [|f [|h2 [|g [|h [|i [|j w]]]]]]]]]]]];
      try discriminate.
    unfold forallb. rewrite !andb_true_iff, !N.eqb_eq.
    intros [[(Ha & Hb & Hc & Hd & He & Hf & Hg & Hh & Hi & _) ->] ->].
    exists [a; b; c], [ch "-"; d; e; f; ch "-"; g; h; i].
    split; [reflexivity|]. split; [apply exactly_3; eauto 8|].
    exists [ch "-"], [d; e; f; ch "-"; g; h; i].
    split; [reflexivity|]. split; [reflexivity|].
    exists [d; e; f], [ch "-"; g; h; i].
    split; [reflexivity|]. split; [apply exactly_3; eauto 8|].
    exists [ch "-"], [g; h; i].
    split; [reflexivity|]. split; [reflexivity|]. apply exactly_3; eauto 8.
Qed.

Lemma lang_date w : lang rxDate w <-> isDate w = true.
Proof.
  unfold rxDate. cbn [seq]. split.
  - intros (w1 & r1 & -> & H1 & w2 & r2 & -> & H2 & w3 & r3 & -> & H3
            & w4 & w5 & -> & H4 & H5).
    apply exactly_2 in H1, H3, H5. cbn [lang] in H2, H4. subst w2 w4.
    destruct H1 as (a & b & -> & Ha & Hb).
    destruct H3 as (c & d & -> & Hc & Hd).
    destruct H5 as (e & f & -> & He & Hf).
    simpl. now rewrite Ha, Hb, Hc, Hd, He, Hf.
  - unfold isDate.
    destruct w as [|a [|b [|s1 [|c [|d [|s2 [|e [|f [|g w]]]]]]]]];
      try discriminate.
    unfold forallb. rewrite !andb_true_iff, !N.eqb_eq.
    intros [[(Ha & Hb & Hc & Hd & He & Hf & _) ->] ->].
    exists [a; b], [ch "/"; c; d; ch "/"; e; f].
    split; [reflexivity|]. split; [apply exactly_2; eauto 8|].
    exists [ch "/"], [c; d; ch "/"; e; f].
    split; [reflexivity|]. split; [reflexivity|].
    exists [c; d], [ch "/"; e; f].
    split; [reflexivity|]. split; [apply exactly_2; eauto 8|].
    exists [ch "/"], [e; f].
    split; [reflexivity|]. split; [reflexivity|]. apply exactly_2; eauto 8.
Qed.

Lemma lang_dollar_opt w :
  lang (opt (Cls [IChar (ch "$")])) w <-> w = [] \/ w = [ch "$"].
Proof.
  unfold opt.
  rewrite (@lang_rep_one (inClass [IChar (ch "$")]) _ 0 (Some 1) true
                         (lang_Cls_one [IChar (ch "$")])).
  simpl. split.
  - intros (_ & Hl & Hd). destruct w as [|c [|d w]]; simpl in *; auto; [|lia].
    rewrite andb_true_r, orb_false_r in Hd. apply N.eqb_eq in Hd.
    subst. now right.
  - intros [-> | ->]; simpl; repeat split; auto; lia.
Qed.

Lemma lang_amount_run w :
  lang (plus (Cls [IDigit; IChar (ch ",")])) w
  <-> 1 <= length w /\ forallb isAmountChar w = true.
Proof.
  unfold plus.
  rewrite (@lang_rep_one (inClass [IDigit; IChar (ch ",")]) _ 1 None true
                         (lang_Cls_one [IDigit; IChar (ch ",")])).
  rewrite (forallb_ext' _ _ w inClass_amount). simpl. tauto.
Qed.

(** The parts of an amount: [$] or nothing, a run of digits and commas,
    and two decimals. *)
Lemma lang_amount_parts w :
  lang rxAmountText w
  <-> exists d m x y,
      w = d ++ m ++ [ch "."; x; y]
      /\ (d = [] \/ d = [ch "$"])
      /\ 1 <= length m /\ forallb isAmountChar m = true
      /\ isDigit x = true /\ isDigit y = true.
Proof.
  unfold rxAmountText. cbn [seq]. split.
  - intros (d & r1 & -> & H1 & m & r2 & -> & H2 & w3 & w4 & -> & H3 & H4).
    apply lang_dollar_opt in H1. apply lang_amount_run in H2.
    cbn [lang] in H3. subst w3. apply exactly_2 in H4.
    destruct H4 as (x & y & -> & Hx & Hy). destruct H2 as [Hl Hm].
    exists d, m, x, y. auto 8.
  - intros (d & m & x & y & -> & Hd & Hl & Hm & Hx & Hy).
    exists d, (m ++ [ch "."; x; y]). split; [reflexivity|].
    split; [now apply lang_dollar_opt|].
    exists m, [ch "."; x; y]. split; [reflexivity|].
    split; [now apply lang_amount_run|].
    exists [ch "."], [x; y]. split; [reflexivity|]. split; [reflexivity|].
    apply exactly_2. eauto.
Qed.

Lemma amount_parts_check d m x y :
  (d = [] \/ d = [ch "$"]) ->
  1 <= length m -> forallb isAmountChar m = true ->
  isDigit x = true -> isDigit y = true ->
  isAmount (d ++ m ++ [ch "."; x; y]) = true.
Proof.
  intros Hd Hl Hm Hx Hy. unfold isAmount.
  assert (Hbody :
            match d ++ m ++ [ch "."; x; y] with
            | c :: tl =>
              if N.eqb c (ch "$") then tl else d ++ m ++ [ch "."; x; y]
            | [] => []
            end = m ++ [ch "."; x; y]).
  { destruct Hd as [-> | ->]; [|reflexivity].
    destruct m as [|c m]; [simpl in Hl; lia|]. cbn [app].
    simpl in Hm. apply andb_true_iff in Hm. destruct Hm as [Hc _].
    destruct (N.eqb c (ch "$")) eqn:E; [|reflexivity].
    apply N.eqb_eq in E. subst c. discriminate. }
  rewrite Hbody.
  rewrite span_app; [| now apply forallb_Forall | reflexivity].
  rewrite Hx, Hy. apply Nat.leb_le in Hl. now rewrite Hl.
Qed.

Lemma amount_check_parts w :
  isAmount w = true ->
  exists d m x y,
    w = d ++ m ++ [ch "."; x; y]
    /\ (d = [] \/ d = [ch "$"])
    /\ 1 <= length m /\ forallb isAmountChar m = true
    /\ isDigit x = true /\ isDigit y = true.
Proof.
  unfold isAmount.
  set (body := match w with
               | c :: tl => if N.eqb c (ch "$") then tl else w
               | [] => []
               end).
  destruct (span isAmountChar body) as [m r] eqn:E. intros H.
  apply span_spec in E. destruct E as (Hb & Hm & _).
  apply andb_true_iff in H. destruct H as [Hl H].
  destruct r as [|dot [|x [|y [|z r]]]]; try discriminate.
  rewrite !andb_true_iff, N.eqb_eq in H. destruct H as [[-> Hx] Hy].
  assert (Hw : exists d, w = d ++ body /\ (d = [] \/ d = [ch "$"])).
  { unfold body. destruct w as [|c tl]; [exists []; auto|].
    destruct (N.eqb c (ch "$")) eqn:E.
    - apply N.eqb_eq in E. subst c. exists [ch "$"]. auto.
    - exists []. auto. }
  destruct Hw as (d & Hw & Hd). exists d, m, x, y. rewrite <- Hb.
  repeat split; auto.
  - now apply Nat.leb_le.
  - now apply forallb_Forall.
Qed.

Lemma lang_amount w : lang rxAmountText w <-> isAmount w = true.
Proof.
  rewrite lang_amount_parts. split.
  - intros (d & m & x & y & -> & Hd & Hl & Hm & Hx & Hy).
    now apply amount_parts_check.
  - apply amount_check_parts.
Qed.

(** ** Lines of the grammar *)

(** The parts of a line: the seven fields and the white space between
    them. *)
Record Parts : Type := mkParts {
  p_studentNo : str;
  p_gap1 : str;
  p_sin : str;
  p_gap2 : str;
  p_gov : option str;
  p_gap3 : str;
  p_cert : str;
  p_gap4 : str;
  p_name : str;
  p_gap5 : str;
  p_eosDate : str;
  p_gap6 : str;
  p_amount : str
}.

Definition govText (g : option str) : str :=
  match g with Some w => w | None => [] end.

Definition text (d : Parts) : str :=
  p_studentNo d ++ p_gap1 d ++ p_sin d ++ p_gap2 d ++ govText (p_gov d)
    ++ p_gap3 d ++ p_cert d ++ p_gap4 d ++ p_name d ++ p_gap5 d
    ++ p_eosDate d ++ p_gap6 d ++ p_amount d.

Definition wellFormed (d : Parts) : bool :=
  isDigitsFrom 3 (p_studentNo d) && isGap (p_gap1 d)
  && isSin (p_sin d) && isGap (p_gap2 d)
  && match p_gov d with Some g => isGov g | None => true end
  && isGap0 (p_gap3 d)
  && isDigitsFrom 4 (p_cert d) && isGap (p_gap4 d)
  && isNameText (p_name d) && isGap (p_gap5 d)
  && isDate (p_eosDate d) && isGap (p_gap6 d)
  && isAmount (p_amount d).

(** The line is, from its first to its last character, a row of the
    grammar. *)
Definition RowGrammar (l : str) : Prop :=
  exists d, wellFormed d = true /\ text d = l.

(** The row read off the parts of a line. *)
Definition rowOf (d : Parts) : ParsedRow :=
  mkRow (Some (p_studentNo d)) (Some (p_sin d)) (p_gov d) (Some (p_cert d))
        (Some (p_name d)) (Some (p_eosDate d)) (VString (p_amount d)) [].

Lemma wellFormed_parts d :
  wellFormed d = true ->
  isDigitsFrom 3 (p_studentNo d) = true /\ isGap (p_gap1 d) = true
  /\ isSin (p_sin d) = true /\ isGap (p_gap2 d) = true
  /\ match p_gov d with Some g => isGov g | None => true end = true
  /\ isGap0 (p_gap3 d) = true
  /\ isDigitsFrom 4 (p_cert d) = true /\ isGap (p_gap4 d) = true
  /\ isNameText (p_name d) = true /\ isGap (p_gap5 d) = true
  /\ isDate (p_eosDate d) = true /\ isGap (p_gap6 d) = true
  /\ isAmount (p_amount d) = true.
Proof.
  unfold wellFormed. rewrite !andb_true_iff. tauto.
Qed.

Lemma lang_opt r w : lang (opt r) w <-> w = [] \/ lang r w.
Proof.
  unfold opt. cbn [lang]. split.
  - intros (ws & -> & _ & Hl & Hall). simpl in Hl.
    destruct ws as [|x [|y ws]]; simpl in *; [auto | | lia].
    inversion Hall. subst. rewrite app_nil_r. auto.
  - intros [-> | H].
    + exists []. simpl. repeat split; auto.
    + exists [w]. simpl. rewrite app_nil_r. repeat split; auto.
Qed.

(** ** The matcher against the grammar *)

(** What a match of the expression of [parseRow] has captured. *)
Lemma row_match_parts l st' :
  run rxRow (MState [] l noCaps) (fun st => Some st) = Some st' ->
  exists d,
    wellFormed d = true /\ text d = l
    /\ caps st' 1 = Some (p_studentNo d) /\ caps st' 2 = Some (p_sin d)
    /\ caps st' 3 = p_gov d /\ caps st' 4 = Some (p_cert d)
    /\ caps st' 5 = Some (p_name d) /\ caps st' 6 = Some (p_eosDate d)
    /\ caps st' 7 = Some (p_amount d).
Proof.
  intros H. apply run_sound in H. destruct H as (st'' & H & E).
  inversion E. subst st''. clear E.
  unfold rxRow in H. cbn [seq] in H.
  destruct H as (s0 & [_ ->] & s1 & H1 & s2 & H2 & s3 & H3 & s4 & H4
                 & s5 & H5 & s6 & H6 & s7 & H7 & s8 & H8 & s9 & H9
                 & s10 & H10 & s11 & H11 & s12 & H12 & s13 & H13 & He).
  destruct He as [He ->].
  apply Matches_Group_word in H1; [|reflexivity].
  destruct H1 as (w1 & R1 & L1 & C1 & O1).
  apply Matches_plain_word in H2; [|reflexivity|reflexivity].
  destruct H2 as (g1 & R2 & L2 & O2).
  apply Matches_Group_word in H3; [|reflexivity].
  destruct H3 as (w2 & R3 & L3 & C3 & O3).
  apply Matches_plain_word in H4; [|reflexivity|reflexivity].
  destruct H4 as (g2 & R4 & L4 & O4).
  apply Matches_opt_group in H5; [|reflexivity].
  destruct H5 as (w3 & R5 & L5 & O5).
  apply Matches_plain_word in H6; [|reflexivity|reflexivity].
  destruct H6 as (g3 & R6 & L6 & O6).
  apply Matches_Group_word in H7; [|reflexivity].
  destruct H7 as (w4 & R7 & L7 & C7 & O7).
  apply Matches_plain_word in H8; [|reflexivity|reflexivity].
  destruct H8 as (g4 & R8 & L8 & O8).
  apply Matches_Group_word in H9; [|reflexivity].
  destruct H9 as (w5 & R9 & L9 & C9 & O9).
  apply Matches_plain_word in H10; [|reflexivity|reflexivity].
  destruct H10 as (g5 & R10 & L10 & O10).
  apply Matches_Group_word in H11; [|reflexivity].
  destruct H11 as (w6 & R11 & L11 & C11 & O11).
  apply Matches_plain_word in H12; [|reflexivity|reflexivity].
  destruct H12 as (g6 & R12 & L12 & O12).
  apply Matches_Group_word in H13; [|reflexivity].
  destruct H13 as (w7 & R13 & L13 & C13 & O13).
  simpl in R1.
  assert (Hgov : exists g, govText g = w3 /\ caps s5 3 = g
                           /\ match g with Some x => isGov x | None => true end
                              = true).
  { destruct L5 as [[-> Hc] | [Hw Hc]].
    - exists None. repeat split; auto.
      rewrite Hc, O4, O3, O2, O1; simpl; auto; try lia.
    - exists (Some w3). repeat split; auto. now apply lang_gov. }
  destruct Hgov as (g & Hg1 & Hg2 & Hg3).
  exists (mkParts w1 g1 w2 g2 g g3 w4 g4 w5 g5 w6 g6 w7).
  split; [|split].
  - unfold wellFormed. simpl.
    apply lang_studentNo in L1, L7. apply lang_gap in L2, L4, L8, L10, L12.
    apply lang_sin in L3. apply lang_gap0 in L6. apply lang_name in L9.
    apply lang_date in L11. apply lang_amount in L13.
    now rewrite L1, L2, L3, L4, Hg3, L6, L7, L8, L9, L10, L11, L12, L13.
  - unfold text. simpl. rewrite Hg1, R1, R2, R3, R4, R5, R6, R7, R8, R9, R10,
                          R11, R12, R13, He, app_nil_r.
    reflexivity.
  - simpl.
    repeat split.
    + rewrite O13, O12, O11, O10, O9, O8, O7, O6 by (simpl; lia || tauto).
      rewrite (O5 1), O4, O3, O2 by (simpl; lia || tauto). exact C1.
    + rewrite O13, O12, O11, O10, O9, O8, O7, O6 by (simpl; lia || tauto).
      rewrite (O5 2), O4 by (simpl; lia || tauto). exact C3.
    + rewrite O13, O12, O11, O10, O9, O8, O7, O6 by (simpl; lia || tauto).
      exact Hg2.
    + rewrite O13, O12, O11, O10, O9, O8 by (simpl; lia || tauto). exact C7.
    + rewrite O13, O12, O11, O10 by (simpl; lia || tauto). exact C9.
    + rewrite O13, O12 by (simpl; lia || tauto). exact C11.
    + exact C13.
Qed.

(** The expression of [parseRow] only matches at the start of the
    line. *)
Lemma search_rxRow_later c before s :
  search rxRow (c :: before) s = None.
Proof.
  revert c before. induction s as [|x s IH]; intros c before.
  - reflexivity.
  - cbn [search]. unfold matchAt.
    replace (run rxRow (MState (c :: before) (x :: s) noCaps)
                 (fun st' => Some st')) with (@None mstate) by reflexivity.
    apply IH.
Qed.

Lemma exec_rxRow l :
  exec rxRow l = matchAt rxRow [] l.
Proof.
  unfold exec. destruct l as [|c l]; cbn [search].
  - destruct (matchAt rxRow [] []); reflexivity.
  - destruct (matchAt rxRow [] (c :: l)); [reflexivity|].
    apply search_rxRow_later.
Qed.

(** A plain sequence followed by [$] matches every text of its
    language. *)
Lemma complete_then_eol :
  forall xs, forallb plain xs = true ->
  forall w st, lang (seq xs) w -> rest st = w ->
               run (seq (xs ++ [Eol])) st (fun st' => Some st') <> None.
Proof.
  induction xs as [|x xs IH]; intros Hp w st Hw Hr.
  - simpl in *. subst w. now rewrite Hr.
  - simpl in Hp. apply andb_true_iff in Hp. destruct Hp as [Hx Hxs].
    destruct xs as [|x2 xs].
    + simpl in *.
      apply (run_complete x Hx w Hw) with (s2 := []).
      * now rewrite app_nil_r.
      * intros c. simpl. discriminate.
    + change (seq ((x :: x2 :: xs) ++ [Eol]))
        with (Seq x (seq ((x2 :: xs) ++ [Eol]))).
      change (lang (seq (x :: x2 :: xs)) w)
        with (lang (Seq x (seq (x2 :: xs))) w) in Hw.
      destruct Hw as (w1 & w2 & -> & H1 & H2).
      cbn [run].
      apply (run_complete x Hx w1 H1) with (s2 := w2); [exact Hr|].
      intros c. apply (IH Hxs w2); [exact H2 | reflexivity].
Qed.

Lemma row_grammar_lang d :
  wellFormed d = true -> lang (seq rowBody) (text d).
Proof.
  intros H. apply wellFormed_parts in H.
  destruct H as (H1 & H2 & H3 & H4 & H5 & H6 & H7 & H8 & H9 & H10 & H11
                 & H12 & H13).
  unfold rowBody, text. cbn [seq].
  exists (p_studentNo d), (p_gap1 d ++ p_sin d ++ p_gap2 d ++ govText (p_gov d)
    ++ p_gap3 d ++ p_cert d ++ p_gap4 d ++ p_name d ++ p_gap5 d
    ++ p_eosDate d ++ p_gap6 d ++ p_amount d).
  split; [reflexivity|]. split; [now apply lang_studentNo|].
  eexists _, _. split; [reflexivity|]. split; [now apply lang_gap|].
  eexists _, _. split; [reflexivity|]. split; [now apply lang_sin|].
  eexists _, _. split; [reflexivity|]. split; [now apply lang_gap|].
  eexists _, _. split; [reflexivity|]. split.
  { apply lang_opt. destruct (p_gov d); [right | now left].
    now apply lang_gov. }
  eexists _, _. split; [reflexivity|]. split; [now apply lang_gap0|].
  eexists _, _. split; [reflexivity|]. split; [now apply lang_studentNo|].
  eexists _, _. split; [reflexivity|]. split; [now apply lang_gap|].
  eexists _, _. split; [reflexivity|]. split; [now apply lang_name|].
  eexists _, _. split; [reflexivity|]. split; [now apply lang_gap|].
  eexists _, _. split; [reflexivity|]. split; [now apply lang_date|].
  eexists _, _. split; [reflexivity|]. split; [now apply lang_gap|].
  now apply lang_amount.
Qed.

(** [parseRow] gives a row exactly for the lines of the grammar, and the
    row holds the parts of the line. *)
Lemma parseRow_Some line r :
  parseRow line = Some r ->
  exists d, wellFormed d = true /\ text d = normalize line /\ r = rowOf d.
Proof.
  unfold parseRow. rewrite exec_rxRow. unfold matchAt.
  destruct (run rxRow _ _) as [st'|] eqn:E; [|discriminate].
  intros H. inversion H. subst r. clear H.
  apply row_match_parts in E.
  destruct E as (d & Hd & Ht & C1 & C2 & C3 & C4 & C5 & C6 & C7).
  exists d. split; [exact Hd|]. split; [exact Ht|].
  cbn [group]. rewrite C1, C2, C3, C4, C5, C6, C7. unfold rowOf. simpl.
  f_equal. apply wellFormed_parts in Hd.
  destruct Hd as (_ & _ & _ & _ & Hg & _).
  destruct (p_gov d) as [g|]; [|reflexivity].
  unfold isGov in Hg. destruct g as [|a [|b [|c g]]]; try discriminate.
  apply andb_true_iff in Hg. destruct Hg as [Ha Hb].
  assert (Hws : forall x, isUpper x = true -> isWhiteSpace x = false).
  { intros x Hx. unfold isUpper in Hx. apply andb_true_iff in Hx.
    destruct Hx as [H1 H2]. apply N.leb_le in H1, H2.
    change (ch "A") with 65%N in H1. change (ch "Z") with 90%N in H2.
    unfold isWhiteSpace.
    repeat match goal with
           | |- context [(?a <=? ?b)%N] =>
             destruct (N.leb_spec a b); simpl; try lia
           | |- context [(?a =? ?b)%N] =>
             destruct (N.eqb_spec a b); simpl; try lia
           end; reflexivity. }
  unfold govOf. erewrite trim_id with (pre := [a]) (y := b); auto.
Qed.

Lemma parseRow_complete d line :
  wellFormed d = true -> text d = normalize line -> parseRow line <> None.
Proof.
  intros Hd Ht. unfold parseRow. rewrite exec_rxRow. unfold matchAt.
  destruct (run rxRow _ _) as [st'|] eqn:E; [discriminate|].
  exfalso. revert E. rewrite rxRow_body.
  change (seq ([Bol] ++ rowBody ++ [Eol]))
    with (Seq Bol (seq (rowBody ++ [Eol]))).
  cbn [run past].
  apply complete_then_eol with (w := text d);
    [reflexivity | now apply row_grammar_lang | now rewrite Ht].
Qed.

End RowFacts.

(* ================================================================== *)
(** * The number of an amount *)
(* ================================================================== *)

Module AmountFacts.

Import RegexFacts StrFacts RowFacts Parse.

(** Decides the comparisons of a character with constants. *)
Ltac cmp_lia :=
  repeat match goal with
         | |- context [(?a <=? ?b)%N] =>
           destruct (N.leb_spec a b); simpl; try lia
         | |- context [(?a =? ?b)%N] =>
           destruct (N.eqb_spec a b); simpl; try lia
         end;
  try reflexivity.

Lemma digit_range c : isDigit c = true -> (48 <= c <= 57)%N.
Proof.
  unfold isDigit. rewrite andb_true_iff, !N.leb_le. tauto.
Qed.

Lemma digit_not_space c : isDigit c = true -> isWhiteSpace c = false.
Proof.
  intros H. apply digit_range in H. unfold isWhiteSpace. cmp_lia.
Qed.

Lemma digit_not_stripped c : isDigit c = true -> inClass [IChar (ch ","); IChar (ch "$"); ISpace; IChar (ch "$")] c = false.
Proof.
  intros H. unfold inClass. cbn [existsb inItem].
  rewrite (digit_not_space c H). apply digit_range in H.
  change (ch ",") with 44%N. change (ch "$") with 36%N. cmp_lia.
Qed.

Lemma amountChar_stripped c :
  isAmountChar c = true ->
  inClass [IChar (ch ","); IChar (ch "$"); ISpace; IChar (ch "$")] c
  = negb (isDigit c).
Proof.
  unfold isAmountChar. intros H. apply orb_true_iff in H.
  destruct H as [H | H].
  - rewrite H. now apply digit_not_stripped.
  - apply N.eqb_eq in H. subst c. reflexivity.
Qed.

(** Stripping an amount leaves its digits and its decimal point. *)
Lemma strip_amount d m x y :
  (d = [] \/ d = [ch "$"]) -> forallb isAmountChar m = true ->
  isDigit x = true -> isDigit y = true ->
  replaceAll rxStrip (lit "") (d ++ m ++ [ch "."; x; y])
  = filter isDigit m ++ [ch "."; x; y].
Proof.
  intros Hd Hm Hx Hy. unfold rxStrip. rewrite replaceAll_Cls.
  change (lit "") with (@nil char). rewrite flat_map_delete.
  rewrite !filter_app.
  assert (E1 : filter (fun c => negb (inClass [IChar (ch ","); IChar (ch "$"); ISpace; IChar (ch "$")] c)) d = []).
  { destruct Hd as [-> | ->]; reflexivity. }
  assert (E2 : filter (fun c => negb (inClass [IChar (ch ","); IChar (ch "$"); ISpace; IChar (ch "$")] c)) m = filter isDigit m).
  { clear - Hm. induction m as [|c m IH]; [reflexivity|].
    simpl in Hm. apply andb_true_iff in Hm. destruct Hm as [Hc Hm].
    cbn [filter]. rewrite (amountChar_stripped c Hc), negb_involutive, IH; auto. }
  rewrite E1, E2. cbn [filter app].
  rewrite (digit_not_stripped x Hx), (digit_not_stripped y Hy). reflexivity.
Qed.

Lemma filter_all (p : char -> bool) l : forallb p (filter p l) = true.
Proof.
  induction l as [|c l IH]; [reflexivity|]. simpl.
  destruct (p c) eqn:E; simpl; [now rewrite E|exact IH].
Qed.

(** The number of digits, a point and two digits is the number value of
    the digits taken as hundredths. *)
Lemma ofString_two_decimals ds x y :
  forallb isDigit ds = true -> isDigit x = true -> isDigit y = true ->
  ofString (ds ++ [ch "."; x; y]) = ofDecimal false (decValue (ds ++ [x; y])) (-2).
Proof.
  intros Hds Hx Hy.
  assert (Hspan : span isDigit (ds ++ [ch "."; x; y]) = (ds, [ch "."; x; y])).
  { apply span_app; [now apply forallb_Forall | reflexivity]. }
  assert (Hxy : span isDigit [x; y] = ([x; y], [])).
  { simpl. now rewrite Hx, Hy. }
  assert (Htrim : trim (ds ++ [ch "."; x; y]) = ds ++ [ch "."; x; y]).
  { destruct ds as [|c ds].
    - apply trim_id with (pre := [ch "."; x]) (y := y); auto.
      now apply digit_not_space.
    - simpl in Hds. apply andb_true_iff in Hds. destruct Hds as [Hc _].
      apply trim_id with (pre := (c :: ds) ++ [ch "."; x]) (y := y).
      + simpl. now rewrite <- app_assoc.
      + now apply digit_not_space.
      + now apply digit_not_space. }
  unfold ofString. rewrite Htrim.
  assert (Hun : unsignedDecimal false (ds ++ [ch "."; x; y])
                = ofDecimal false (decValue (ds ++ [x; y])) (-2)).
  { unfold unsignedDecimal. rewrite Hspan.
    assert (Hinf : Str.eqb (ds ++ [ch "."; x; y]) (lit "Infinity") = false).
    { destruct ds as [|c ds]; [reflexivity|].
      simpl in Hds. apply andb_true_iff in Hds. destruct Hds as [Hc _].
      apply digit_range in Hc.
      change (lit "Infinity") with (73%N :: lit "nfinity").
      cbn [app Str.eqb].
      replace (N.eqb c 73) with false; [reflexivity|].
      symmetry. apply N.eqb_neq. lia. }
    rewrite Hinf. rewrite N.eqb_refl, Hxy.
    destruct ds; reflexivity. }
  destruct ds as [|c ds].
  - exact Hun.
  - simpl in Hds. apply andb_true_iff in Hds. destruct Hds as [Hc Hds].
    cbn [app] in *. pose proof (digit_range c Hc) as Rc.
    replace (N.eqb c (ch "+")) with false
      by (symmetry; apply N.eqb_neq; change (ch "+") with 43%N; lia).
    replace (N.eqb c (ch "-")) with false
      by (symmetry; apply N.eqb_neq; change (ch "-") with 45%N; lia).
    destruct (ds ++ [ch "."; x; y]) as [|e t] eqn:Et.
    + exact Hun.
    + assert (He : isDigit e = true \/ e = ch ".").
      { destruct ds as [|e' ds']; simpl in Et; inversion Et; subst; auto.
        simpl in Hds. apply andb_true_iff in Hds. tauto. }
      assert (Hx1 : (N.eqb e (ch "x") || N.eqb e (ch "X")) = false
                    /\ (N.eqb e (ch "o") || N.eqb e (ch "O")) = false
                    /\ (N.eqb e (ch "b") || N.eqb e (ch "B")) = false).
      { destruct He as [He | ->]; [|repeat split; reflexivity].
        apply digit_range in He.
        change (ch "x") with 120%N. change (ch "X") with 88%N.
        change (ch "o") with 111%N. change (ch "O") with 79%N.
        change (ch "b") with 98%N. change (ch "B") with 66%N.
        repeat split; cmp_lia. }
      destruct Hx1 as (-> & -> & ->). rewrite !andb_false_r. exact Hun.
Qed.

(** ** Signs *)

Lemma binary_round_aux_sign sx mx ex lx :
  binary_round_aux prec emax sx mx ex lx = S754_nan
  \/ isNonNegative (binary_round_aux prec emax sx mx ex lx) = negb sx.
Proof.
  unfold binary_round_aux.
  destruct (shr_fexp prec emax mx ex lx) as [mrs e'].
  destruct (shr_fexp prec emax _ e' loc_Exact) as [mrs' e''].
  destruct (shr_m mrs'); auto.
  destruct (Z.leb _ _); auto.
Qed.

Lemma ofDecimal_sign k e :
  ofDecimal false k e = S754_nan \/ isNonNegative (ofDecimal false k e) = true.
Proof.
  unfold ofDecimal. destruct k as [|p]; [now right|].
  destruct e as [|q|q].
  - unfold binary_round. destruct (shl_align _ _ _) as [mz ez].
    apply binary_round_aux_sign.
  - unfold binary_round. destruct (shl_align _ _ _) as [mz ez].
    apply binary_round_aux_sign.
  - unfold SFdiv. destruct (SFdiv_core_binary _ _ _ _ _ _) as [[mz ez] lz].
    apply binary_round_aux_sign.
Qed.

(** A number with at most two decimals: the number value of so many
    hundredths. *)
Definition twoDecimals (x : number) : Prop :=
  exists k : N, x = ofDecimal false k (-2).

Lemma finite_two_decimals k :
  let n := ofDecimal false k (-2) in
  twoDecimals (if isFinite n then n else zero)
  /\ isNonNegative (if isFinite n then n else zero) = true.
Proof.
  intros n. destruct (isFinite n) eqn:E.
  - split; [now exists k|].
    destruct (ofDecimal_sign k (-2)) as [H | H]; [|exact H].
    fold n in H. rewrite H in E. discriminate.
  - split; [now exists 0%N | reflexivity].
Qed.

(** The coercion of an amount of the grammar. *)
Lemma amount_toNumber a :
  isAmount a = true ->
  twoDecimals (Parse.toNumber (VString a))
  /\ isNonNegative (Parse.toNumber (VString a)) = true
  /\ MakeExcel.toNumber (VString a) = Parse.toNumber (VString a).
Proof.
  intros H. apply amount_check_parts in H.
  destruct H as (d & m & x & y & -> & Hd & Hl & Hm & Hx & Hy).
  assert (E : numberOr0 (replaceAll rxStrip (lit "") (d ++ m ++ [ch "."; x; y]))
              = ofDecimal false (decValue (filter isDigit m ++ [x; y])) (-2)).
  { rewrite strip_amount by auto. unfold numberOr0.
    replace (truthy (filter isDigit m ++ [ch "."; x; y])) with true
      by (destruct (filter isDigit m); reflexivity).
    apply ofString_two_decimals; auto. apply filter_all. }
  unfold Parse.toNumber, MakeExcel.toNumber, String_, MakeExcel.asString.
  rewrite E.
  destruct (finite_two_decimals (decValue (filter isDigit m ++ [x; y])))
    as [H1 H2].
  auto.
Qed.

End AmountFacts.

(* ================================================================== *)
(** * The count of a totals line *)
(* ================================================================== *)

Module TotalsFacts.

Import RegexFacts RowFacts Parse.

(** ** The first position at which an expression matches *)

Lemma search_Some r :
  forall s before m,
    search r before s = Some m ->
    exists u s', s = u ++ s'
                 /\ matchAt r (rev u ++ before) s' = Some m
                 /\ forall u1 u2, u = u1 ++ u2 -> u2 <> [] ->
                                  matchAt r (rev u1 ++ before) (u2 ++ s')
                                  = None.
Proof.
  induction s as [|c s IH]; intros before m H; cbn [search] in H;
    destruct (matchAt r before _) as [m'|] eqn:E; try discriminate.
  - exists [], []. split; [reflexivity|]. split; [simpl; congruence|].
    intros u1 u2 Hu Hn. symmetry in Hu. apply app_eq_nil in Hu. tauto.
  - exists [], (c :: s). split; [reflexivity|]. split; [simpl; congruence|].
    intros u1 u2 Hu Hn. symmetry in Hu. apply app_eq_nil in Hu. tauto.
  - apply IH in H. destruct H as (u & s' & -> & Hm & Hnone).
    exists (c :: u), s'. split; [reflexivity|]. split.
    + simpl. now rewrite <- app_assoc.
    + intros [|x u1] u2 Hu Hn; simpl in Hu.
      * subst u2. exact E.
      * injection Hu as <- Hu. simpl. rewrite <- app_assoc. simpl.
        now apply Hnone.
Qed.

Lemma search_None r :
  forall s before,
    search r before s = None ->
    forall u s', s = u ++ s' -> matchAt r (rev u ++ before) s' = None.
Proof.
  induction s as [|c s IH]; intros before H u s' Hs; cbn [search] in H;
    destruct (matchAt r before _) as [m'|] eqn:E; try discriminate.
  - symmetry in Hs. apply app_eq_nil in Hs. destruct Hs as [-> ->]. exact E.
  - destruct u as [|x u]; simpl in Hs.
    + subst s'. exact E.
    + injection Hs as <- Hs. simpl. rewrite <- app_assoc. simpl.
      now apply IH.
Qed.

Lemma app_eq_shorter {A : Type} (a b c d : list A) :
  a ++ b = c ++ d -> length a < length c ->
  exists e, c = a ++ e /\ e <> [] /\ b = e ++ d.
Proof.
  revert c. induction a as [|x a IH]; intros c H Hl; simpl in *.
  - exists c. repeat split; auto. intros ->. simpl in Hl. lia.
  - destruct c as [|y c]; simpl in *; [lia|].
    injection H as <- H. apply IH in H; [|lia].
    destruct H as (e & -> & He & ->). now exists e.
Qed.

(** ** Runs of digits between word boundaries *)

(** In [pre ++ d ++ post] the text [d] is one to four digits and no
    letter, digit or underscore stands next to it. *)
Definition bareInteger (pre d post : str) : Prop :=
  1 <= length d <= 4 /\ forallb isDigit d = true
  /\ isWordAt (rev pre) = false /\ isWordAt post = false.

(** No such run starts further on before the next line terminator. *)
Definition lastOnLine (pre d post : str) : Prop :=
  forall u e v, post = u ++ e ++ v -> forallb notTerminator u = true ->
                ~ bareInteger (pre ++ d ++ u) e v.

Definition countAt (pre d post : str) : Prop :=
  bareInteger pre d post /\ lastOnLine pre d post.

Lemma isWordAt_digits d tl :
  1 <= length d -> forallb isDigit d = true -> isWordAt (d ++ tl) = true.
Proof.
  destruct d as [|c d]; simpl; [lia|]. intros _ H.
  apply andb_true_iff in H. destruct H as [H _].
  unfold isWordChar. now rewrite H.
Qed.

Lemma isWordAt_rev_digits d tl :
  1 <= length d -> forallb isDigit d = true ->
  isWordAt (rev d ++ tl) = true.
Proof.
  intros Hl H. apply isWordAt_digits.
  - now rewrite length_rev.
  - apply forallb_forall. intros c Hc. apply in_rev in Hc.
    now apply (proj1 (forallb_forall _ _) H).
Qed.

(** ** The expression of the count *)

(** [.*\b\d{1,4}\b], the body of the lookahead. *)
Definition rxLater : regex :=
  seq [star Dot; WordB; between 1 4 digit; WordB].

Lemma rxCount_parts :
  rxCount
  = Seq WordB (Seq (Group 1 (between 1 4 digit))
                   (Seq WordB (NegLook rxLater))).
Proof. reflexivity. Qed.

Lemma run_Seq r1 r2 st k :
  run (Seq r1 r2) st k = run r1 st (fun st' => run r2 st' k).
Proof. reflexivity. Qed.

Lemma run_WordB st k :
  run WordB st k
  = if xorb (isWordAt (past st)) (isWordAt (rest st)) then k st else None.
Proof. reflexivity. Qed.

Lemma lang_dots u :
  lang (star Dot) u <-> forallb notTerminator u = true.
Proof.
  unfold star.
  rewrite (@lang_rep_one notTerminator Dot 0 None true lang_Dot_one).
  simpl. split; [tauto|]. intros H. repeat split; auto. lia.
Qed.

Lemma lang_small e :
  lang (between 1 4 digit) e
  <-> 1 <= length e <= 4 /\ forallb isDigit e = true.
Proof. unfold between. rewrite lang_digits. simpl. tauto. Qed.

(** The body of the lookahead matches exactly where a bare integer
    starts further on, before the next line terminator. *)
Lemma rxLater_later st :
  run rxLater st (fun x => Some x) <> None ->
  exists u e v, rest st = u ++ e ++ v /\ forallb notTerminator u = true
                /\ 1 <= length e <= 4 /\ forallb isDigit e = true
                /\ isWordAt (rev u ++ past st) = false
                /\ isWordAt v = false.
Proof.
  intros H. destruct (run rxLater st _) as [res|] eqn:E; [|congruence].
  clear H. apply run_sound in E. destruct E as (st' & HM & _).
  unfold rxLater in HM. cbn [seq] in HM.
  destruct HM as (s1 & H1 & s2 & [Hb1 ->] & s3 & H3 & [Hb2 ->]).
  apply (@Matches_lang (star Dot) eq_refl) in H1.
  destruct H1 as (u & Hr1 & Hp1 & Hu). apply lang_dots in Hu.
  apply (@Matches_lang (between 1 4 digit) eq_refl) in H3.
  destruct H3 as (e & Hr3 & Hp3 & He). apply lang_small in He.
  destruct He as [Hl Hd].
  exists u, e, (rest s3). rewrite Hr1, Hr3.
  rewrite Hr3, Hp1, (@isWordAt_digits e (rest s3)) in Hb1 by tauto.
  rewrite Hp3, (@isWordAt_rev_digits e (past s1)) in Hb2 by tauto.
  repeat split; try tauto.
  - now destruct (isWordAt (rev u ++ past st)).
  - now destruct (isWordAt (rest s3)).
Qed.

Lemma later_rxLater st u e v :
  rest st = u ++ e ++ v -> forallb notTerminator u = true ->
  1 <= length e <= 4 -> forallb isDigit e = true ->
  isWordAt (rev u ++ past st) = false -> isWordAt v = false ->
  run rxLater st (fun x => Some x) <> None.
Proof.
  intros Hr Hu Hl Hd Hb Hv. unfold rxLater. cbn [seq]. rewrite run_Seq.
  apply (@run_complete (star Dot) eq_refl u (proj2 (lang_dots u) Hu))
    with (s2 := e ++ v); [exact Hr|].
  intros c. rewrite run_Seq, run_WordB. unfold arrive. cbn [past rest].
  rewrite Hb, (@isWordAt_digits e v) by tauto. cbn [xorb]. rewrite run_Seq.
  apply (@run_complete (between 1 4 digit) eq_refl e
                       (proj2 (lang_small e) (conj Hl Hd)))
    with (s2 := v); [reflexivity|].
  intros c'. rewrite run_WordB. unfold arrive. cbn [past rest].
  rewrite (@isWordAt_rev_digits e (rev u ++ past st)), Hv by tauto.
  discriminate.
Qed.

Lemma rev_pre (pre d u : str) :
  rev (pre ++ d ++ u) = rev u ++ rev d ++ rev pre.
Proof. now rewrite !rev_app_distr, app_assoc. Qed.

(** An attempt of the expression at one position. *)
Lemma matchAt_rxCount_Some pre s m :
  matchAt rxCount (rev pre) s = Some m ->
  exists d post, s = d ++ post /\ index m = length pre
                 /\ group m 1 = Some d /\ countAt pre d post.
Proof.
  unfold matchAt. intros H.
  destruct (run rxCount _ _) as [st'|] eqn:E; [|discriminate].
  injection H as <-. cbn [index group].
  apply run_sound in E. destruct E as (st'' & HM & Heq).
  injection Heq as ->. rewrite rxCount_parts in HM.
  destruct HM as (s1 & [Hb1 ->] & s2 & (mid & HG & ->) & s3 & [Hb2 ->]
                  & [HN ->]).
  cbn [past rest caps] in *.
  destruct (@Matches_lang (between 1 4 digit) eq_refl _ _ HG)
    as (d & Hr & Hp & Hd).
  cbn [past rest] in Hr, Hp. apply lang_small in Hd. destruct Hd as [Hl Hd].
  exists d, (rest mid). split; [exact Hr|]. split; [apply length_rev|].
  split.
  { unfold setCap. simpl. f_equal. now apply consumed_app. }
  rewrite Hr, (@isWordAt_digits d (rest mid)) in Hb1 by tauto.
  rewrite Hp, (@isWordAt_rev_digits d (rev pre)) in Hb2 by tauto.
  split.
  - repeat split; try tauto.
    + now destruct (isWordAt (rev pre)).
    + now destruct (isWordAt (rest mid)).
  - intros u e v Hpost Hu (Hl' & Hd' & Hb' & Hv').
    rewrite rev_pre in Hb'.
    destruct (run rxLater _ _) eqn:E in HN; [discriminate|].
    revert E. apply later_rxLater with (u := u) (e := e) (v := v); auto.
    cbn [past]. now rewrite Hp.
Qed.

Lemma matchAt_rxCount_complete pre d post :
  countAt pre d post -> matchAt rxCount (rev pre) (d ++ post) <> None.
Proof.
  intros [(Hl & Hd & Hb & Hv) Hlast]. unfold matchAt.
  match goal with
  | |- match ?x with _ => _ end <> None =>
    assert (H : x <> None); [|destruct x; congruence]
  end.
  rewrite rxCount_parts, run_Seq, run_WordB. cbn [past rest].
  rewrite Hb, (@isWordAt_digits d post) by tauto. cbn [xorb].
  rewrite run_Seq. cbn [run].
  apply (@run_complete (between 1 4 digit) eq_refl d
                       (proj2 (lang_small d) (conj Hl Hd)))
    with (s2 := post); [reflexivity|].
  intros c. unfold arrive. cbn [past rest].
  rewrite (@isWordAt_rev_digits d (rev pre)), Hv by tauto. cbn [xorb].
  match goal with
  | |- match ?x with _ => _ end <> None => destruct x eqn:E; [|discriminate]
  end.
  exfalso.
  match type of E with
  | ?x = Some _ => assert (E' : x <> None) by (rewrite E; discriminate)
  end.
  apply rxLater_later in E'.
  destruct E' as (u & e & v & Hr & Hu & Hl' & Hd' & Hb' & Hv').
  cbn [past rest] in *.
  apply (Hlast u e v Hr Hu). repeat split; try tauto.
  now rewrite rev_pre.
Qed.

(** ** The count the totals detector returns *)

(** The first match of the expression is the leftmost bare integer that
    is the last one on its line. *)
Lemma exec_rxCount_Some line m :
  exec rxCount line = Some m ->
  exists pre d post,
    line = pre ++ d ++ post /\ index m = length pre /\ group m 1 = Some d
    /\ countAt pre d post
    /\ forall pre' d' post',
        line = pre' ++ d' ++ post' -> countAt pre' d' post' ->
        length pre <= length pre'.
Proof.
  unfold exec. intros H. apply search_Some in H.
  destruct H as (pre & s' & -> & Hm & Hnone).
  rewrite app_nil_r in Hm. apply matchAt_rxCount_Some in Hm.
  destruct Hm as (d & post & -> & Hi & Hg & Hc).
  exists pre, d, post. do 4 (split; [assumption || reflexivity|]).
  intros pre' d' post' Hline Hc'.
  destruct (Nat.le_gt_cases (length pre) (length pre')) as [|Hlt];
    [assumption|].
  exfalso. symmetry in Hline. apply app_eq_shorter in Hline; [|exact Hlt].
  destruct Hline as (e & -> & He & Hrest).
  specialize (Hnone pre' e eq_refl He).
  rewrite app_nil_r, <- Hrest in Hnone.
  now apply (matchAt_rxCount_complete Hc').
Qed.

Lemma exec_rxCount_None line :
  exec rxCount line = None ->
  forall pre d post, line = pre ++ d ++ post -> ~ countAt pre d post.
Proof.
  unfold exec. intros H pre d post Hl Hc.
  pose proof (@search_None rxCount line [] H pre (d ++ post) Hl) as Hn.
  rewrite app_nil_r in Hn. now apply (matchAt_rxCount_complete Hc).
Qed.

Lemma parseTotals_count line t :
  parseTotals line = Some t ->
  count t
  = option_map (fun m => ofString (groupText m 1)) (exec rxCount line).
Proof.
  unfold parseTotals. destruct (negb _); [discriminate|].
  destruct (exec rxAmount line), (exec rxCount line); simpl;
    intros H; inversion H; reflexivity.
Qed.

(** The count of a totals line is the number of the leftmost bare
    integer that is the last one on its line; there is no count when
    the line has no such integer. *)
Lemma count_last_bare_integer line t :
  parseTotals line = Some t ->
  match count t with
  | Some c =>
    exists pre d post,
      line = pre ++ d ++ post /\ c = ofString d /\ countAt pre d post
      /\ forall pre' d' post',
          line = pre' ++ d' ++ post' -> countAt pre' d' post' ->
          length pre <= length pre'
  | None =>
    forall pre d post, line = pre ++ d ++ post -> ~ countAt pre d post
  end.
Proof.
  intros H. rewrite (parseTotals_count _ H).
  destruct (exec rxCount line) as [m|] eqn:E; simpl.
  - apply exec_rxCount_Some in E.
    destruct E as (pre & d & post & Hl & _ & Hg & Hc & Hfirst).
    exists pre, d, post. unfold groupText. rewrite Hg. auto.
  - now apply exec_rxCount_None.
Qed.

End TotalsFacts.

(* ================================================================== *)
(** * Lines synthesized from fields *)
(* ================================================================== *)

Module RoundTrip.

Import RegexFacts StrFacts RowFacts AmountFacts Parse.

Unset Implicit Arguments.

(** The seven fields of a row. *)
Record Fields : Type := mkFields {
  f_studentNo : str;
  f_sin : str;
  f_gov : option str;
  f_cert : str;
  f_name : str;
  f_eosDate : str;
  f_amount : str
}.

(** The fields joined by single spaces. *)
Definition synthesize (f : Fields) : str :=
  f_studentNo f ++ space :: f_sin f ++ space
    :: match f_gov f with Some g => g ++ [space] | None => [] end
    ++ f_cert f ++ space :: f_name f ++ space :: f_eosDate f ++ space
    :: f_amount f.

Definition rowOfFields (f : Fields) : ParsedRow :=
  mkRow (Some (f_studentNo f)) (Some (f_sin f)) (f_gov f) (Some (f_cert f))
        (Some (f_name f)) (Some (f_eosDate f)) (VString (f_amount f)) [].

(** A name that [normalize] and the white space around it leave alone:
    one character or more, none a line terminator, a tab or a non-breaking
    space, no two spaces in a row, no white space at either end. *)
Definition isTidyName (w : str) : bool :=
  isNameText w && tidy w
  && negb (isWhiteSpace (hd 0%N w)) && negb (isWhiteSpace (last w 0%N)).

(** The fields as the grammar has them. *)
Definition validFields (f : Fields) : bool :=
  isDigitsFrom 3 (f_studentNo f) && isSin (f_sin f)
  && match f_gov f with Some g => isGov g | None => true end
  && isDigitsFrom 4 (f_cert f) && isTidyName (f_name f)
  && isDate (f_eosDate f) && isAmount (f_amount f).

(** The fields as the specification words them: [gov] any two letters,
    [name] any text. *)
Definition isLetter (c : char) : bool :=
  isUpper c || ((ch "a" <=? c) && (c <=? ch "z"))%N.

Definition validFieldsAsWorded (f : Fields) : bool :=
  isDigitsFrom 3 (f_studentNo f) && isSin (f_sin f)
  && match f_gov f with
     | Some [a; b] => isLetter a && isLetter b
     | Some _ => false
     | None => true
     end
  && isDigitsFrom 4 (f_cert f)
  && isDate (f_eosDate f) && isAmount (f_amount f).

(** ** Texts without white space *)

Definition solid (w : str) : bool :=
  forallb (fun c => negb (isWhiteSpace c)) w.

Lemma ws_false c :
  isWhiteSpace c = false ->
  N.eqb tab c = false /\ N.eqb nbsp c = false /\ N.eqb space c = false.
Proof.
  intros H. repeat split.
  - destruct (N.eqb_spec tab c); [subst; discriminate | reflexivity].
  - destruct (N.eqb_spec nbsp c); [subst; discriminate | reflexivity].
  - destruct (N.eqb_spec space c); [subst; discriminate | reflexivity].
Qed.

Lemma digits_solid w : forallb isDigit w = true -> solid w = true.
Proof.
  unfold solid. induction w as [|c w IH]; simpl; [reflexivity|].
  rewrite andb_true_iff. intros [Hc Hw].
  now rewrite (digit_not_space c Hc), IH.
Qed.

Lemma upper_not_space c : isUpper c = true -> isWhiteSpace c = false.
Proof.
  unfold isUpper. rewrite andb_true_iff, !N.leb_le.
  change (ch "A") with 65%N. change (ch "Z") with 90%N.
  intros H. unfold isWhiteSpace. cmp_lia.
Qed.

Lemma upper_not_digit c : isUpper c = true -> isDigit c = false.
Proof.
  unfold isUpper. rewrite andb_true_iff, !N.leb_le.
  change (ch "A") with 65%N. change (ch "Z") with 90%N.
  intros H. unfold isDigit. cmp_lia.
Qed.

Lemma space_not_digit c : isWhiteSpace c = true -> isDigit c = false.
Proof.
  intros H. destruct (isDigit c) eqn:E; [|reflexivity].
  apply digit_not_space in E. congruence.
Qed.

Lemma amountChar_not_space c : isAmountChar c = true -> isWhiteSpace c = false.
Proof.
  unfold isAmountChar. rewrite orb_true_iff. intros [H | H].
  - now apply digit_not_space.
  - apply N.eqb_eq in H. subst. reflexivity.
Qed.

Lemma solid_app a b : solid (a ++ b) = solid a && solid b.
Proof. apply forallb_app. Qed.

Lemma amount_solid a : isAmount a = true -> solid a = true.
Proof.
  intros H. apply amount_check_parts in H.
  destruct H as (d & m & x & y & -> & Hd & _ & Hm & Hx & Hy).
  rewrite !solid_app. unfold solid at 3. simpl.
  rewrite (digit_not_space x Hx), (digit_not_space y Hy). simpl.
  assert (H1 : solid d = true) by (destruct Hd as [-> | ->]; reflexivity).
  assert (H2 : solid m = true).
  { clear - Hm. unfold solid. induction m as [|c m IH]; [reflexivity|].
    simpl in *. apply andb_true_iff in Hm. destruct Hm as [Hc Hm].
    now rewrite (amountChar_not_space c Hc), IH. }
  now rewrite H1, H2.
Qed.

Lemma amount_last a :
  isAmount a = true ->
  exists pre y, a = pre ++ [y] /\ isDigit y = true.
Proof.
  intros H. apply amount_check_parts in H.
  destruct H as (d & m & x & y & -> & _ & _ & _ & _ & Hy).
  exists (d ++ m ++ [ch "."; x]), y. split; [|exact Hy].
  now rewrite <- !app_assoc.
Qed.

Lemma solid_tidy w : solid w = true -> tidy w = true.
Proof.
  unfold solid. induction w as [|c w IH]; [reflexivity|].
  cbn [forallb tidy]. rewrite andb_true_iff, negb_true_iff.
  intros [Hc Hw]. destruct (ws_false c Hc) as (-> & -> & ->).
  now rewrite IH.
Qed.

Lemma solid_Forall w :
  solid w = true -> Forall (fun c => negb (isWhiteSpace c) = true) w.
Proof. apply forallb_Forall. Qed.

(** ** Joining with a space *)

Lemma startsWithSpace_app a b :
  a <> [] -> startsWithSpace (a ++ b) = startsWithSpace a.
Proof. destruct a; [congruence | reflexivity]. Qed.

Lemma tidy_app a b :
  tidy a = true -> tidy b = true ->
  N.eqb space (last a 0%N) = false \/ startsWithSpace b = false ->
  tidy (a ++ b) = true.
Proof.
  induction a as [|c a IH]; intros Ha Hb Hj; [exact Hb|].
  apply tidy_cons in Ha. destruct Ha as (H1 & H2 & H3 & Ha).
  cbn [app tidy]. rewrite H1, H2. cbn [negb andb].
  destruct a as [|c' a].
  - cbn [app]. rewrite Hb, andb_true_r. cbn [last] in Hj.
    destruct Hj as [-> | ->]; [reflexivity | now rewrite andb_false_r].
  - rewrite startsWithSpace_app by discriminate. rewrite H3. cbn [negb andb].
    apply IH; auto.
Qed.

Lemma tidy_join w rest :
  tidy w = true -> isWhiteSpace (last w 0%N) = false ->
  tidy rest = true -> startsWithSpace rest = false ->
  tidy (w ++ space :: rest) = true.
Proof.
  intros Hw Hl Hr Hs. apply tidy_app; auto.
  - cbn [tidy]. rewrite Hs, Hr. reflexivity.
  - left. now apply ws_false.
Qed.

Lemma not_space_start w rest :
  w <> [] -> isWhiteSpace (hd 0%N w) = false ->
  startsWithSpace (w ++ rest) = false.
Proof.
  destruct w as [|c w]; [congruence|]. simpl. intros _ H.
  now apply ws_false.
Qed.

Lemma solid_ends w :
  solid w = true -> w <> [] ->
  isWhiteSpace (hd 0%N w) = false /\ isWhiteSpace (last w 0%N) = false.
Proof.
  intros H Hn. apply solid_Forall in H. rewrite Forall_forall in H.
  split.
  - destruct w as [|c w]; [congruence|]. simpl.
    apply negb_true_iff, H. now left.
  - apply negb_true_iff, H.
    destruct (exists_last Hn) as (pre & y & ->).
    rewrite last_last. apply in_or_app. right. now left.
Qed.

(** ** What the checks of the fields give *)

Lemma digitsFrom_facts n w :
  isDigitsFrom (S n) w = true ->
  forallb isDigit w = true /\ solid w = true
  /\ exists c w', w = c :: w' /\ isDigit c = true.
Proof.
  unfold isDigitsFrom. rewrite andb_true_iff, Nat.leb_le. intros [Hl Hd].
  split; [exact Hd|]. split; [now apply digits_solid|].
  destruct w as [|c w']; [simpl in Hl; lia|].
  exists c, w'. split; [reflexivity|]. simpl in Hd.
  apply andb_true_iff in Hd. tauto.
Qed.

Lemma sin_facts w :
  isSin w = true ->
  length w = 11 /\ solid w = true
  /\ exists c w', w = c :: w' /\ isDigit c = true.
Proof.
  unfold isSin.
  destruct w as [|a [|b [|c [|h1 [|d [|e [|f [|h2 [|g [|h [|i [|j w]]]]]]]]]]]];
    try discriminate.
  unfold forallb. rewrite !andb_true_iff, !N.eqb_eq.
  intros [[(Ha & Hb & Hc & Hd & He & Hf & Hg & Hh & Hi & _) ->] ->].
  split; [reflexivity|]. split; [|eauto].
  unfold solid, forallb.
  now rewrite (digit_not_space a), (digit_not_space b), (digit_not_space c),
    (digit_not_space d), (digit_not_space e), (digit_not_space f),
    (digit_not_space g), (digit_not_space h), (digit_not_space i).
Qed.

Lemma date_facts w :
  isDate w = true ->
  length w = 8 /\ solid w = true
  /\ exists pre y, w = pre ++ [y] /\ isDigit y = true.
Proof.
  unfold isDate.
  destruct w as [|a [|b [|s1 [|c [|d [|s2 [|e [|f [|g w]]]]]]]]];
    try discriminate.
  unfold forallb. rewrite !andb_true_iff, !N.eqb_eq.
  intros [[(Ha & Hb & Hc & Hd & He & Hf & _) ->] ->].
  split; [reflexivity|]. split.
  - unfold solid, forallb.
    now rewrite (digit_not_space a), (digit_not_space b), (digit_not_space c),
      (digit_not_space d), (digit_not_space e), (digit_not_space f).
  - exists [a; b; ch "/"; c; d; ch "/"; e], f. auto.
Qed.

Lemma gov_facts g :
  isGov g = true ->
  length g = 2 /\ solid g = true
  /\ exists c g', g = c :: g' /\ isUpper c = true.
Proof.
  unfold isGov. destruct g as [|a [|b [|c g]]]; try discriminate.
  rewrite andb_true_iff. intros [Ha Hb].
  split; [reflexivity|]. split; [|eauto].
  unfold solid, forallb.
  now rewrite (upper_not_space a Ha), (upper_not_space b Hb).
Qed.

Lemma name_facts w :
  isTidyName w = true ->
  isNameText w = true /\ tidy w = true /\ w <> []
  /\ isWhiteSpace (hd 0%N w) = false /\ isWhiteSpace (last w 0%N) = false.
Proof.
  unfold isTidyName. rewrite !andb_true_iff, !negb_true_iff.
  intros [[[H1 H2] H3] H4]. repeat split; auto.
  unfold isNameText in H1. apply andb_true_iff in H1.
  destruct H1 as [H1 _]. apply Nat.leb_le in H1.
  destruct w; [simpl in H1; lia | discriminate].
Qed.

Lemma valid_parts f :
  validFields f = true ->
  isDigitsFrom 3 (f_studentNo f) = true /\ isSin (f_sin f) = true
  /\ match f_gov f with Some g => isGov g | None => true end = true
  /\ isDigitsFrom 4 (f_cert f) = true /\ isTidyName (f_name f) = true
  /\ isDate (f_eosDate f) = true /\ isAmount (f_amount f) = true.
Proof.
  unfold validFields. rewrite !andb_true_iff. tauto.
Qed.

(** ** A synthesized line is normalized *)

Lemma join_ok w rest :
  tidy w = true -> w <> [] ->
  isWhiteSpace (hd 0%N w) = false -> isWhiteSpace (last w 0%N) = false ->
  tidy rest = true -> startsWithSpace rest = false ->
  tidy (w ++ space :: rest) = true
  /\ startsWithSpace (w ++ space :: rest) = false.
Proof.
  intros. split; [now apply tidy_join | now apply not_space_start].
Qed.

Lemma join_solid w rest :
  solid w = true -> w <> [] ->
  tidy rest = true -> startsWithSpace rest = false ->
  tidy (w ++ space :: rest) = true
  /\ startsWithSpace (w ++ space :: rest) = false.
Proof.
  intros Hs Hn Hr Hst. destruct (solid_ends w Hs Hn) as [H1 H2].
  apply join_ok; auto. now apply solid_tidy.
Qed.

Lemma synthesize_tidy f :
  validFields f = true -> tidy (synthesize f) = true.
Proof.
  intros H. apply valid_parts in H.
  destruct H as (H1 & H2 & H3 & H4 & H5 & H6 & H7).
  destruct (digitsFrom_facts _ _ H1) as (_ & S1 & c1 & w1 & E1 & _).
  destruct (sin_facts _ H2) as (_ & S2 & c2 & w2 & E2 & _).
  destruct (digitsFrom_facts _ _ H4) as (_ & S4 & c4 & w4 & E4 & _).
  destruct (name_facts _ H5) as (_ & T5 & N5 & B5 & L5).
  destruct (date_facts _ H6) as (Ln6 & S6 & _).
  pose proof (amount_solid _ H7) as S7.
  assert (N6 : f_eosDate f <> []) by (destruct (f_eosDate f); discriminate).
  assert (A7 : tidy (f_amount f) = true
               /\ startsWithSpace (f_amount f) = false).
  { split; [now apply solid_tidy|].
    destruct (f_amount f) as [|c a]; [reflexivity|].
    simpl in S7. apply andb_true_iff in S7. destruct S7 as [S7 _].
    apply negb_true_iff in S7. simpl. now apply ws_false. }
  destruct A7 as [A7 B7].
  destruct (join_solid _ _ S6 N6 A7 B7) as [A6 B6].
  destruct (join_ok _ _ T5 N5 B5 L5 A6 B6) as [A5 B5'].
  assert (N4 : f_cert f <> []) by (rewrite E4; discriminate).
  destruct (join_solid _ _ S4 N4 A5 B5') as [A4 B4].
  assert (A3 : tidy (match f_gov f with Some g => g ++ [space] | None => [] end
                       ++ f_cert f ++ space :: f_name f ++ space
                       :: f_eosDate f ++ space :: f_amount f) = true
               /\ startsWithSpace
                    (match f_gov f with Some g => g ++ [space] | None => [] end
                       ++ f_cert f ++ space :: f_name f ++ space
                       :: f_eosDate f ++ space :: f_amount f) = false).
  { destruct (f_gov f) as [g|]; [|now split].
    destruct (gov_facts _ H3) as (_ & Sg & cg & wg & Eg & _).
    rewrite <- app_assoc. cbn [app].
    apply join_solid; auto. rewrite Eg. discriminate. }
  destruct A3 as [A3 B3].
  assert (N2 : f_sin f <> []) by (rewrite E2; discriminate).
  destruct (join_solid _ _ S2 N2 A3 B3) as [A2 B2].
  assert (N1 : f_studentNo f <> []) by (rewrite E1; discriminate).
  destruct (join_solid _ _ S1 N1 A2 B2) as [A1 _].
  exact A1.
Qed.

Lemma synthesize_normalized f :
  validFields f = true -> normalize (synthesize f) = synthesize f.
Proof.
  intros H. pose proof (synthesize_tidy f H) as Ht.
  apply valid_parts in H.
  destruct H as (H1 & _ & _ & _ & _ & _ & H7).
  destruct (digitsFrom_facts _ _ H1) as (_ & _ & c & w & E1 & Hc).
  destruct (amount_last _ H7) as (pre & y & E7 & Hy).
  unfold synthesize in *. rewrite E1, E7 in *. cbn [app] in *.
  eapply normalize_id with (y := y);
    [ | now apply digit_not_space | now apply digit_not_space | exact Ht].
  instantiate (1 := c :: w ++ space :: f_sin f ++ space
    :: match f_gov f with Some g => g ++ [space] | None => [] end
    ++ f_cert f ++ space :: f_name f ++ space :: f_eosDate f ++ space :: pre).
  cbn [app]. f_equal. repeat (rewrite <- app_assoc; cbn [app]). reflexivity.
Qed.

(** ** A synthesized line has one reading *)

Lemma gap_facts g :
  isGap g = true ->
  Forall (fun c => isWhiteSpace c = true) g
  /\ exists c g', g = c :: g' /\ isWhiteSpace c = true.
Proof.
  unfold isGap. rewrite andb_true_iff, Nat.leb_le. intros [Hl Hw].
  split; [now apply forallb_Forall|].
  destruct g as [|c g']; [simpl in Hl; lia|]. simpl in Hw.
  apply andb_true_iff in Hw. exists c, g'. tauto.
Qed.

(** White space in front of a text that starts with one space and then a
    character that is no white space is that space. *)
Lemma gap_unique g x y :
  isGap g = true -> stopsAt isWhiteSpace y ->
  g ++ x = space :: y -> g = [space] /\ x = y.
Proof.
  intros Hg Hy E. destruct (gap_facts g Hg) as (Hall & c & g' & -> & _).
  cbn [app] in E. inversion E as [[Hc E']]. subst c.
  destruct g' as [|c' g'']; [auto|].
  exfalso. cbn [app] in E'. subst y. simpl in Hy.
  inversion Hall as [|? ? _ Hall']. inversion Hall' as [|? ? Hc' _].
  congruence.
Qed.

Lemma stops_digit_at_gap g x :
  isGap g = true -> stopsAt isDigit (g ++ x).
Proof.
  intros Hg. destruct (gap_facts g Hg) as (_ & c & g' & -> & Hc).
  simpl. now apply space_not_digit.
Qed.

Lemma stops_space_at_digit c w x :
  isDigit c = true -> stopsAt isWhiteSpace ((c :: w) ++ x).
Proof. intros H. simpl. now apply digit_not_space. Qed.

Lemma stops_space_at_upper c w x :
  isUpper c = true -> stopsAt isWhiteSpace ((c :: w) ++ x).
Proof. intros H. simpl. now apply upper_not_space. Qed.

(** Digits in front of white space. *)
Lemma digits_unique a b g x y :
  forallb isDigit a = true -> forallb isDigit b = true ->
  isGap g = true ->
  a ++ g ++ x = b ++ space :: y -> a = b /\ g ++ x = space :: y.
Proof.
  intros Ha Hb Hg E.
  apply (prefix_unique isDigit) in E; auto.
  - now apply forallb_Forall.
  - now apply forallb_Forall.
  - now apply stops_digit_at_gap.
  - reflexivity.
Qed.

Lemma isGap_rev g : isGap g = true -> isGap (rev g) = true.
Proof.
  unfold isGap. rewrite !andb_true_iff, !Nat.leb_le, length_rev.
  intros [Hl Hw]. split; [exact Hl|].
  apply forallb_forall. intros c Hc. apply in_rev in Hc.
  rewrite forallb_forall in Hw. now apply Hw.
Qed.

Lemma solid_rev w : solid w = true -> solid (rev w) = true.
Proof.
  unfold solid. intros Hw.
  apply forallb_forall. intros c Hc. apply in_rev in Hc.
  rewrite forallb_forall in Hw. now apply Hw.
Qed.

Lemma stops_solid_at_gap g x :
  isGap g = true -> stopsAt (fun c => negb (isWhiteSpace c)) (g ++ x).
Proof.
  intros Hg. destruct (gap_facts g Hg) as (_ & c & g' & -> & Hc).
  simpl. now rewrite Hc.
Qed.

Lemma rev_inj {A : Type} (a b : list A) : rev a = rev b -> a = b.
Proof.
  intros H. rewrite <- (rev_involutive a), <- (rev_involutive b).
  now rewrite H.
Qed.

(** The last three fields, read from the end of the line. *)
Lemma tail_unique name' g5 date' g6 amt' name date amt :
  isGap g5 = true -> isGap g6 = true ->
  isDate date' = true -> isDate date = true ->
  isAmount amt' = true -> isAmount amt = true ->
  name <> [] -> isWhiteSpace (last name 0%N) = false ->
  name' ++ g5 ++ date' ++ g6 ++ amt'
  = name ++ space :: date ++ space :: amt ->
  name' = name /\ date' = date /\ amt' = amt.
Proof.
  intros G5 G6 D' D A' A Nn Ln E.
  apply (f_equal (@rev char)) in E.
  replace (name ++ space :: date ++ space :: amt)
    with (name ++ [space] ++ date ++ [space] ++ amt) in E by reflexivity.
  rewrite !rev_app_distr, <- !app_assoc in E.
  change (rev [space]) with [space] in E. cbn [app] in E.
  destruct (date_facts date D) as (Ld & Sd & pd & yd & Ed & Hyd).
  destruct (date_facts date' D') as (Ld' & Sd' & _).
  apply (prefix_unique (fun c => negb (isWhiteSpace c))) in E.
  - destruct E as [Ea E]. apply rev_inj in Ea.
    apply gap_unique in E.
    + destruct E as [Eg6 E].
      apply app_eq_length in E; [|now rewrite !length_rev, Ld, Ld'].
      destruct E as [Edate E]. apply rev_inj in Edate.
      apply gap_unique in E.
      * destruct E as [_ E]. apply rev_inj in E. auto.
      * now apply isGap_rev.
      * destruct (exists_last Nn) as (pn & yn & En). subst name.
        rewrite last_last in Ln. rewrite rev_app_distr. simpl. exact Ln.
    + now apply isGap_rev.
    + subst date. rewrite rev_app_distr. simpl. now apply digit_not_space.
  - apply solid_Forall, solid_rev. now apply amount_solid.
  - apply solid_Forall, solid_rev. now apply amount_solid.
  - apply stops_solid_at_gap. now apply isGap_rev.
  - reflexivity.
Qed.

(** The optional [gov] and the white space around it. *)
Lemma gov_unique g2 gov' g3 cert' x gov cert y :
  isGap g2 = true ->
  match gov' with Some g => isGov g | None => true end = true ->
  isGap0 g3 = true -> isDigitsFrom 4 cert' = true ->
  match gov with Some g => isGov g | None => true end = true ->
  isDigitsFrom 4 cert = true ->
  g2 ++ govText gov' ++ g3 ++ cert' ++ x
  = space :: match gov with Some g => g ++ [space] | None => [] end
      ++ cert ++ y ->
  gov' = gov /\ cert' ++ x = cert ++ y.
Proof.
  intros G2 V' G3 C' V C E.
  destruct (digitsFrom_facts _ _ C') as (_ & _ & c' & w' & Ec' & Hc').
  destruct (digitsFrom_facts _ _ C) as (_ & _ & c & w & Ec & Hc).
  assert (G3all : Forall (fun c => isWhiteSpace c = true) g3)
    by now apply forallb_Forall.
  destruct gov' as [g'|]; destruct gov as [g|]; cbn [govText app] in E.
  - destruct (gov_facts _ V') as (L' & _ & a' & t' & Eg' & Ha').
    destruct (gov_facts _ V) as (L & _ & a & t & Eg & Ha).
    apply gap_unique in E; auto.
    + destruct E as [_ E]. rewrite <- app_assoc in E.
      apply app_eq_length in E; [|congruence].
      destruct E as [-> E]. split; [reflexivity|]. cbn [app] in E.
      destruct g3 as [|s g3'].
      * exfalso. cbn [app] in E. rewrite Ec' in E. inversion E. subst c'.
        discriminate.
      * apply gap_unique in E.
        -- tauto.
        -- unfold isGap. simpl. exact G3.
        -- rewrite Ec. now apply stops_space_at_digit.
    + rewrite <- app_assoc, Eg. now apply stops_space_at_upper.
  - exfalso. destruct (gov_facts _ V') as (_ & _ & a' & t' & Eg' & Ha').
    apply gap_unique in E; auto.
    + destruct E as [_ E]. rewrite Eg', Ec in E. inversion E. subst a'.
      apply upper_not_digit in Ha'. congruence.
    + rewrite Ec. now apply stops_space_at_digit.
  - exfalso. destruct (gov_facts _ V) as (_ & _ & a & t & Eg & Ha).
    destruct (gap_facts g2 G2) as (G2all & s & g2' & -> & _).
    cbn [app] in E. injection E as Hs E'.
    rewrite <- (app_assoc g) in E'. rewrite (app_assoc g2') in E'.
    apply (@prefix_unique isWhiteSpace (g2' ++ g3) [] _ _) in E'.
    + destruct E' as [_ E']. rewrite Ec', Eg in E'. inversion E'. subst a.
      apply upper_not_digit in Ha. congruence.
    + apply Forall_app. split; [now inversion G2all | exact G3all].
    + constructor.
    + rewrite Ec'. now apply stops_space_at_digit.
    + cbn [app]. rewrite Eg. now apply stops_space_at_upper.
  - split; [reflexivity|].
    destruct (gap_facts g2 G2) as (G2all & s & g2' & -> & _).
    cbn [app] in E. injection E as Hs E'.
    rewrite (app_assoc g2') in E'.
    apply (@prefix_unique isWhiteSpace (g2' ++ g3) [] _ _) in E'.
    + tauto.
    + apply Forall_app. split; [now inversion G2all | exact G3all].
    + constructor.
    + rewrite Ec'. now apply stops_space_at_digit.
    + cbn [app]. rewrite Ec. now apply stops_space_at_digit.
Qed.

(** Every reading of a synthesized line by the grammar gives back the
    fields the line was made of. *)
Lemma parts_unique f d :
  validFields f = true -> wellFormed d = true ->
  text d = synthesize f -> rowOf d = rowOfFields f.
Proof.
  intros Hf Hd E. apply valid_parts in Hf. apply wellFormed_parts in Hd.
  destruct Hf as (F1 & F2 & F3 & F4 & F5 & F6 & F7).
  destruct Hd as (D1 & G1 & D2 & G2 & D3 & G3 & D4 & G4 & D5 & G5 & D6 & G6
                  & D7).
  destruct f as [sNo sin gov cert name date amt].
  destruct d as [sNo' g1 sin' g2 gov' g3 cert' g4 name' g5 date' g6 amt'].
  unfold text, synthesize, rowOf, rowOfFields in *. cbn in *.
  destruct (digitsFrom_facts _ _ F1) as (A1 & _).
  destruct (digitsFrom_facts _ _ D1) as (A1' & _).
  apply digits_unique in E; auto. destruct E as [-> E].
  destruct (sin_facts _ F2) as (L2 & _ & c2 & w2 & E2 & Hc2).
  destruct (sin_facts _ D2) as (L2' & _).
  apply gap_unique in E; auto;
    [|rewrite E2; now apply stops_space_at_digit].
  destruct E as [_ E].
  apply app_eq_length in E; [|congruence]. destruct E as [-> E].
  apply gov_unique in E; auto. destruct E as [-> E].
  destruct (digitsFrom_facts _ _ F4) as (A4 & _).
  destruct (digitsFrom_facts _ _ D4) as (A4' & _).
  apply digits_unique in E; auto. destruct E as [-> E].
  destruct (name_facts _ F5) as (_ & _ & N5 & B5 & L5).
  apply gap_unique in E; auto.
  - destruct E as [_ E].
    apply tail_unique in E; auto. destruct E as (-> & -> & ->). reflexivity.
  - destruct name as [|c n]; [congruence|]. simpl. exact B5.
Qed.

(** The parts of a synthesized line. *)
Definition partsOf (f : Fields) : Parts :=
  mkParts (f_studentNo f) [space] (f_sin f) [space] (f_gov f)
          (match f_gov f with Some _ => [space] | None => [] end)
          (f_cert f) [space] (f_name f) [space] (f_eosDate f) [space]
          (f_amount f).

Lemma partsOf_text f : text (partsOf f) = synthesize f.
Proof.
  unfold text, partsOf, synthesize. cbn.
  destruct (f_gov f); cbn; [now rewrite <- app_assoc | reflexivity].
Qed.

Lemma partsOf_wellFormed f :
  validFields f = true -> wellFormed (partsOf f) = true.
Proof.
  intros H. apply valid_parts in H.
  destruct H as (F1 & F2 & F3 & F4 & F5 & F6 & F7).
  apply name_facts in F5. destruct F5 as (F5 & _).
  unfold wellFormed, partsOf. cbn.
  rewrite F1, F2, F3, F4, F5, F6, F7. now destruct (f_gov f).
Qed.

(** A line synthesized from valid fields parses to these fields. *)
Lemma round_trip f :
  validFields f = true -> parseRow (synthesize f) = Some (rowOfFields f).
Proof.
  intros H.
  pose proof (partsOf_wellFormed f H) as Hw.
  pose proof (synthesize_normalized f H) as Hn.
  destruct (parseRow (synthesize f)) as [r|] eqn:E.
  - apply parseRow_Some in E. destruct E as (d & Hd & Ht & ->).
    rewrite Hn in Ht. f_equal. now apply parts_unique.
  - exfalso. apply (parseRow_complete (partsOf f) (synthesize f)); auto.
    now rewrite partsOf_text, Hn.
Qed.

End RoundTrip.

(* ================================================================== *)
(** * The page assembler *)
(* ================================================================== *)

Module PageFacts.

Import Parse.

(** ** Header detection *)

(** The eight keywords of a header line. *)
Definition keywords : list str :=
  [lit "STUDENT"; lit "SIN"; lit "GOV"; lit "CERT"; lit "NAME"; lit "EOS";
   lit "DATE"; lit "AMOUNT"].

(** The line holds the word [k] once its letters are put in upper
    case. *)
Definition holds (line k : str) : Prop :=
  exists pre post, toUpperCase line = pre ++ k ++ post.

(** The line holds, whatever the case of its letters, at least three of
    the keywords: there are three keywords, or more, no two of them the
    same, that it holds. *)
Definition headerLike (line : str) : Prop :=
  exists ks, NoDup ks /\ 3 <= length ks
             /\ forall k, In k ks -> In k keywords /\ holds line k.

Lemma count_filter {A : Type} (p : A -> bool) (l : list A) (n : nat) :
  fold_left (fun n t => if p t then n + 1 else n) l n
  = n + length (filter p l).
Proof.
  revert n. induction l as [|x l IH]; intros n; simpl; [lia|].
  rewrite IH. destruct (p x); simpl; lia.
Qed.

Lemma startsWith_prefix (s p : str) :
  startsWith s p = true <-> exists post, s = p ++ post.
Proof.
  revert s. induction p as [|x p IH]; intros s.
  - split; [intros _; now exists s | now destruct s].
  - destruct s as [|y s]; simpl.
    + split; [discriminate | intros (post & H); discriminate].
    + rewrite andb_true_iff, N.eqb_eq, IH. split.
      * intros (-> & post & ->). now exists post.
      * intros (post & H). inversion H. subst. split; [reflexivity|].
        now exists post.
Qed.

Lemma includes_substring (s t : str) :
  includes s t = true <-> exists pre post, s = pre ++ t ++ post.
Proof.
  induction s as [|c s IH].
  - cbn [includes]. rewrite orb_false_r, startsWith_prefix. split.
    + intros (post & H). now exists [], post.
    + intros (pre & post & H). symmetry in H.
      apply app_eq_nil in H. destruct H as [-> H]. exists post.
      now rewrite H.
  - cbn [includes]. rewrite orb_true_iff, startsWith_prefix, IH. split.
    + intros [(post & H) | (pre & post & H)].
      * now exists [], post.
      * exists (c :: pre), post. now rewrite H.
    + intros ([|x pre] & post & H).
      * left. now exists post.
      * right. inversion H. now exists pre, post.
Qed.

Lemma keywords_NoDup : NoDup keywords.
Proof.
  unfold keywords.
  repeat (constructor;
          [cbn [In]; intros H;
           repeat (destruct H as [H | H]; [discriminate H|]); exact H|]).
  constructor.
Qed.

Lemma looksLikeHeader_spec line :
  looksLikeHeader line = true <-> headerLike line.
Proof.
  unfold looksLikeHeader, headerLike. rewrite count_filter.
  cbn [Nat.add]. rewrite Nat.leb_le.
  change tokens with keywords.
  set (p := fun t => includes (toUpperCase line) t).
  split.
  - intros H. exists (filter p keywords).
    split; [apply NoDup_filter, keywords_NoDup|]. split; [exact H|].
    intros k Hk. apply filter_In in Hk. destruct Hk as [Hin Hp].
    split; [exact Hin|]. now apply includes_substring.
  - intros (ks & Hnd & Hlen & Hks).
    assert (Hincl : incl ks (filter p keywords)).
    { intros k Hk. destruct (Hks k Hk) as [Hin Hh].
      apply filter_In. split; [exact Hin|]. now apply includes_substring. }
    pose proof (NoDup_incl_length Hnd Hincl). lia.
Qed.

Lemma looksLikeHeader_false line :
  looksLikeHeader line = false <-> ~ headerLike line.
Proof.
  rewrite <- looksLikeHeader_spec. destruct (looksLikeHeader line); split;
    congruence.
Qed.

Lemma findIndex_Some {A : Type} (p : A -> bool) (d : A) l i :
  findIndex p l = Some i ->
  i < length l /\ p (nth i l d) = true
  /\ Forall (fun x => p x = false) (firstn i l).
Proof.
  revert i. induction l as [|x l IH]; intros i; simpl; [discriminate|].
  destruct (p x) eqn:E.
  - intros H. inversion H. subst. simpl. repeat split; auto. lia.
  - destruct (findIndex p l) as [j|]; simpl; [|discriminate].
    intros H. inversion H. subst.
    destruct (IH j eq_refl) as (H1 & H2 & H3).
    simpl. repeat split; auto. lia.
Qed.

Lemma findIndex_None {A : Type} (p : A -> bool) l :
  findIndex p l = None -> Forall (fun x => p x = false) l.
Proof.
  induction l as [|x l IH]; simpl; [constructor|].
  destruct (p x) eqn:E; [discriminate|].
  destruct (findIndex p l); [discriminate|]. auto.
Qed.

Lemma Forall_take {A : Type} (P : A -> Prop) n l :
  Forall P l -> Forall P (firstn n l).
Proof.
  intros H. revert n. induction H; intros [|n]; simpl; auto.
Qed.

Lemma not_headerLike_all l :
  Forall (fun x => looksLikeHeader x = false) l ->
  Forall (fun x => ~ headerLike x) l.
Proof.
  apply Forall_impl. intros x. apply looksLikeHeader_false.
Qed.

(** ** The scan below the header line *)

(** The lines before the first one the totals detector recognizes. *)
Fixpoint beforeTotals (lines : list str) : list str :=
  match lines with
  | [] => []
  | ln :: tl =>
    match parseTotals ln with
    | Some _ => []
    | None => ln :: beforeTotals tl
    end
  end.

(** The rows of the lines that parse as rows, in the order of the
    lines. *)
Definition rowsOf (lines : list str) : list ParsedRow :=
  flat_map (fun ln => match parseRow ln with Some r => [r] | None => [] end)
           lines.

Lemma scan_spec lines acc :
  scan lines acc
  = (acc ++ rowsOf (beforeTotals lines),
     match skipn (length (beforeTotals lines)) lines with
     | ln :: _ => parseTotals ln
     | [] => None
     end).
Proof.
  revert acc. induction lines as [|ln tl IH]; intros acc; simpl.
  - now rewrite app_nil_r.
  - destruct (parseTotals ln) eqn:E; simpl.
    + now rewrite app_nil_r, E.
    + destruct (parseRow ln); rewrite IH; simpl; auto.
      now rewrite <- app_assoc.
Qed.

Lemma beforeTotals_prefix lines :
  lines = beforeTotals lines ++ skipn (length (beforeTotals lines)) lines
  /\ Forall (fun ln => parseTotals ln = None) (beforeTotals lines).
Proof.
  induction lines as [|ln tl [IH1 IH2]]; simpl; auto.
  destruct (parseTotals ln) eqn:E; simpl; auto.
  split; [now rewrite <- IH1 | auto].
Qed.

Lemma parseFromLines_fields lines pageIndex :
  let clean := cleanLines lines in
  let i := headerIndex clean in
  let p := parseFromLines lines pageIndex in
  headerLines p = Some (firstn i clean)
  /\ columns p = Some (splitColumns (nth i clean []))
  /\ rows p = rowsOf (beforeTotals (skipn (i + 1) clean))
  /\ totals p
     = match skipn (length (beforeTotals (skipn (i + 1) clean)))
                   (skipn (i + 1) clean) with
       | ln :: _ => parseTotals ln
       | [] => None
       end.
Proof.
  intros clean i p. unfold p, parseFromLines. fold clean. fold i.
  rewrite scan_spec. simpl. auto.
Qed.

End PageFacts.

(* ================================================================== *)
(** * The workbook assembler *)
(* ================================================================== *)

Module SheetFacts.

Import MakeExcel.

(** ** Names in use *)

Lemma eqb_eq (a b : str) : Str.eqb a b = true <-> a = b.
Proof.
  revert b. induction a as [|x a IH]; intros [|y b]; simpl;
    try (split; [discriminate | congruence]); [tauto|].
  rewrite andb_true_iff, N.eqb_eq, IH. split.
  - now intros [-> ->].
  - intros H. inversion H. auto.
Qed.

Lemma has_In used x : has used x = true <-> In x used.
Proof.
  unfold has. rewrite existsb_exists. split.
  - intros (y & Hy & E). apply eqb_eq in E. now subst.
  - intros H. exists x. split; [exact H | now apply eqb_eq].
Qed.

Lemma has_false used x : has used x = false <-> ~ In x used.
Proof.
  rewrite <- has_In. destruct (has used x); split; congruence.
Qed.

Lemma In_add used x y : In y (add used x) <-> In y used \/ y = x.
Proof.
  unfold add. destruct (has used x) eqn:E.
  - apply has_In in E. split; [auto|]. intros [H | ->]; auto.
  - rewrite in_app_iff. simpl. split; intros [H | H]; auto.
    + destruct H as [H | []]; auto.
Qed.

Lemma lit_inj a b : lit a = lit b -> a = b.
Proof.
  unfold lit. intros H.
  rewrite <- (string_of_list_ascii_of_string a),
          <- (string_of_list_ascii_of_string b).
  f_equal. revert H.
  generalize (list_ascii_of_string a) (list_ascii_of_string b).
  induction l as [|x l IH]; intros [|y l']; simpl; try discriminate; auto.
  intros H. inversion H as [[Hx Hl]]. f_equal; auto.
  rewrite <- (ascii_N_embedding x), <- (ascii_N_embedding y). now rewrite Hx.
Qed.

Lemma ofNat_inj n m : Str.ofNat n = Str.ofNat m -> n = m.
Proof.
  unfold Str.ofNat. intros H. apply lit_inj in H.
  apply Unsigned.to_uint_inj.
  pose proof (NilEmpty.usu (Nat.to_uint n)) as Hn.
  pose proof (NilEmpty.usu (Nat.to_uint m)) as Hm.
  rewrite H in Hn. congruence.
Qed.

Lemma numbered_inj base n m : numbered base n = numbered base m -> n = m.
Proof.
  unfold numbered. intros H.
  apply app_inv_head in H. apply app_inv_head in H.
  apply app_inv_tail in H. now apply ofNat_inj.
Qed.

Lemma NoDup_map_injective {A B : Type} (f : A -> B) (l : list A) :
  (forall a b, f a = f b -> a = b) -> NoDup l -> NoDup (map f l).
Proof.
  intros Hf H. induction H as [|x l Hx _ IH]; simpl; constructor; auto.
  intros Hin. apply in_map_iff in Hin. destruct Hin as (y & E & Hy).
  apply Hf in E. now subst.
Qed.

(** ** The loop of [uniqueSheetName] ends *)

Lemma whileUsed_None fuel base used :
  forall name n,
    whileUsed fuel base used name n = None ->
    In name used /\ forall j, j < fuel -> In (numbered base (n + j)) used.
Proof.
  induction fuel as [|fuel IH]; intros name n; simpl;
    destruct (has used name) eqn:E; try discriminate; intros H;
    apply has_In in E; (split; [exact E|]); intros j Hj; [lia|].
  destruct (IH _ _ H) as [H0 Hrest].
  destruct j as [|j].
  - now rewrite Nat.add_0_r.
  - replace (n + S j) with (S n + j) by lia. apply Hrest. lia.
Qed.

Lemma whileUsed_fresh fuel base used :
  forall name n x,
    whileUsed fuel base used name n = Some x -> ~ In x used.
Proof.
  induction fuel as [|fuel IH]; intros name n x; simpl;
    destruct (has used name) eqn:E; try discriminate.
  - intros H. inversion H. subst. now apply has_false.
  - apply IH.
  - intros H. inversion H. subst. now apply has_false.
Qed.

Lemma uniqueSheetName_total base used :
  exists name,
    uniqueSheetName base used = Some (name, add used name)
    /\ ~ In name used.
Proof.
  unfold uniqueSheetName.
  destruct (whileUsed (rounds used) base used base 2) as [name|] eqn:E.
  - exists name. split; [reflexivity|]. eapply whileUsed_fresh; eauto.
  - exfalso. apply whileUsed_None in E. destruct E as [_ H].
    unfold rounds in H.
    assert (Hincl : incl (map (fun j => numbered base (2 + j))
                              (List.seq 0 (S (length used)))) used).
    { intros x Hx. apply in_map_iff in Hx. destruct Hx as (j & <- & Hj).
      apply in_seq in Hj. apply H. lia. }
    assert (Hnd : NoDup (map (fun j => numbered base (2 + j))
                             (List.seq 0 (S (length used))))).
    { apply NoDup_map_injective; [|apply seq_NoDup].
      intros a b Hab. apply numbered_inj in Hab. lia. }
    pose proof (NoDup_incl_length Hnd Hincl) as Hlen.
    rewrite length_map, length_seq in Hlen. lia.
Qed.

(** ** A sheet is asked for every page, under a name of its own *)

Section Sheets.

Variable loc : locale.

Lemma addPage_total page idx used :
  exists ws,
    addPage loc page idx used = Some (ws, add used (wsName ws))
    /\ ~ In (wsName ws) used.
Proof.
  unfold addPage.
  destruct (uniqueSheetName_total
              (safeSheetName (VString (intendedName page idx)) idx) used)
    as (name & -> & Hfresh).
  destruct (headerLineOps _ _ _) as [ops1 r1].
  destruct (dataOps loc _ _ _) as [ops2 r2].
  exists (mkSheet name (columnsOf (headersOf page))
                  (ops1 ++ ops2
                        ++ totalsOps loc page (length (headersOf page)) (r2 + 1))).
  split; [reflexivity|]. exact Hfresh.
Qed.

Lemma addPages_names pages :
  forall idx used,
    exists wss,
      addPages loc pages idx used = Some wss
      /\ length wss = length pages
      /\ NoDup (map wsName wss)
      /\ Forall (fun ws => ~ In (wsName ws) used) wss.
Proof.
  induction pages as [|page ps IH]; intros idx used; simpl.
  - exists []. repeat split; constructor.
  - destruct (addPage_total page idx used) as (ws & -> & Hfresh).
    destruct (IH (idx + 1) (add used (wsName ws)))
      as (wss & -> & Hlen & Hnd & Hout).
    exists (ws :: wss). simpl. repeat split; auto.
    + constructor; [|exact Hnd].
      intros Hin. apply in_map_iff in Hin. destruct Hin as (w & Hw & Hin).
      rewrite Forall_forall in Hout. apply (Hout w Hin).
      apply In_add. right. exact Hw.
    + constructor; [exact Hfresh|].
      eapply Forall_impl; [|exact Hout]. intros w Hw Hin.
      apply Hw, In_add. now left.
Qed.

End Sheets.

(** ** The form and the length of a name *)

Lemma whileUsed_form fuel base used :
  forall name n x,
    whileUsed fuel base used name n = Some x ->
    x = name
    \/ (In name used
        /\ exists k, n <= k /\ x = numbered base k
                     /\ forall j, n <= j < k -> In (numbered base j) used).
Proof.
  induction fuel as [|fuel IH]; intros name n x; simpl;
    destruct (has used name) eqn:E; try discriminate.
  - intros H. inversion H. auto.
  - intros H. apply IH in H. apply has_In in E. right. split; [exact E|].
    destruct H as [-> | (Hin & k & Hk & -> & Hall)].
    + exists n. split; [lia|]. split; [reflexivity|]. intros j Hj. lia.
    + exists k. split; [lia|]. split; [reflexivity|]. intros j Hj.
      destruct (Nat.eq_dec j n) as [-> | Hn]; [exact Hin|].
      apply Hall. lia.
  - intros H. inversion H. auto.
Qed.

(** The name given is the base, or the base is in use and the name is
    the first free one among [stem (2)], [stem (3)], ... *)
Lemma uniqueSheetName_form base used name used' :
  uniqueSheetName base used = Some (name, used') ->
  used' = add used name /\ ~ In name used
  /\ (name = base
      \/ (In base used
          /\ exists k, 2 <= k /\ name = numbered base k
                       /\ forall j, 2 <= j < k ->
                                    In (numbered base j) used)).
Proof.
  unfold uniqueSheetName.
  destruct (whileUsed (rounds used) base used base 2) as [x|] eqn:E;
    [|discriminate].
  intros H. inversion H. subst. split; [reflexivity|].
  split; [eapply whileUsed_fresh; eauto|].
  now apply whileUsed_form in E.
Qed.

Lemma safeSheetName_length raw idx : length (safeSheetName raw idx) <= 31.
Proof.
  unfold safeSheetName.
  match goal with
  | |- length (if 31 <? length ?s then _ else _) <= 31 =>
    destruct (31 <? length s) eqn:E
  end.
  - unfold Str.slice0. rewrite length_firstn. lia.
  - apply Nat.ltb_ge in E. exact E.
Qed.

Lemma numbered_length base k :
  length (numbered base k)
  = Nat.min 27 (length base) + 3 + length (Str.ofNat k).
Proof.
  unfold numbered, Str.slice0. rewrite !length_app, length_firstn.
  simpl. lia.
Qed.

Lemma numbered_one_digit base k :
  k < 10 -> length (numbered base k) <= 31.
Proof.
  intros H. rewrite numbered_length.
  assert (Hk : length (Str.ofNat k) = 1).
  { do 10 (destruct k as [|k]; [reflexivity|]). lia. }
  lia.
Qed.

(** ** The names depend on the intended names only *)

Section SameNames.

Variable loc : locale.

Lemma addPage_name page idx used :
  option_map (fun r => (wsName (fst r), snd r)) (addPage loc page idx used)
  = uniqueSheetName (safeSheetName (VString (intendedName page idx)) idx)
                    used.
Proof.
  unfold addPage.
  destruct (uniqueSheetName _ used) as [[name used']|]; [|reflexivity].
  destruct (headerLineOps _ _ _) as [ops1 r1].
  destruct (dataOps loc _ _ _) as [ops2 r2]. reflexivity.
Qed.

Lemma addPages_same_names pages pages' :
  Forall2 (fun p p' => forall idx, intendedName p idx = intendedName p' idx)
          pages pages' ->
  forall idx used,
    option_map (map wsName) (addPages loc pages idx used)
    = option_map (map wsName) (addPages loc pages' idx used).
Proof.
  induction 1 as [|p p' ps ps' Hp _ IH]; intros idx used; [reflexivity|].
  simpl.
  pose proof (addPage_name p idx used) as H1.
  pose proof (addPage_name p' idx used) as H2.
  rewrite <- (Hp idx), <- H1 in H2.
  destruct (addPage loc p idx used) as [[ws u]|],
           (addPage loc p' idx used) as [[ws' u']|]; simpl in H2;
    try discriminate; [|reflexivity].
  inversion H2 as [[Hn Hu]]. subst u'.
  specialize (IH (idx + 1) u).
  destruct (addPages loc ps (idx + 1) u), (addPages loc ps' (idx + 1) u);
    simpl in *; try discriminate; [|reflexivity].
  inversion IH. now rewrite Hn.
Qed.

End SameNames.

(** ** Coercion to a number *)

Lemma finite_or_zero n : isFinite (if isFinite n then n else zero) = true.
Proof. destruct (isFinite n) eqn:E; auto. Qed.

Lemma toNumber_finite v : isFinite (toNumber v) = true.
Proof. destruct v; apply finite_or_zero. Qed.

Lemma parse_toNumber_finite v : isFinite (Parse.toNumber v) = true.
Proof. destruct v; apply finite_or_zero. Qed.

Lemma sumAmounts_fold rows :
  sumAmounts rows
  = fold_left Num.add (map (fun r => toNumber (amount r)) rows) zero.
Proof.
  unfold sumAmounts. generalize zero.
  induction rows as [|r rs IH]; intros acc; simpl; auto.
Qed.

End SheetFacts.

(* ================================================================== *)
(** * Properties of the specification *)
(* ================================================================== *)

Import Parse MakeExcel.

(** C6. On every sequence of lines the header detector returns the index
    of the first line that holds at least three of the eight keywords
    STUDENT, SIN, GOV, CERT, NAME, EOS, DATE and AMOUNT, whatever the
    case of the letters; without such a line it returns
    [min(4, lineCount)]; and the lines before that index, as they are, are
    the [headerLines] of the page.  A line with two keywords is passed
    over for the first one with three; five lines without keywords give
    the index 4, and two lines of which none has three keywords the
    index 2. *)
Theorem header_detector_first_header_like :
  (forall clean : list str,
      let i := headerIndex clean in
      Forall (fun ln => ~ PageFacts.headerLike ln) (firstn i clean)
      /\ ((i < length clean /\ PageFacts.headerLike (nth i clean []))
          \/ (Forall (fun ln => ~ PageFacts.headerLike ln) clean
              /\ i = Nat.min 4 (length clean))))
  /\ (forall (lines : list str) (pageIndex : Z),
         headerLines (parseFromLines lines pageIndex)
         = Some (firstn (headerIndex (cleanLines lines)) (cleanLines lines)))
  /\ headerIndex [lit "ACME COLLEGE"; lit "Student name";
                  lit "Student No  Sin  Gov"; lit "EOS DATE AMOUNT"] = 2
  /\ headerIndex [lit "a"; lit "b"; lit "c"; lit "d"; lit "e"] = 4
  /\ headerIndex [lit "a"; lit "STUDENT SIN"] = 2.
Proof.
  split; [|split; [|repeat split; vm_compute; reflexivity]].
  - intros clean i. split.
    + unfold i, headerIndex.
      destruct (findIndex looksLikeHeader clean) as [j|] eqn:E.
      * apply (PageFacts.findIndex_Some _ []) in E.
        apply PageFacts.not_headerLike_all, E.
      * apply PageFacts.findIndex_None in E.
        apply PageFacts.not_headerLike_all, PageFacts.Forall_take, E.
    + unfold i, headerIndex.
      destruct (findIndex looksLikeHeader clean) as [j|] eqn:E.
      * left. apply (PageFacts.findIndex_Some _ []) in E.
        destruct E as (H1 & H2 & _). split; [exact H1|].
        now apply PageFacts.looksLikeHeader_spec.
      * right. split; [|reflexivity].
        apply PageFacts.not_headerLike_all, PageFacts.findIndex_None, E.
  - intros lines pageIndex. apply PageFacts.parseFromLines_fields.
Qed.

(** C7. The rows of a page are the rows parsed from the lines after the
    header index and before the first line the totals detector
    recognizes, in the order of the lines; that line gives the totals of
    the page, it is tested before the row parser, and no line at or after
    it gives a row. *)
Theorem page_rows_before_first_totals :
  forall (lines : list str) (pageIndex : Z),
    let clean := cleanLines lines in
    let below := skipn (headerIndex clean + 1) clean in
    let kept := PageFacts.beforeTotals below in
    let p := parseFromLines lines pageIndex in
    rows p = PageFacts.rowsOf kept
    /\ below = kept ++ skipn (length kept) below
    /\ Forall (fun ln => parseTotals ln = None) kept
    /\ match skipn (length kept) below with
       | ln :: _ => parseTotals ln <> None /\ totals p = parseTotals ln
       | [] => totals p = None
       end.
Proof.
  intros lines pageIndex clean below kept p.
  destruct (PageFacts.parseFromLines_fields lines pageIndex)
    as (_ & _ & Hrows & Htot).
  destruct (PageFacts.beforeTotals_prefix below) as [Hsplit Hnone].
  fold clean in Hrows, Htot. fold below in Hrows, Htot.
  fold kept in Hrows, Htot, Hsplit, Hnone. fold p in Hrows, Htot.
  repeat split; auto.
  destruct (skipn (length kept) below) as [|ln tl] eqn:E; [exact Htot|].
  split; [|exact Htot].
  clear - E. subst kept. revert E.
  induction below as [|x xs IH]; simpl; [discriminate|].
  destruct (parseTotals x) eqn:Ex; simpl.
  - intros H. inversion H. subst. congruence.
  - exact IH.
Qed.

(** A page with a name that is not empty and with three labels or more,
    which the assembler takes as its headers. *)
Definition namedWithColumns (p : ParsedPage) : Prop :=
  (exists s, sheetName p = Some s /\ s <> [])
  /\ (exists cols, columns p = Some cols /\ 3 <= length cols
                   /\ hasColumns p = true /\ headersOf p = cols).

(** C10. For every text, the empty one too, and every page index the
    page parser returns a page whose [sheetName] is a string that is not
    empty and whose [columns] hold at least three labels: the labels split
    from the header line or the seven canonical ones; so the workbook
    assembler never falls back to its default headers for such a page. *)
Theorem parsed_page_has_name_and_columns :
  (forall (lines : list str) (pageIndex : Z),
      namedWithColumns (parseFromLines lines pageIndex))
  /\ (forall (rawText : str) (pageIndex : Z),
         namedWithColumns (parseDisbursementPageFromText rawText pageIndex))
  /\ (forall (canvas : Type) (ocrCanvas : canvas -> str) (c : canvas)
             (pageIndex : Z),
         namedWithColumns
           (parseDisbursementPageFromCanvas ocrCanvas c pageIndex))
  /\ sheetName (parseDisbursementPageFromText [] 7) = Some (lit "Page 7")
  /\ columns (parseDisbursementPageFromText [] 7) = Some canonicalColumns.
Proof.
  assert (H : forall lines pageIndex,
             namedWithColumns (parseFromLines lines pageIndex)).
  { intros lines pageIndex. split.
    - unfold parseFromLines.
      destruct (scan _ _) as [rs ts]. simpl sheetName.
      set (clean := cleanLines lines).
      destruct (firstn (headerIndex clean) clean) as [|h tl] eqn:E.
      + eexists. split; [reflexivity|]. discriminate.
      + assert (Hin : In h clean).
        { assert (In h (firstn (headerIndex clean) clean))
            by (rewrite E; now left).
          rewrite <- (firstn_skipn (headerIndex clean) clean).
          apply in_or_app. now left. }
        unfold clean, cleanLines in Hin. apply filter_In in Hin.
        destruct Hin as [_ Ht]. rewrite Ht.
        exists h. split; [reflexivity|]. now destruct h.
    - destruct (PageFacts.parseFromLines_fields lines pageIndex)
        as (_ & Hcols & _).
      set (hl := nth _ _ _) in Hcols.
      assert (Hlen : 3 <= length (splitColumns hl)).
      { unfold splitColumns. destruct (3 <=? length _) eqn:E.
        - now apply Nat.leb_le.
        - simpl. lia. }
      exists (splitColumns hl). split; [exact Hcols|]. split; [exact Hlen|].
      unfold headersOf, hasColumns. rewrite Hcols.
      destruct (splitColumns hl) as [|c cs]; [simpl in Hlen; lia|].
      split; [reflexivity|]. simpl. now rewrite map_id. }
  split; [exact H|]. split; [intros; apply H|]. split; [intros; apply H|].
  split; vm_compute; reflexivity.
Qed.

(** The totals line of the specification. *)
Definition totalsLine : str := lit "TOTAL 12 $26,460.00".

(** C1. The count of a totals line is the number of the leftmost run of
    one to four digits that has no letter, digit or underscore next to
    it and no other such run after it on its line; without such a run
    there is no count.  On the line ["TOTAL 12 $26,460.00"] the totals
    detector finds the amount 26460, and as count the ["00"] of the
    amount, at index 17: the 12 in front of the amount has the runs of
    the amount after it. *)
Theorem totals_example_count_is_the_cents :
  (forall (line : str) (t : ParsedTotals),
      parseTotals line = Some t ->
      match count t with
      | Some c =>
        exists pre d post,
          line = pre ++ d ++ post /\ c = ofString d
          /\ TotalsFacts.countAt pre d post
          /\ forall pre' d' post',
              line = pre' ++ d' ++ post' ->
              TotalsFacts.countAt pre' d' post' ->
              length pre <= length pre'
      | None =>
        forall pre d post,
          line = pre ++ d ++ post -> ~ TotalsFacts.countAt pre d post
      end)
  /\ parseTotals totalsLine
     = Some (mkTotals (Some (ofZ 0)) (VNumber (ofZ 26460)))
  /\ option_map (fun m => (index m, group m 1)) (exec rxCount totalsLine)
     = Some (17, Some (lit "00"))
  /\ TotalsFacts.countAt (lit "TOTAL 12 $26,460.") (lit "00") []
  /\ ~ TotalsFacts.countAt (lit "TOTAL ") (lit "12") (lit " $26,460.00")
  /\ ofZ 0 <> ofZ 12.
Proof.
  split; [exact TotalsFacts.count_last_bare_integer|].
  split; [vm_compute; reflexivity|].
  split; [vm_compute; reflexivity|].
  split; [|split].
  - split.
    + repeat split; vm_compute; (reflexivity || lia).
    + intros u e v H _ (Hl & _).
      symmetry in H. apply app_eq_nil in H. destruct H as [_ H].
      apply app_eq_nil in H. destruct H as [-> _]. simpl in Hl. lia.
  - intros [_ H].
    apply (H (lit " $") (lit "26") (lit ",460.00")); [reflexivity ..|].
    repeat split; vm_compute; (reflexivity || lia).
  - vm_compute. discriminate.
Qed.

Lemma totals_example_count_is_the_cents_witness :
  parseTotals totalsLine
  = Some (mkTotals (Some (ofZ 0)) (VNumber (ofZ 26460)))
  /\ exists pre d post,
      totalsLine = pre ++ d ++ post /\ ofZ 0 = ofString d
      /\ TotalsFacts.countAt pre d post
      /\ forall pre' d' post',
          totalsLine = pre' ++ d' ++ post' ->
          TotalsFacts.countAt pre' d' post' ->
          length pre <= length pre'.
Proof.
  split; [vm_compute; reflexivity|].
  apply (proj1 totals_example_count_is_the_cents totalsLine
               (mkTotals (Some (ofZ 0)) (VNumber (ofZ 26460)))).
  vm_compute. reflexivity.
Defined.

(** A page named with 31 letters, and ten of them. *)
Definition longName : str := lit "AAAAAAAAAAAAAAAAAAAAAAAAAAAAAAA".
Definition tenPages : list ParsedPage :=
  repeat (mkPage (Some longName) None None [] None) 10.

(** C2. The assembler asks for one sheet per page, and the names it
    asks them under are pairwise distinct.  A name is the sanitized
    base, of 31 characters at most, or, when the base is in use, the
    first 27 characters of the base followed by [" (k)"] for the first
    [k] from 2 on that gives a name not in use; the names depend on the
    intended names of the pages, in their order, only.  A name with [k]
    below 10 has 31 characters at most; but the name for the tenth of
    ten pages with one 31-letter name is the first 27 letters followed
    by [" (10)"], 32 characters. *)
Theorem sheet_names_distinct_tenth_too_long :
  (forall (loc : locale) (pages : list ParsedPage),
      exists wss, requests loc pages = Some wss
                  /\ length wss = length pages
                  /\ NoDup (map wsName wss))
  /\ (forall (base : str) (used : StrSet),
         exists name,
           uniqueSheetName base used = Some (name, add used name)
           /\ ~ In name used
           /\ (name = base
               \/ (In base used
                   /\ exists k, 2 <= k /\ name = numbered base k
                                /\ forall j, 2 <= j < k ->
                                             In (numbered base j) used)))
  /\ (forall (raw : value) (idx : nat), length (safeSheetName raw idx) <= 31)
  /\ (forall (base : str) (k : nat),
         k < 10 -> length (numbered base k) <= 31)
  /\ (forall (loc : locale) (pages pages' : list ParsedPage),
         Forall2 (fun p p' =>
                    forall idx, intendedName p idx = intendedName p' idx)
                 pages pages' ->
         option_map (map wsName) (requests loc pages)
         = option_map (map wsName) (requests loc pages'))
  /\ (forall loc : locale,
         exists wss, requests loc tenPages = Some wss
                  /\ map (fun ws => length (wsName ws)) wss
                     = [31; 31; 31; 31; 31; 31; 31; 31; 31; 32]
                  /\ option_map wsName (nth_error wss 9)
                     = Some (lit "AAAAAAAAAAAAAAAAAAAAAAAAAAA (10)")).
Proof.
  split; [|split; [|split; [|split; [|split]]]].
  - intros loc pages.
    destruct (SheetFacts.addPages_names loc pages 0 [])
      as (wss & H1 & H2 & H3 & _).
    exists wss. auto.
  - intros base used.
    destruct (SheetFacts.uniqueSheetName_total base used) as (name & H & _).
    exists name. split; [exact H|].
    now apply SheetFacts.uniqueSheetName_form in H.
  - exact SheetFacts.safeSheetName_length.
  - exact SheetFacts.numbered_one_digit.
  - intros loc pages pages' H. now apply SheetFacts.addPages_same_names.
  - intros loc. eexists. split; [vm_compute; reflexivity|].
    split; vm_compute; reflexivity.
Qed.

Lemma sheet_names_distinct_tenth_too_long_witness :
  9 < 10 /\ length (numbered longName 9) <= 31.
Proof.
  split; [lia|].
  apply (proj1 (proj2 (proj2 (proj2 sheet_names_distinct_tenth_too_long)))).
  lia.
Defined.

(** A row whose amount is not a number. *)
Definition rowNA : ParsedRow :=
  mkRow None None None None None None (VString (lit "N/A")) [].

(** C3. A cell is a currency cell exactly when its label, in upper case,
    holds ["AMOUNT"]; a currency cell always shows ["$"] and the coerced
    number with two decimals in the form of the default locale, in en-US
    with a comma between the thousands, and never the raw text: a row
    whose amount is ["N/A"] shows ["$0.00"]. *)
Theorem currency_cell_never_shows_raw_text :
  (forall (loc : locale) (r : ParsedRow) (h : str),
      isCurrency h = includes (toUpperCase h) (lit "AMOUNT")
      /\ cellValue loc r h
         = if isCurrency h
           then VString (lit "$"
                             ++ fmtMoney loc (MakeExcel.toNumber (rawOf r h)))
           else VString (asString (rawOf r h)))
  /\ rawOf rowNA (lit "AMOUNT") = VString (lit "N/A")
  /\ cellValue enUS rowNA (lit "AMOUNT") = VString (lit "$0.00")
  /\ fmtMoney enUS (ofZ 1234567) = lit "1,234,567.00".
Proof.
  split; [|split; [|split]].
  - intros loc r h. split; [reflexivity|].
    unfold cellValue. destruct (isCurrency h); [|reflexivity].
    now rewrite SheetFacts.toNumber_finite.
  - vm_compute. reflexivity.
  - vm_compute. reflexivity.
  - vm_compute. reflexivity.
Qed.

(** The example line of the specification and its row. *)
Definition exampleLine : str :=
  lit "000123 123-456-789 ON 45678 DOE JOHN 08/09/23 $2,205.00".
Definition exampleRow : ParsedRow :=
  mkRow (Some (lit "000123")) (Some (lit "123-456-789")) (Some (lit "ON"))
        (Some (lit "45678")) (Some (lit "DOE JOHN")) (Some (lit "08/09/23"))
        (VString (lit "$2,205.00")) [].

(** C5. The row parser reads the example line into its seven fields; it
    returns no row exactly for the lines that, once normalized, are not a
    row of the grammar from the first to the last character; and a row it
    returns holds every field of the line, [gov] being absent exactly when
    the line has none. *)
Theorem row_parser_example_and_all_or_nothing :
  parseRow exampleLine = Some exampleRow
  /\ (forall line : str,
         parseRow line = None <-> ~ RowFacts.RowGrammar (normalize line))
  /\ (forall (line : str) (r : ParsedRow),
         parseRow line = Some r ->
         exists d, RowFacts.wellFormed d = true
                   /\ RowFacts.text d = normalize line
                   /\ r = RowFacts.rowOf d).
Proof.
  split; [|split].
  - vm_compute. reflexivity.
  - intros line. split.
    + intros H (d & Hd & Ht).
      now apply (RowFacts.parseRow_complete d line Hd Ht).
    + intros H. destruct (parseRow line) as [r|] eqn:E; [|reflexivity].
      exfalso. apply H. apply RowFacts.parseRow_Some in E.
      destruct E as (d & Hd & Ht & _). now exists d.
  - intros line r. apply RowFacts.parseRow_Some.
Qed.

Lemma row_parser_example_and_all_or_nothing_witness :
  parseRow exampleLine = Some exampleRow
  /\ exists d, RowFacts.wellFormed d = true
               /\ RowFacts.text d = normalize exampleLine
               /\ exampleRow = RowFacts.rowOf d.
Proof.
  split; [vm_compute; reflexivity|].
  apply (proj2 (proj2 row_parser_example_and_all_or_nothing)
               exampleLine exampleRow).
  vm_compute. reflexivity.
Defined.

(** C9. The coercion to a number always gives a finite number, 0 where
    the value does not read as a finite number; and the amount of a row
    the row parser returns coerces to a number that is not negative and
    is the number value of a whole number of hundredths. *)
Theorem coercion_total_and_row_amounts_two_decimal :
  (forall v : value,
      isFinite (Parse.toNumber v) = true
      /\ isFinite (MakeExcel.toNumber v) = true)
  /\ (forall s : str,
         isFinite (numberOr0 (replaceAll rxStrip (lit "") s)) = false ->
         Parse.toNumber (VString s) = zero
         /\ MakeExcel.toNumber (VString s) = zero)
  /\ (forall x : number,
         isFinite x = false ->
         Parse.toNumber (VNumber x) = zero
         /\ MakeExcel.toNumber (VNumber x) = zero)
  /\ Parse.toNumber (VString (lit "n/a")) = zero
  /\ Parse.toNumber (VString (lit "1e999")) = zero
  /\ Parse.toNumber VUndefined = zero
  /\ (forall (line : str) (r : ParsedRow),
         parseRow line = Some r ->
         exists a, amount r = VString a
                   /\ RowFacts.isAmount a = true
                   /\ AmountFacts.twoDecimals (Parse.toNumber (amount r))
                   /\ isNonNegative (Parse.toNumber (amount r)) = true
                   /\ MakeExcel.toNumber (amount r)
                      = Parse.toNumber (amount r)).
Proof.
  split; [|split; [|split; [|split; [|split; [|split]]]]].
  - intros v. split.
    + apply SheetFacts.parse_toNumber_finite.
    + apply SheetFacts.toNumber_finite.
  - intros s H. unfold Parse.toNumber, MakeExcel.toNumber, String_, asString.
    now rewrite H.
  - intros x H. unfold Parse.toNumber, MakeExcel.toNumber. now rewrite H.
  - vm_compute. reflexivity.
  - vm_compute. reflexivity.
  - vm_compute. reflexivity.
  - intros line r H. apply RowFacts.parseRow_Some in H.
    destruct H as (d & Hd & _ & ->).
    apply RowFacts.wellFormed_parts in Hd.
    destruct Hd as (_ & _ & _ & _ & _ & _ & _ & _ & _ & _ & _ & _ & Ha).
    exists (RowFacts.p_amount d). simpl amount.
    destruct (AmountFacts.amount_toNumber _ Ha) as (H1 & H2 & H3). auto.
Qed.

Lemma coercion_total_and_row_amounts_two_decimal_witness :
  parseRow exampleLine = Some exampleRow
  /\ exists a,
      amount exampleRow = VString a
      /\ RowFacts.isAmount a = true
      /\ AmountFacts.twoDecimals (Parse.toNumber (amount exampleRow))
      /\ isNonNegative (Parse.toNumber (amount exampleRow)) = true
      /\ MakeExcel.toNumber (amount exampleRow)
         = Parse.toNumber (amount exampleRow).
Proof.
  split; [vm_compute; reflexivity|].
  apply (proj2 (proj2 (proj2 (proj2 (proj2 (proj2
           coercion_total_and_row_amounts_two_decimal)))))
           exampleLine exampleRow).
  vm_compute. reflexivity.
Defined.

(** Field sets: the one of the example line, and four that are valid as
    the specification words them: a [gov] in lower case, a name with two
    spaces in a row, an empty name, and a name that ends with a form
    feed. *)
Definition exampleFields : RoundTrip.Fields :=
  RoundTrip.mkFields (lit "000123") (lit "123-456-789") (Some (lit "ON"))
                     (lit "45678") (lit "DOE JOHN") (lit "08/09/23")
                     (lit "$2,205.00").
Definition fieldsLowerGov : RoundTrip.Fields :=
  RoundTrip.mkFields (lit "000123") (lit "123-456-789") (Some (lit "on"))
                     (lit "45678") (lit "DOE JOHN") (lit "08/09/23")
                     (lit "$2,205.00").
Definition fieldsTwoSpaces : RoundTrip.Fields :=
  RoundTrip.mkFields (lit "000123") (lit "123-456-789") None
                     (lit "45678") (lit "DOE  JOHN") (lit "08/09/23")
                     (lit "2,205.00").
Definition fieldsNoName : RoundTrip.Fields :=
  RoundTrip.mkFields (lit "000123") (lit "123-456-789") None
                     (lit "45678") [] (lit "08/09/23") (lit "2,205.00").
Definition fieldsFormFeed : RoundTrip.Fields :=
  RoundTrip.mkFields (lit "000123") (lit "123-456-789") None
                     (lit "45678") (lit "DOE" ++ [12%N]) (lit "08/09/23")
                     (lit "2,205.00").

(** C4, as amended.  A line made of a student number of three digits or
    more, a SIN [ddd-ddd-ddd], possibly a [gov] of two capital letters
    A-Z, a certificate number of four digits or more, a name, a date
    [dd/dd/dd] and an amount, joined by single spaces, parses to these
    fields, when the name has a character, no line terminator, tab or
    non-breaking space, no two spaces in a row and no white space at its
    ends. *)
Theorem synthesized_line_round_trips :
  forall f : RoundTrip.Fields,
    RoundTrip.validFields f = true ->
    parseRow (RoundTrip.synthesize f) = Some (RoundTrip.rowOfFields f).
Proof. exact RoundTrip.round_trip. Qed.

Lemma synthesized_line_round_trips_witness :
  RoundTrip.validFields exampleFields = true
  /\ parseRow (RoundTrip.synthesize exampleFields)
     = Some (RoundTrip.rowOfFields exampleFields).
Proof.
  split; [reflexivity|]. apply synthesized_line_round_trips. reflexivity.
Defined.

(** C4, as the specification words it, fails: with a [gov] in lower case
    and with an empty name the line is no row; two spaces in a name come
    back as one; a form feed at the end of a name is lost. *)
Lemma round_trip_fails_as_worded :
  (RoundTrip.validFieldsAsWorded fieldsLowerGov = true
   /\ parseRow (RoundTrip.synthesize fieldsLowerGov) = None)
  /\ (RoundTrip.validFieldsAsWorded fieldsNoName = true
      /\ parseRow (RoundTrip.synthesize fieldsNoName) = None)
  /\ (RoundTrip.validFieldsAsWorded fieldsTwoSpaces = true
      /\ option_map name (parseRow (RoundTrip.synthesize fieldsTwoSpaces))
         = Some (Some (lit "DOE JOHN"))
      /\ parseRow (RoundTrip.synthesize fieldsTwoSpaces)
         <> Some (RoundTrip.rowOfFields fieldsTwoSpaces))
  /\ (RoundTrip.validFieldsAsWorded fieldsFormFeed = true
      /\ option_map name (parseRow (RoundTrip.synthesize fieldsFormFeed))
         = Some (Some (lit "DOE"))
      /\ parseRow (RoundTrip.synthesize fieldsFormFeed)
         <> Some (RoundTrip.rowOfFields fieldsFormFeed)).
Proof.
  repeat split; try (vm_compute; reflexivity); vm_compute; discriminate.
Qed.

Unset Implicit Arguments.

(* ================================================================== *)
(** * Normalized texts *)
(* ================================================================== *)

Module NormalizeFacts.

Import RegexFacts StrFacts Parse.

(** ** Runs of spaces and tabs *)

Definition blank (c : char) : bool := N.eqb space c || N.eqb tab c.

(** Every run of spaces and tabs replaced by one space; [inRun] tells
    that the character before belongs to such a run. *)
Fixpoint squeeze (inRun : bool) (s : str) : str :=
  match s with
  | [] => []
  | c :: tl =>
    if blank c
    then if inRun then squeeze true tl else space :: squeeze true tl
    else c :: squeeze false tl
  end.

Lemma squeeze_run w s :
  Forall (fun c => blank c = true) w ->
  squeeze true (w ++ s) = squeeze true s.
Proof.
  induction 1 as [|c w Hc _ IH]; simpl; [reflexivity|]. now rewrite Hc.
Qed.

Lemma squeeze_stop b s :
  stopsAt blank s -> squeeze b s = squeeze false s.
Proof.
  destruct s as [|c s]; simpl; [reflexivity|]. now intros ->.
Qed.

Lemma blank_inClass c :
  inClass [IChar (ch " "); IChar tab] c = blank c.
Proof. apply blank_class. Qed.

(** [replace(/[ \t]+/g, " ")] squeezes the runs of spaces and tabs. *)
Lemma replaceFrom_squeeze :
  forall fuel s before,
    length s < fuel ->
    replaceFrom rxBlanks (lit " ") fuel before s = squeeze false s.
Proof.
  unfold rxBlanks, plus.
  induction fuel as [|fuel IH]; intros s before Hf; [lia|].
  destruct s as [|c s]; cbn [replaceFrom]; unfold matchAt.
  - rewrite run_class_none; [reflexivity | lia | discriminate | exact I].
  - destruct (blank c) eqn:Ec.
    + destruct (span blank (c :: s)) as [w s'] eqn:Es.
      apply span_spec in Es. destruct Es as (Hs & Hw & Hstop).
      destruct w as [|c' w]; [simpl in Hs; subst s'; simpl in Hstop;
                              congruence|].
      simpl in Hs. injection Hs as <- ->.
      erewrite run_class_greedy with (w := c :: w) (s' := s');
        [| reflexivity
         | eapply Forall_impl; [|exact Hw]; intros a Ha;
           now rewrite blank_inClass
         | simpl; lia | exact I
         | right; destruct s'; [exact I | cbn [stopsAt] in *;
                                          now rewrite blank_inClass]
         | reflexivity].
      cbn [after arrive rest past].
      replace (Nat.eqb (length s') (length (c :: w ++ s'))) with false
        by (symmetry; apply Nat.eqb_neq; simpl; rewrite length_app; lia).
      change (lit " ") with [space]. cbn [app squeeze]. rewrite Ec.
      f_equal. rewrite IH by (simpl in Hf; rewrite length_app in Hf; lia).
      inversion Hw; subst. rewrite squeeze_run by assumption.
      symmetry. now apply squeeze_stop.
    + rewrite run_class_none;
        [| lia | discriminate
         | cbn [stopsAt rest]; now rewrite blank_inClass].
      cbn [squeeze]. rewrite Ec. f_equal. apply IH. simpl in Hf. lia.
Qed.

Lemma squeeze_tidy s :
  forallb (fun c => negb (N.eqb nbsp c)) s = true ->
  tidy (squeeze false s) = true
  /\ tidy (squeeze true s) = true
  /\ startsWithSpace (squeeze true s) = false.
Proof.
  induction s as [|c s IH]; cbn [forallb squeeze]; [auto|].
  rewrite andb_true_iff, negb_true_iff. intros [Hn Hs].
  destruct (IH Hs) as (H1 & H2 & H3).
  unfold blank. destruct (N.eqb space c) eqn:Esp; cbn [orb].
  - repeat split; auto. cbn [tidy]. now rewrite H3, H2.
  - destruct (N.eqb tab c) eqn:Etab.
    + repeat split; auto. cbn [tidy]. now rewrite H3, H2.
    + cbn [tidy startsWithSpace]. now rewrite Etab, Hn, Esp, H1.
Qed.

(** ** White space at the ends *)

Definition isWhiteAt (s : str) : bool :=
  match s with c :: _ => isWhiteSpace c | [] => false end.

(** No tab, no non-breaking space, no two spaces in a row, and no white
    space at either end. *)
Definition normalized (s : str) : Prop :=
  tidy s = true /\ isWhiteAt s = false /\ isWhiteAt (rev s) = false.

Lemma trimStart_suffix s :
  exists w, s = w ++ trimStart s /\ forallb isWhiteSpace w = true.
Proof.
  induction s as [|c s (w & IH & Hw)]; simpl.
  - now exists [].
  - destruct (isWhiteSpace c) eqn:E.
    + exists (c :: w). simpl. rewrite E, Hw. split; [congruence | reflexivity].
    + now exists [].
Qed.

Lemma trimStart_head s : isWhiteAt (trimStart s) = false.
Proof.
  induction s as [|c s IH]; simpl; [reflexivity|].
  destruct (isWhiteSpace c) eqn:E; [exact IH | simpl; exact E].
Qed.

Lemma trimStart_stable s : isWhiteAt s = false -> trimStart s = s.
Proof. destruct s as [|c s]; simpl; [reflexivity | now intros ->]. Qed.

Lemma trimStart_snoc s c :
  isWhiteSpace c = false -> trimStart (s ++ [c]) = trimStart s ++ [c].
Proof.
  intros Hc. induction s as [|x s IH]; simpl.
  - now rewrite Hc.
  - destruct (isWhiteSpace x); [exact IH | reflexivity].
Qed.

Lemma trimEnd_cons c s :
  isWhiteSpace c = false -> trimEnd (c :: s) = c :: trimEnd s.
Proof.
  intros Hc. unfold trimEnd. simpl rev. rewrite trimStart_snoc by exact Hc.
  now rewrite rev_app_distr.
Qed.

Lemma trimEnd_prefix s :
  exists w, s = trimEnd s ++ w /\ forallb isWhiteSpace w = true.
Proof.
  destruct (trimStart_suffix (rev s)) as (w & E & Hw).
  exists (rev w). split.
  - unfold trimEnd. rewrite <- rev_app_distr, <- E. now rewrite rev_involutive.
  - rewrite forallb_forall in *. intros x Hx. apply Hw. now apply in_rev.
Qed.

Lemma trim_ends s :
  isWhiteAt (trim s) = false /\ isWhiteAt (rev (trim s)) = false.
Proof.
  unfold trim. split.
  - pose proof (trimStart_head s) as H.
    destruct (trimStart s) as [|c t]; [reflexivity|].
    simpl in H. now rewrite trimEnd_cons.
  - unfold trimEnd. rewrite rev_involutive. apply trimStart_head.
Qed.

Lemma trim_stable s :
  isWhiteAt s = false -> isWhiteAt (rev s) = false -> trim s = s.
Proof.
  intros H1 H2. unfold trim, trimEnd.
  rewrite (trimStart_stable s H1), (trimStart_stable (rev s) H2).
  apply rev_involutive.
Qed.

Lemma tidy_suffix w s : tidy (w ++ s) = true -> tidy s = true.
Proof.
  induction w as [|c w IH]; simpl app; [auto|].
  intros H. apply tidy_cons in H. tauto.
Qed.

Lemma tidy_prefix a b : tidy (a ++ b) = true -> tidy a = true.
Proof.
  induction a as [|c a IH]; [reflexivity|]. simpl app.
  intros H. apply tidy_cons in H. destruct H as (H1 & H2 & H3 & H4).
  cbn [tidy]. rewrite H1, H2, (IH H4). simpl.
  destruct a as [|d a]; [now rewrite andb_false_r|].
  simpl in *. now rewrite H3.
Qed.

Lemma tidy_trim s : tidy s = true -> tidy (trim s) = true.
Proof.
  intros H. unfold trim.
  destruct (trimStart_suffix s) as (w & E & _).
  destruct (trimEnd_prefix (trimStart s)) as (w' & E' & _).
  rewrite E in H. apply tidy_suffix in H. rewrite E' in H.
  now apply tidy_prefix in H.
Qed.

(** ** [normalize] *)

Definition unNbsp (s : str) : str :=
  flat_map (fun d => if N.eqb nbsp d then lit " " else [d]) s.

Lemma unNbsp_clean s :
  forallb (fun c => negb (N.eqb nbsp c)) (unNbsp s) = true.
Proof.
  induction s as [|c s IH]; [reflexivity|].
  change (unNbsp (c :: s))
    with ((if N.eqb nbsp c then lit " " else [c]) ++ unNbsp s).
  rewrite forallb_app. apply andb_true_iff. split; [|exact IH].
  destruct (N.eqb nbsp c) eqn:E; [reflexivity|].
  cbn [forallb]. now rewrite E.
Qed.

Lemma normalize_spec s : normalize s = trim (squeeze false (unNbsp s)).
Proof.
  unfold normalize, rxNbsp. rewrite replaceAll_Chr.
  unfold replaceAll. now rewrite replaceFrom_squeeze by lia.
Qed.

Lemma normalize_normalized s : normalized (normalize s).
Proof.
  rewrite normalize_spec. split; [|apply trim_ends].
  apply tidy_trim. apply squeeze_tidy, unNbsp_clean.
Qed.

Lemma squeeze_tidy_id s : tidy s = true -> squeeze false s = s.
Proof.
  induction s as [|c s IH]; [reflexivity|].
  intros H. apply tidy_cons in H. destruct H as (H1 & _ & H3 & H4).
  cbn [squeeze]. unfold blank. rewrite H1, orb_false_r.
  destruct (N.eqb space c) eqn:E.
  - apply N.eqb_eq in E. subst c. f_equal. simpl in H3.
    destruct s as [|d s]; [reflexivity|].
    rewrite squeeze_stop; [now apply IH|].
    apply tidy_cons in H4. destruct H4 as (H5 & _).
    cbn [stopsAt startsWithSpace] in *. unfold blank. now rewrite H3, H5.
  - f_equal. now apply IH.
Qed.

Lemma normalized_fixed s : normalized s -> normalize s = s.
Proof.
  intros (Ht & Hs & He). rewrite normalize_spec.
  unfold unNbsp. rewrite flat_map_none by now apply tidy_no_nbsp.
  rewrite squeeze_tidy_id by exact Ht. now apply trim_stable.
Qed.

Lemma normalize_idempotent s : normalize (normalize s) = normalize s.
Proof. apply normalized_fixed, normalize_normalized. Qed.

Lemma truthy_normalized s :
  normalized s -> s <> [] -> normalize s = s /\ truthy (normalize s) = true.
Proof.
  intros H Hn. rewrite (normalized_fixed s H). split; [reflexivity|].
  now destruct s.
Qed.

(** ** The clean lines of a page *)

Lemma cleanLines_normalized lines :
  Forall (fun ln => normalized ln /\ ln <> []) (cleanLines lines).
Proof.
  unfold cleanLines. apply Forall_forall. intros ln H.
  apply filter_In in H. destruct H as [H Ht].
  apply in_map_iff in H. destruct H as (l & <- & _).
  split; [apply normalize_normalized|]. now destruct (normalize l).
Qed.

Lemma cleanLines_fixed lines :
  Forall (fun ln => normalized ln /\ ln <> []) lines ->
  cleanLines lines = lines.
Proof.
  unfold cleanLines. induction 1 as [|ln lines [Hn He] _ IH]; simpl;
    [reflexivity|].
  rewrite (normalized_fixed ln Hn), IH. now destruct ln.
Qed.

Lemma cleanLines_app a b : cleanLines (a ++ b) = cleanLines a ++ cleanLines b.
Proof. unfold cleanLines. now rewrite map_app, filter_app. Qed.

End NormalizeFacts.

(* ================================================================== *)
(** * Pages and spacing *)
(* ================================================================== *)

Module SpacingFacts.

Import NormalizeFacts Parse.

Lemma parseRow_normalize l : parseRow (normalize l) = parseRow l.
Proof. unfold parseRow. now rewrite normalize_idempotent. Qed.

Lemma cleanLines_normalize lines :
  cleanLines (map normalize lines) = cleanLines lines.
Proof.
  unfold cleanLines. rewrite map_map. f_equal.
  apply map_ext. intros l. apply normalize_idempotent.
Qed.

Lemma cleanLines_blank a b blank :
  normalize blank = [] -> cleanLines (a ++ blank :: b) = cleanLines (a ++ b).
Proof.
  intros H. rewrite !cleanLines_app. f_equal.
  unfold cleanLines. simpl. now rewrite H.
Qed.

(** A page depends on its lines through the clean lines only. *)
Lemma parseFromLines_clean lines lines' idx :
  cleanLines lines = cleanLines lines' ->
  parseFromLines lines idx = parseFromLines lines' idx.
Proof. intros H. unfold parseFromLines. now rewrite H. Qed.

Lemma clean_truthy lines h tl :
  cleanLines lines = h :: tl -> truthy h = true.
Proof.
  intros E. assert (H : In h (cleanLines lines)) by (rewrite E; now left).
  unfold cleanLines in H. apply filter_In in H. tauto.
Qed.

Lemma sheetName_first_line lines idx :
  sheetName (parseFromLines lines idx)
  = Some (match cleanLines lines with
          | h :: _ =>
            if looksLikeHeader h then lit "Page " ++ Str.ofZ idx else h
          | [] => lit "Page " ++ Str.ofZ idx
          end).
Proof.
  unfold parseFromLines. destruct (scan _ _) as [rs ts]. cbn [sheetName].
  destruct (cleanLines lines) as [|h tl] eqn:E; [reflexivity|].
  apply clean_truthy in E. unfold headerIndex. cbn [findIndex].
  destruct (looksLikeHeader h); [reflexivity|].
  destruct (findIndex looksLikeHeader tl) as [j|]; cbn [option_map].
  - cbn [firstn]. now rewrite E.
  - cbn [length]. destruct (length tl) as [|[|[|n]]]; cbn [Nat.min firstn];
      now rewrite E.
Qed.

End SpacingFacts.

(* ================================================================== *)
(** * Coercion of texts *)
(* ================================================================== *)

Module CoercionFacts.

Import RegexFacts StrFacts Parse.

(** The characters [toNumber] removes from a text: commas, dollar signs
    and white space. *)
Definition stripped (c : char) : bool :=
  N.eqb c (ch ",") || N.eqb c (ch "$") || isWhiteSpace c.

Lemma stripped_class c :
  inClass [IChar (ch ","); IChar (ch "$"); ISpace; IChar (ch "$")] c
  = stripped c.
Proof.
  unfold stripped, inClass. cbn [existsb inItem].
  destruct (N.eqb c (ch ",")), (N.eqb c (ch "$")), (isWhiteSpace c);
    reflexivity.
Qed.

Lemma strip_filter s :
  replaceAll rxStrip (lit "") s = filter (fun c => negb (stripped c)) s.
Proof.
  unfold rxStrip. rewrite replaceAll_Cls.
  change (lit "") with (@nil char). rewrite flat_map_delete.
  apply filter_ext. intros c. f_equal. apply (stripped_class c).
Qed.

Lemma strip_insert a c b :
  stripped c = true ->
  replaceAll rxStrip (lit "") (a ++ c :: b)
  = replaceAll rxStrip (lit "") (a ++ b).
Proof.
  intros H. rewrite !strip_filter, !filter_app. cbn [filter].
  now rewrite H.
Qed.

Lemma strip_all s :
  forallb stripped s = true -> replaceAll rxStrip (lit "") s = [].
Proof.
  intros H. rewrite strip_filter.
  induction s as [|c s IH]; [reflexivity|].
  cbn [forallb] in H. apply andb_true_iff in H. destruct H as [Hc Hs].
  cbn [filter]. rewrite Hc. now apply IH.
Qed.

End CoercionFacts.

(* ================================================================== *)
(** * The amount and the count of a totals line *)
(* ================================================================== *)

Module TotalsLineFacts.

Import RegexFacts StrFacts RowFacts AmountFacts TotalsFacts Parse.

(** ** The expression of the amount *)

(** [[\d,]+\.\d{2}], the group of the expression. *)
Definition rxPlainAmount : regex :=
  seq [plus (Cls [IDigit; IChar (ch ",")]); Chr (ch "."); exactly 2 digit].

Lemma rxAmount_parts :
  rxAmount
  = Seq (opt (Cls [IChar (ch "$")]))
        (Seq (star Regex.space) (Seq (Group 1 rxPlainAmount) WordB)).
Proof. reflexivity. Qed.

(** In [pre ++ g ++ ".xy" ++ post] a run [g] of digits and commas, a
    point and two digits, with no letter, digit or underscore after
    them. *)
Definition amountAt (g : str) (x y : char) (post : str) : Prop :=
  1 <= length g /\ forallb isAmountChar g = true
  /\ isDigit x = true /\ isDigit y = true /\ isWordAt post = false.

Lemma lang_plain_amount w :
  lang rxPlainAmount w
  <-> exists g x y, w = g ++ [ch "."; x; y]
                    /\ 1 <= length g /\ forallb isAmountChar g = true
                    /\ isDigit x = true /\ isDigit y = true.
Proof.
  unfold rxPlainAmount. cbn [seq]. split.
  - intros (g & r & -> & Hg & w2 & w3 & -> & H2 & H3).
    apply lang_amount_run in Hg. cbn [lang] in H2. subst w2.
    apply exactly_2 in H3. destruct H3 as (x & y & -> & Hx & Hy).
    exists g, x, y. tauto.
  - intros (g & x & y & -> & Hl & Hg & Hx & Hy).
    exists g, [ch "."; x; y]. split; [reflexivity|].
    split; [now apply lang_amount_run|].
    exists [ch "."], [x; y]. split; [reflexivity|]. split; [reflexivity|].
    apply exactly_2. now exists x, y.
Qed.

Lemma isWordAt_digit y tl : isDigit y = true -> isWordAt (y :: tl) = true.
Proof. intros H. simpl. unfold isWordChar. now rewrite H. Qed.

(** What a match of the expression holds. *)
Lemma exec_rxAmount_Some line m :
  exec rxAmount line = Some m ->
  exists pre g x y post,
    line = pre ++ g ++ [ch "."; x; y] ++ post
    /\ group m 1 = Some (g ++ [ch "."; x; y])
    /\ amountAt g x y post.
Proof.
  unfold exec. intros H. apply search_Some in H.
  destruct H as (u & s' & -> & Hm & _). rewrite app_nil_r in Hm.
  unfold matchAt in Hm.
  destruct (run rxAmount _ _) as [st'|] eqn:E; [|discriminate].
  injection Hm as <-. cbn [group].
  apply run_sound in E. destruct E as (st'' & HM & Heq).
  injection Heq as ->. rewrite rxAmount_parts in HM.
  destruct HM as (s1 & H1 & s2 & H2 & s3 & (mid & HG & ->) & [Hb ->]).
  apply (Matches_lang (opt (Cls [IChar (ch "$")])) eq_refl) in H1.
  destruct H1 as (w1 & R1 & P1 & _).
  apply (Matches_lang (star Regex.space) eq_refl) in H2.
  destruct H2 as (w2 & R2 & P2 & _).
  destruct (Matches_lang rxPlainAmount eq_refl _ _ HG) as (w & R3 & P3 & Hw).
  apply lang_plain_amount in Hw.
  destruct Hw as (g & x & y & -> & Hl & Hg & Hx & Hy).
  cbn [past rest caps] in *.
  exists (u ++ w1 ++ w2), g, x, y, (rest mid). split; [|split].
  - rewrite R1, R2, R3. now rewrite <- !app_assoc.
  - unfold setCap. simpl. f_equal. now apply consumed_app.
  - repeat split; auto.
    rewrite P3, rev_app_distr in Hb. cbn [rev app] in Hb.
    rewrite isWordAt_digit in Hb by exact Hy.
    now destruct (isWordAt (rest mid)).
Qed.

(** The expression matches wherever such an amount stands. *)
Lemma exec_rxAmount_complete pre g x y post :
  amountAt g x y post ->
  exec rxAmount (pre ++ g ++ [ch "."; x; y] ++ post) <> None.
Proof.
  intros (Hl & Hg & Hx & Hy & Hp) E. unfold exec in E.
  pose proof (@search_None rxAmount _ [] E pre
                           (g ++ [ch "."; x; y] ++ post) eq_refl) as Hn.
  rewrite app_nil_r in Hn. revert Hn. unfold matchAt.
  match goal with
  | |- match ?r with _ => _ end = None -> False =>
    assert (H : r <> None); [|destruct r; congruence]
  end.
  rewrite rxAmount_parts, run_Seq.
  apply (run_complete (opt (Cls [IChar (ch "$")])) eq_refl []
                      (proj2 (lang_opt _ []) (or_introl eq_refl)))
    with (s2 := g ++ [ch "."; x; y] ++ post); [reflexivity|].
  intros c. rewrite run_Seq.
  apply (run_complete (star Regex.space) eq_refl []
                      (proj2 (lang_gap0 []) eq_refl))
    with (s2 := g ++ [ch "."; x; y] ++ post); [reflexivity|].
  intros c'. rewrite run_Seq.
  assert (Hw : lang (Group 1 rxPlainAmount) (g ++ [ch "."; x; y])).
  { cbn [lang]. apply lang_plain_amount. exists g, x, y. tauto. }
  apply (run_complete (Group 1 rxPlainAmount) eq_refl _ Hw)
    with (s2 := post); [cbn [arrive rest]; now rewrite <- app_assoc|].
  intros c''. rewrite run_WordB. unfold arrive. cbn [past rest].
  rewrite rev_app_distr. cbn [rev app].
  rewrite isWordAt_digit, Hp by exact Hy. discriminate.
Qed.

Lemma parseTotals_amount line t :
  parseTotals line = Some t ->
  t_amount t
  = match exec rxAmount line with
    | Some m => VNumber (Parse.toNumber (VString (groupText m 1)))
    | None => VUndefined
    end.
Proof.
  unfold parseTotals. destruct (negb _); [discriminate|].
  destruct (exec rxAmount line), (exec rxCount line); simpl;
    intros H; inversion H; reflexivity.
Qed.

(** The amount of a totals line is a finite number, not negative, of a
    whole number of hundredths. *)
Lemma totals_amount_number line t a :
  parseTotals line = Some t -> t_amount t = VNumber a ->
  isFinite a = true /\ isNonNegative a = true /\ twoDecimals a.
Proof.
  intros H Ha. rewrite (parseTotals_amount line t H) in Ha.
  destruct (exec rxAmount line) as [m|] eqn:E; [|discriminate].
  injection Ha as <-. apply exec_rxAmount_Some in E.
  destruct E as (pre & g & x & y & post & _ & Hg & Hl & Hc & Hx & Hy & _).
  unfold groupText. rewrite Hg.
  assert (Hamt : isAmount (g ++ [ch "."; x; y]) = true)
    by (apply (@amount_parts_check [] g x y); auto).
  destruct (@amount_toNumber _ Hamt) as (H1 & H2 & _).
  split; [|tauto].
  exact (SheetFacts.parse_toNumber_finite (VString (g ++ [ch "."; x; y]))).
Qed.

(** ** A count wherever there is a bare integer *)

Lemma bare_then_count :
  forall n pre d post,
    length post <= n -> bareInteger pre d post ->
    exec rxCount (pre ++ d ++ post) <> None.
Proof.
  induction n as [|n IH]; intros pre d post Hn Hb;
    destruct (run rxLater (MState (rev d ++ rev pre) post noCaps)
                  (fun x => Some x)) as [res|] eqn:E.
  - assert (E' : run rxLater (MState (rev d ++ rev pre) post noCaps)
                     (fun x => Some x) <> None) by (rewrite E; discriminate).
    apply rxLater_later in E'.
    destruct E' as (u & e & v & Hr & _ & Hl & _). cbn [rest] in Hr.
    rewrite Hr, !length_app in Hn. lia.
  - intros Ex. apply (@exec_rxCount_None _ Ex pre d post eq_refl).
    split; [exact Hb|]. intros u e v Hp Hu (Hl & Hd & Hb' & Hv).
    rewrite rev_pre in Hb'. revert E.
    apply later_rxLater with (u := u) (e := e) (v := v); auto.
  - assert (E' : run rxLater (MState (rev d ++ rev pre) post noCaps)
                     (fun x => Some x) <> None) by (rewrite E; discriminate).
    apply rxLater_later in E'.
    destruct E' as (u & e & v & Hr & _ & Hl & Hd & Hb' & Hv).
    cbn [rest past] in Hr, Hb'. subst post.
    replace (pre ++ d ++ u ++ e ++ v) with ((pre ++ d ++ u) ++ e ++ v)
      by now rewrite <- !app_assoc.
    apply IH.
    + rewrite !length_app in Hn. lia.
    + repeat split; try tauto. now rewrite rev_pre.
  - intros Ex. apply (@exec_rxCount_None _ Ex pre d post eq_refl).
    split; [exact Hb|]. intros u e v Hp Hu (Hl & Hd & Hb' & Hv).
    rewrite rev_pre in Hb'. revert E.
    apply later_rxLater with (u := u) (e := e) (v := v); auto.
Qed.

(** A line with an amount has a count. *)
Lemma amount_then_count line :
  exec rxAmount line <> None -> exec rxCount line <> None.
Proof.
  intros H. destruct (exec rxAmount line) as [m|] eqn:E; [|congruence].
  apply exec_rxAmount_Some in E.
  destruct E as (pre & g & x & y & post & -> & _ & Hl & Hg & Hx & Hy & Hp).
  replace (pre ++ g ++ [ch "."; x; y] ++ post)
    with ((pre ++ g ++ [ch "."]) ++ [x; y] ++ post)
    by now rewrite <- !app_assoc.
  apply bare_then_count with (n := length post); [lia|].
  repeat split; simpl; try lia.
  - now rewrite Hx, Hy.
  - now rewrite !rev_app_distr.
  - exact Hp.
Qed.

(** ** The count of a line without line terminators *)

Lemma digit_stops post : isWordAt post = false -> stopsAt isDigit post.
Proof.
  destruct post as [|c post]; simpl; [auto|].
  unfold isWordChar. destruct (isDigit c); [discriminate | reflexivity].
Qed.

(** On one line there is one bare integer with none after it. *)
Lemma countAt_unique line pre d post pre0 d0 post0 :
  forallb notTerminator line = true ->
  line = pre ++ d ++ post -> countAt pre d post ->
  line = pre0 ++ d0 ++ post0 -> countAt pre0 d0 post0 ->
  length pre0 <= length pre -> d0 = d.
Proof.
  intros Hline E [(Hl & Hd & Hb & Hp) Hlast] E0
         [(Hl0 & Hd0 & Hb0 & Hp0) Hlast0] Hle.
  destruct (Nat.eq_dec (length pre0) (length pre)) as [Heq | Hne].
  - rewrite E in E0.
    destruct (app_eq_length pre pre0 _ _ E0 (eq_sym Heq)) as [_ E1].
    apply forallb_Forall in Hd, Hd0.
    now destruct (@prefix_unique isDigit d0 d post0 post (eq_sym E1) Hd0 Hd
                                (digit_stops _ Hp0) (digit_stops _ Hp)).
  - exfalso. assert (Hlt : length pre0 < length pre) by lia.
    rewrite E in E0. symmetry in E0.
    apply app_eq_shorter in E0; [|exact Hlt].
    destruct E0 as (e & -> & He & E1).
    apply app_eq_app in E1. destruct E1 as (l & [[-> E2] | [-> E2]]).
    + rewrite forallb_app in Hd0. apply andb_true_iff in Hd0.
      destruct Hd0 as [Hde _].
      rewrite rev_app_distr, isWordAt_rev_digits in Hb; [discriminate| |exact Hde].
      destruct e; [congruence | simpl; lia].
    + apply (Hlast0 l d post E2).
      * rewrite E, <- !app_assoc, !forallb_app in Hline.
        apply andb_true_iff in Hline. destruct Hline as [_ Hline].
        apply andb_true_iff in Hline. destruct Hline as [_ Hline].
        apply andb_true_iff in Hline. tauto.
      * repeat split; auto; lia.
Qed.

Lemma count_single_line line pre d post t :
  forallb notTerminator line = true ->
  line = pre ++ d ++ post -> countAt pre d post ->
  parseTotals line = Some t ->
  count t = Some (ofString d).
Proof.
  intros Hline E Hc H.
  pose proof (@count_last_bare_integer line t H) as Hcount.
  destruct (count t) as [c|].
  - destruct Hcount as (pre0 & d0 & post0 & E0 & -> & Hc0 & Hfirst).
    f_equal. f_equal.
    apply (countAt_unique line pre d post pre0 d0 post0); auto.
    now apply (Hfirst pre d post).
  - exfalso. now apply (Hcount pre d post E).
Qed.

(** ** Rows that read as totals *)

Lemma startsWith_app s t b :
  startsWith s t = true -> startsWith (s ++ b) t = true.
Proof.
  revert s. induction t as [|x t IH]; intros s;
    [now destruct (s ++ b)|].
  destruct s as [|y s]; simpl; [discriminate|].
  rewrite !andb_true_iff. intros [H1 H2]. auto.
Qed.

Lemma includes_app_l s t b :
  includes s t = true -> includes (s ++ b) t = true.
Proof.
  induction s as [|c s IH]; simpl.
  - rewrite orb_false_r. intros H. destruct t; [|discriminate].
    destruct b; reflexivity.
  - rewrite !orb_true_iff. intros [H | H]; [left | right; auto].
    now apply (startsWith_app (c :: s)).
Qed.

Lemma includes_app_r a s t :
  includes s t = true -> includes (a ++ s) t = true.
Proof.
  intros H. induction a as [|c a IH]; [exact H|].
  simpl app. cbn [includes]. rewrite IH. apply orb_true_r.
Qed.

Lemma toUpperCase_app a b :
  toUpperCase (a ++ b) = toUpperCase a ++ toUpperCase b.
Proof. unfold toUpperCase. apply flat_map_app. Qed.

(** A text that holds a word holds it inside any longer text. *)
Lemma includes_upper a s b t :
  includes (toUpperCase s) t = true ->
  includes (toUpperCase (a ++ s ++ b)) t = true.
Proof.
  intros H. rewrite !toUpperCase_app.
  now apply includes_app_r, includes_app_l.
Qed.

(** A row of the grammar ends with an amount. *)
Lemma row_line_amount d :
  wellFormed d = true -> exec rxAmount (text d) <> None.
Proof.
  intros H. apply wellFormed_parts in H.
  destruct H as (_ & _ & _ & _ & _ & _ & _ & _ & _ & _ & _ & _ & Ha).
  apply amount_check_parts in Ha.
  destruct Ha as (s & g & x & y & Ea & _ & Hl & Hg & Hx & Hy).
  unfold text. rewrite Ea.
  set (front := p_studentNo d ++ p_gap1 d ++ p_sin d ++ p_gap2 d
                  ++ govText (p_gov d) ++ p_gap3 d ++ p_cert d ++ p_gap4 d
                  ++ p_name d ++ p_gap5 d ++ p_eosDate d ++ p_gap6 d ++ s).
  replace (p_studentNo d ++ p_gap1 d ++ p_sin d ++ p_gap2 d
             ++ govText (p_gov d) ++ p_gap3 d ++ p_cert d ++ p_gap4 d
             ++ p_name d ++ p_gap5 d ++ p_eosDate d ++ p_gap6 d
             ++ s ++ g ++ [ch "."; x; y])
    with (front ++ g ++ [ch "."; x; y] ++ [])
    by (unfold front; rewrite <- !app_assoc; reflexivity).
  apply exec_rxAmount_complete. repeat split; auto.
Qed.

(** A line that reads as a row and holds [TOTAL], in any letter case,
    reads as a totals line. *)
Lemma row_with_total ln r :
  normalize ln = ln -> parseRow ln = Some r ->
  includes (toUpperCase ln) (lit "TOTAL") = true ->
  parseTotals ln <> None.
Proof.
  intros Hn Hr Ht. apply parseRow_Some in Hr.
  destruct Hr as (d & Hd & Etext & _). rewrite Hn in Etext.
  pose proof (row_line_amount d Hd) as Ha. rewrite Etext in Ha.
  unfold parseTotals. rewrite Ht. cbn [negb].
  destruct (exec rxAmount ln); [|congruence].
  destruct (exec rxCount ln); discriminate.
Qed.

End TotalsLineFacts.

(* ================================================================== *)
(** * The rows of a page *)
(* ================================================================== *)

Module PageRowFacts.

Import RegexFacts StrFacts RowFacts NormalizeFacts TotalsLineFacts Parse.

Lemma In_skipn {A : Type} (x : A) n l : In x (skipn n l) -> In x l.
Proof.
  intros H. rewrite <- (firstn_skipn n l). apply in_or_app. now right.
Qed.

Lemma In_beforeTotals ln lines :
  In ln (PageFacts.beforeTotals lines) ->
  In ln lines /\ parseTotals ln = None.
Proof.
  destruct (PageFacts.beforeTotals_prefix lines) as [E Hall].
  intros H. split.
  - rewrite E. apply in_or_app. now left.
  - rewrite Forall_forall in Hall. now apply Hall.
Qed.

(** Every row of a page is read from a clean line below the header line
    that does not read as a totals line. *)
Lemma row_source lines idx r :
  In r (rows (parseFromLines lines idx)) ->
  exists ln, In ln (cleanLines lines) /\ parseTotals ln = None
             /\ parseRow ln = Some r.
Proof.
  destruct (PageFacts.parseFromLines_fields lines idx) as (_ & _ & Hrows & _).
  rewrite Hrows. unfold PageFacts.rowsOf. intros H.
  apply in_flat_map in H. destruct H as (ln & Hln & Hr).
  apply In_beforeTotals in Hln. destruct Hln as [Hln Ht].
  apply In_skipn in Hln. exists ln. split; [exact Hln|]. split; [exact Ht|].
  destruct (parseRow ln) as [r'|]; [|destruct Hr].
  destruct Hr as [-> | []]. reflexivity.
Qed.

(** The line of a row of a page: a row of the grammar from end to end
    that does not hold [TOTAL] in any letter case. *)
Lemma row_line lines idx r :
  In r (rows (parseFromLines lines idx)) ->
  exists d, wellFormed d = true /\ In (text d) (cleanLines lines)
            /\ r = rowOf d
            /\ includes (toUpperCase (text d)) (lit "TOTAL") = false.
Proof.
  intros H. apply row_source in H. destruct H as (ln & Hln & Ht & Hr).
  pose proof (cleanLines_normalized lines) as Hall.
  rewrite Forall_forall in Hall. destruct (Hall ln Hln) as [Hn _].
  apply normalized_fixed in Hn.
  destruct (@parseRow_Some ln r Hr) as (d & Hd & Etext & Er).
  rewrite Hn in Etext. subst ln.
  exists d. repeat split; auto.
  destruct (includes _ _) eqn:E; [|reflexivity].
  exfalso. now apply (row_with_total (text d) r Hn Hr E).
Qed.

End PageRowFacts.

(* ================================================================== *)
(** * The lines of a text *)
(* ================================================================== *)

Module LinesFacts.

Import RegexFacts StrFacts Parse.

Definition lf : char := 10%N.
Definition cr : char := 13%N.

Lemma newline_lf before tl :
  exists m, matchAt rxNewline before (lf :: tl) = Some m
            /\ rest (after m) = tl /\ past (after m) = lf :: before.
Proof.
  unfold matchAt, rxNewline. cbn. eexists. split; [reflexivity|]. split; reflexivity.
Qed.

Lemma newline_crlf before tl :
  exists m, matchAt rxNewline before (cr :: lf :: tl) = Some m
            /\ rest (after m) = tl /\ past (after m) = lf :: cr :: before.
Proof.
  unfold matchAt, rxNewline. cbn.
  replace (Nat.eqb (length tl) (S (length tl))) with false
    by (symmetry; apply Nat.eqb_neq; lia).
  cbn. eexists. split; [reflexivity|]. split; reflexivity.
Qed.

Lemma newline_none before c tl :
  N.eqb c lf = false ->
  (N.eqb c cr = false \/ match tl with d :: _ => N.eqb d lf = false | [] => True end) ->
  matchAt rxNewline before (c :: tl) = None.
Proof.
  intros H1 H2. unfold matchAt, rxNewline.
  rewrite (N.eqb_sym c lf) in H1.
  assert (E : run (Seq (opt (Chr 13%N)) (Chr 10%N))
                  (MState before (c :: tl) noCaps) (fun st' => Some st')
              = None).
  { rewrite TotalsFacts.run_Seq. unfold opt.
    rewrite run_Rep, repeatMatcher_S. cbv zeta. cbn [negb Nat.eqb andb].
    rewrite clearCaps_nil.
    change (run (Chr 13%N)) with (oneChar (N.eqb 13)).
    change (run (Chr 10%N)) with (oneChar (N.eqb 10)).
    unfold oneChar at 1 3. cbn [rest step length Nat.add Nat.pred option_map].
    assert (Hk : oneChar (N.eqb 10) (MState before (c :: tl) noCaps)
                         (fun st' => Some st') = None).
    { unfold oneChar. cbn [rest]. unfold lf in H1. now rewrite H1. }
    rewrite Hk. destruct (N.eqb 13 c) eqn:Ec; [|reflexivity].
    rewrite repeatMatcher_S.
    destruct H2 as [H2 | H2].
    - rewrite N.eqb_sym in H2. unfold cr in H2. congruence.
    - cbn [rest step]. destruct (Nat.eqb _ _); [reflexivity|].
      destruct tl as [|d tl]; [reflexivity|].
      rewrite N.eqb_sym in H2. unfold lf in H2. now rewrite H2. }
  now rewrite E.
Qed.
Definition startsLF (s : str) : bool :=
  match s with d :: _ => N.eqb d lf | [] => false end.

(** The text without the carriage returns that stand before a line
    feed. *)
Fixpoint dropCR (s : str) : str :=
  match s with
  | [] => []
  | c :: tl => if N.eqb c cr && startsLF tl then dropCR tl else c :: dropCR tl
  end.

Lemma forallb_Forall' (p : char -> bool) (l : str) :
  forallb p l = true -> Forall (fun c => p c = true) l.
Proof. intros H. apply Forall_forall. now apply forallb_forall. Qed.

Lemma splitFrom_nonempty r fuel piece before s :
  splitFrom r fuel piece before s <> [].
Proof.
  revert piece before s. induction fuel as [|fuel IH]; intros piece before s;
    cbn [splitFrom]; [discriminate|].
  destruct s as [|c tl]; [discriminate|].
  destruct (matchAt r before (c :: tl)) as [m|]; [|apply IH].
  destruct (_ && _); [apply IH | discriminate].
Qed.

Lemma join_cons sep x l : l <> [] -> join sep (x :: l) = x ++ sep ++ join sep l.
Proof. destruct l; [congruence | reflexivity]. Qed.

(** The pieces of [split(/\r?\n/)], joined by line feeds, and what
    they hold. *)
Lemma splitFrom_newline :
  forall fuel (s : str) (piece before : list char),
    length s < fuel -> forallb (fun c : char => negb (N.eqb c lf)) piece = true ->
    join [lf] (splitFrom rxNewline fuel piece before s)
    = rev piece ++ dropCR s
    /\ Forall (fun l : str => forallb (fun c : char => negb (N.eqb c lf)) l = true)
              (splitFrom rxNewline fuel piece before s).
Proof.
  induction fuel as [|fuel IH]; intros s piece before Hf Hp; [lia|].
  cbn [splitFrom]. destruct s as [|c tl].
  - cbn [join dropCR]. rewrite app_nil_r. split; [reflexivity|].
    constructor; [|constructor]. rewrite forallb_forall in *.
    intros x Hx. apply Hp. now apply in_rev.
  - assert (Hrev : forallb (fun c : char => negb (N.eqb c lf)) (rev piece) = true).
    { rewrite forallb_forall in *. intros x Hx. apply Hp. now apply in_rev. }
    cbn [length] in Hf.
    destruct (N.eqb c lf) eqn:Elf.
    + apply N.eqb_eq in Elf. subst c.
      destruct (newline_lf before tl) as (m & -> & Hr & Hq).
      rewrite Hr, Hq.
      replace (Nat.eqb (length tl) (length (lf :: tl))) with false
        by (symmetry; apply Nat.eqb_neq; simpl; lia).
      cbn [andb].
      destruct (IH tl [] (lf :: before)) as [IH1 IH2]; [lia | reflexivity|].
      rewrite join_cons by apply splitFrom_nonempty. rewrite IH1.
      split; [reflexivity | now constructor].
    + destruct (N.eqb c cr && startsLF tl) eqn:Ecr.
      * apply andb_true_iff in Ecr. destruct Ecr as [Ec Et].
        apply N.eqb_eq in Ec. subst c.
        destruct tl as [|d tl]; [discriminate|]. cbn [startsLF] in Et.
        apply N.eqb_eq in Et. subst d.
        destruct (newline_crlf before tl) as (m & -> & Hr & Hq).
        rewrite Hr, Hq.
        replace (Nat.eqb (length tl) (length (cr :: lf :: tl))) with false
          by (symmetry; apply Nat.eqb_neq; simpl; lia).
        cbn [andb].
        destruct (IH tl [] (lf :: cr :: before)) as [IH1 IH2];
          [simpl in Hf; lia | reflexivity|].
        rewrite join_cons by apply splitFrom_nonempty. rewrite IH1.
        split; [|now constructor].
        cbn [dropCR startsLF]. now rewrite !N.eqb_refl.
      * rewrite newline_none; [| exact Elf |].
        -- destruct (IH tl (c :: piece) (c :: before)) as [IH1 IH2];
             [lia | cbn [forallb]; now rewrite Elf, Hp|].
           split; [|exact IH2]. rewrite IH1. cbn [rev dropCR].
           rewrite Ecr. now rewrite <- app_assoc.
        -- apply andb_false_iff in Ecr. destruct Ecr as [Ec | Et];
             [now left | right].
           destruct tl as [|d tl]; [exact I | exact Et].
Qed.

Lemma split_newline s :
  join [lf] (split rxNewline s) = dropCR s
  /\ Forall (fun l : str => forallb (fun c : char => negb (N.eqb c lf)) l = true)
            (split rxNewline s).
Proof.
  destruct s as [|c s]; [split; [reflexivity | repeat constructor]|].
  unfold split.
  destruct (splitFrom_newline (S (2 * length (c :: s))) (c :: s) [] [])
    as [H1 H2]; [lia | reflexivity|].
  now rewrite H1.
Qed.

Lemma dropCR_id s :
  forallb (fun c : char => negb (N.eqb c cr)) s = true -> dropCR s = s.
Proof.
  induction s as [|c s IH]; [reflexivity|]. cbn [forallb dropCR].
  rewrite andb_true_iff, negb_true_iff. intros [-> H]. cbn [andb].
  now rewrite IH.
Qed.

(** ** Texts with the same lines *)

Definition noLF (l : str) : bool :=
  forallb (fun c : char => negb (N.eqb c lf)) l.

Lemma join_head x (t : list str) :
  exists r, join [lf] (x :: t) = x ++ r /\ stopsAt (fun c => negb (N.eqb c lf)) r
            /\ (t = [] -> r = [])
            /\ (t <> [] -> r = lf :: join [lf] t).
Proof.
  destruct t as [|y t].
  - exists []. cbn [join]. rewrite app_nil_r. repeat split; auto.
    intros H. congruence.
  - exists (lf :: join [lf] (y :: t)). repeat split; auto.
    intros H. discriminate.
Qed.

(** Lines without line feeds are given by their join. *)
Lemma join_lines_inj :
  forall l1 l2 : list str,
    l1 <> [] -> l2 <> [] ->
    Forall (fun l => noLF l = true) l1 ->
    Forall (fun l => noLF l = true) l2 ->
    join [lf] l1 = join [lf] l2 -> l1 = l2.
Proof.
  induction l1 as [|x t1 IH]; intros [|y t2] H1 H2 F1 F2 E; try congruence.
  inversion F1 as [|? ? Hx F1']. inversion F2 as [|? ? Hy F2']. subst.
  destruct (join_head x t1) as (r1 & E1 & S1 & N1 & C1).
  destruct (join_head y t2) as (r2 & E2 & S2 & N2 & C2).
  rewrite E1, E2 in E. unfold noLF in Hx, Hy.
  apply forallb_Forall' in Hx. apply forallb_Forall' in Hy.
  destruct (@prefix_unique (fun c : char => negb (N.eqb c lf))
                           x y r1 r2 E Hx Hy S1 S2) as [-> Er].
  f_equal. destruct t1 as [|a t1], t2 as [|b t2]; auto.
  - rewrite (N1 eq_refl), C2 in Er by discriminate. discriminate.
  - rewrite (N2 eq_refl), C1 in Er by discriminate. discriminate.
  - rewrite C1, C2 in Er by discriminate. inversion Er as [Ej].
    apply IH; auto; discriminate.
Qed.

Lemma split_newline_nonempty s : split rxNewline s <> [].
Proof.
  destruct s as [|c s]; [discriminate|]. apply splitFrom_nonempty.
Qed.

(** Two texts that differ in carriage returns before line feeds only
    have the same lines. *)
Lemma split_newline_ext s1 s2 :
  dropCR s1 = dropCR s2 -> split rxNewline s1 = split rxNewline s2.
Proof.
  intros E.
  destruct (split_newline s1) as [J1 F1]. destruct (split_newline s2) as [J2 F2].
  apply join_lines_inj; auto using split_newline_nonempty.
  now rewrite J1, J2.
Qed.

End LinesFacts.

(* ================================================================== *)
(** * Sheet names *)
(* ================================================================== *)

Module SheetNameFacts.

Import RegexFacts StrFacts NormalizeFacts MakeExcel.

(** The characters [safeSheetName] removes. *)
Definition isIllegal (c : char) : bool :=
  N.eqb c 92 || N.eqb c (ch "/") || N.eqb c (ch "*") || N.eqb c (ch "?")
  || N.eqb c (ch ":") || N.eqb c (ch "[") || N.eqb c (ch "]").

Definition legal (s : str) : bool := forallb (fun c : char => negb (isIllegal c)) s.

Lemma illegal_class c :
  inClass [IChar 92%N; IChar (ch "/"); IChar (ch "*"); IChar (ch "?");
           IChar (ch ":"); IChar (ch "["); IChar (ch "]"); IChar (ch ":")] c
  = isIllegal c.
Proof.
  unfold isIllegal, inClass. cbn [existsb inItem].
  destruct (N.eqb c 92), (N.eqb c (ch "/")), (N.eqb c (ch "*")),
    (N.eqb c (ch "?")), (N.eqb c (ch ":")), (N.eqb c (ch "[")),
    (N.eqb c (ch "]")); reflexivity.
Qed.

Lemma strip_illegal s :
  replaceAll rxIllegal (lit "") s
  = filter (fun c : char => negb (isIllegal c)) s.
Proof.
  unfold rxIllegal. rewrite replaceAll_Cls.
  change (lit "") with (@nil char). rewrite flat_map_delete.
  apply filter_ext. intros c. f_equal. apply illegal_class.
Qed.

Lemma legal_filter s : legal (filter (fun c : char => negb (isIllegal c)) s) = true.
Proof.
  unfold legal. apply forallb_forall. intros x Hx.
  apply filter_In in Hx. tauto.
Qed.

Lemma legal_app a b : legal (a ++ b) = legal a && legal b.
Proof. apply forallb_app. Qed.

Lemma legal_trim s : legal s = true -> legal (trim s) = true.
Proof.
  intros H. unfold trim.
  destruct (trimStart_suffix s) as (w & E & _).
  destruct (trimEnd_prefix (trimStart s)) as (w' & E' & _).
  rewrite E, legal_app in H. apply andb_true_iff in H. destruct H as [_ H].
  rewrite E', legal_app in H. apply andb_true_iff in H. tauto.
Qed.

Lemma legal_firstn n s : legal s = true -> legal (firstn n s) = true.
Proof.
  intros H. rewrite <- (firstn_skipn n s), legal_app in H.
  apply andb_true_iff in H. tauto.
Qed.

Lemma uint_digits (u : Decimal.uint) :
  forallb isDigit (lit (NilEmpty.string_of_uint u)) = true.
Proof. induction u; cbn; auto. Qed.

Lemma ofNat_digits n : forallb isDigit (Str.ofNat n) = true.
Proof. apply uint_digits. Qed.

Lemma digit_legal c : isDigit c = true -> isIllegal c = false.
Proof.
  intros H. unfold isIllegal.
  repeat match goal with
         | |- context [N.eqb c ?k] =>
           destruct (N.eqb c k) eqn:E;
             [apply N.eqb_eq in E; subst c; discriminate | clear E]
         end.
  reflexivity.
Qed.

Lemma pageLabel_legal n : legal (pageLabel n) = true.
Proof.
  unfold pageLabel. rewrite legal_app. apply andb_true_iff.
  split; [reflexivity|]. unfold legal. apply forallb_forall. intros c Hc.
  pose proof (proj1 (forallb_forall _ _) (ofNat_digits n) c Hc) as Hd.
  now rewrite (digit_legal c Hd).
Qed.

(** A safe name has a character, 31 at most, none of them illegal, and
    starts with no white space. *)
Lemma safeSheetName_safe raw idx :
  safeSheetName raw idx <> []
  /\ length (safeSheetName raw idx) <= 31
  /\ legal (safeSheetName raw idx) = true
  /\ isWhiteAt (safeSheetName raw idx) = false.
Proof.
  split; [|split; [apply SheetFacts.safeSheetName_length|]].
  - unfold safeSheetName.
    set (s1 := trim _).
    assert (H : (if truthy s1 then s1 else pageLabel (idx + 1)) <> []).
    { destruct s1; simpl; [|discriminate]. discriminate. }
    destruct (if truthy s1 then s1 else pageLabel (idx + 1)) as [|c t];
      [congruence|].
    destruct (31 <? _); discriminate.
  - unfold safeSheetName. rewrite strip_illegal.
    set (s1 := trim _).
    assert (H : legal (if truthy s1 then s1 else pageLabel (idx + 1)) = true
                /\ isWhiteAt (if truthy s1 then s1 else pageLabel (idx + 1))
                   = false).
    { destruct (truthy s1).
      - split; [apply legal_trim, legal_filter | apply trim_ends].
      - split; [apply pageLabel_legal | reflexivity]. }
    destruct H as [H1 H2].
    destruct (31 <? _).
    + split; [now apply legal_firstn|].
      unfold Str.slice0.
      destruct (if truthy s1 then s1 else pageLabel (idx + 1)); auto.
    + auto.
Qed.

Lemma filter_all_true (p : char -> bool) (s : str) :
  forallb p s = true -> filter p s = s.
Proof.
  induction s as [|c s IH]; [reflexivity|]. cbn [forallb filter].
  rewrite andb_true_iff. intros [-> H]. now rewrite IH.
Qed.

(** A text that is safe already is its own safe name. *)
Lemma safeSheetName_kept s idx :
  s <> [] -> length s <= 31 -> legal s = true ->
  isWhiteAt s = false -> isWhiteAt (rev s) = false ->
  safeSheetName (VString s) idx = s.
Proof.
  intros Hn Hl Hleg H1 H2. unfold safeSheetName. cbn [asString].
  rewrite strip_illegal, (filter_all_true _ s Hleg), (trim_stable s H1 H2).
  destruct s as [|c s]; [congruence|]. cbn [truthy].
  now replace (31 <? length (c :: s)) with false
    by (symmetry; apply Nat.ltb_ge; exact Hl).
Qed.

(** A name that is not in use is given as it is. *)
Lemma uniqueSheetName_free base used :
  ~ In base used -> uniqueSheetName base used = Some (base, add used base).
Proof.
  intros H. apply SheetFacts.has_false in H.
  unfold uniqueSheetName, rounds. cbn [whileUsed]. now rewrite H.
Qed.

End SheetNameFacts.

(* ================================================================== *)
(** * The cells of a sheet *)
(* ================================================================== *)

Module LayoutFacts.

Import MakeExcel.

(** ** The rows of a sheet *)

(** The header lines from row [row] on: each merged across the columns,
    with its text in the first cell. *)
Fixpoint headerLineRows (width : nat) (lines : list str) (row : nat)
  : list op :=
  match lines with
  | [] => []
  | line :: tl =>
    MergeCells row 1 row width :: SetValue row 1 (VString line)
               :: headerLineRows width tl (S row)
  end.

(** The first row of the data: row 2 when there are no header lines, and
    else below the header lines, a blank row and the row that is set in
    bold as the header row of the table. *)
Definition dataStart (page : ParsedPage) : nat :=
  match headerLines page with
  | Some ((_ :: _) as l) => length l + 3
  | _ => 2
  end.

(** The row of the totals: below the data and a blank row. *)
Definition totalsRow (page : ParsedPage) : nat :=
  dataStart page + length (rows page) + 1.

Lemma headerLines_fold width lines :
  forall acc r,
    fold_left
      (fun (acc : list op * nat) line =>
         let (ops, r) := acc in
         (ops ++ [MergeCells r 1 r width;
                  SetValue r 1 (VString (asString (VString line)))],
          r + 1))
      lines (acc, r)
    = (acc ++ headerLineRows width lines r, r + length lines).
Proof.
  induction lines as [|line tl IH]; intros acc r; cbn [fold_left].
  - cbn. now rewrite app_nil_r, Nat.add_0_r.
  - rewrite IH. cbn [headerLineRows length asString].
    rewrite <- app_assoc. cbn [app].
    replace (r + 1) with (S r) by lia. f_equal. lia.
Qed.

Lemma headerLineOps_spec width lines start :
  headerLineOps width lines start
  = (headerLineRows width lines start,
     match lines with
     | [] => start
     | _ :: _ => start + length lines + 1
     end).
Proof.
  unfold headerLineOps. destruct lines as [|line tl]; [reflexivity|].
  now rewrite headerLines_fold.
Qed.

Section Layout.

Variable loc : locale.

Lemma dataOps_next headers rows start :
  snd (dataOps loc headers rows start) = start + length rows.
Proof.
  revert start. induction rows as [|r rs IH]; intros start; cbn [dataOps].
  - cbn. lia.
  - specialize (IH (start + 1)).
    destruct (dataOps loc headers rs (start + 1)) as [ops next].
    cbn [snd length] in *. lia.
Qed.

(** The calls on the cells of the sheet of a page. *)
Lemma addPage_ops page idx used ws used' :
  addPage loc page idx used = Some (ws, used') ->
  wsOps ws
  = headerLineRows (length (headersOf page))
                   (match headerLines page with Some l => l | None => [] end)
                   1
      ++ fst (dataOps loc (headersOf page) (rows page) (dataStart page))
      ++ totalsOps loc page (length (headersOf page)) (totalsRow page).
Proof.
  unfold addPage.
  destruct (uniqueSheetName _ used) as [[name u]|]; [|discriminate].
  rewrite headerLineOps_spec.
  assert (E : (match
                  match headerLines page with Some l => l | None => [] end
                with
                | [] => 1
                | _ :: _ =>
                  1 + length (match headerLines page with
                              | Some l => l | None => []
                              end) + 1
                end) + 1 = dataStart page).
  { unfold dataStart. destruct (headerLines page) as [[|h t]|]; cbn; lia. }
  rewrite E.
  pose proof (dataOps_next (headersOf page) (rows page) (dataStart page)) as Hn.
  destruct (dataOps loc _ _ _) as [ops2 next]. cbn [fst snd] in *.
  intros H. inversion H. subst. cbn [wsOps]. unfold totalsRow.
  reflexivity.
Qed.

(** ** The cells that are assigned *)

Definition target (o : op) : list (nat * nat) :=
  match o with SetValue r c _ => [(r, c)] | MergeCells _ _ _ _ => [] end.

Definition targets (ops : list op) : list (nat * nat) := flat_map target ops.

Lemma targets_app a b : targets (a ++ b) = targets a ++ targets b.
Proof. apply flat_map_app. Qed.

Lemma targets_headerLines width lines row :
  targets (headerLineRows width lines row)
  = map (fun r => (r, 1)) (List.seq row (length lines)).
Proof.
  revert row. induction lines as [|line tl IH]; intros row; [reflexivity|].
  cbn [headerLineRows length List.seq map]. unfold targets in *.
  cbn [flat_map target app]. now rewrite IH.
Qed.

Lemma targets_rowOps r row i headers :
  targets (rowOps loc r row i headers)
  = map (fun c => (row, c)) (List.seq (i + 1) (length headers)).
Proof.
  revert i. induction headers as [|h hs IH]; intros i; [reflexivity|].
  cbn [rowOps length List.seq map]. unfold targets in *.
  cbn [flat_map target app]. rewrite IH.
  now replace (i + 1 + 1) with (S (i + 1)) by lia.
Qed.

Lemma targets_dataOps headers rows start :
  targets (fst (dataOps loc headers rows start))
  = flat_map (fun row => map (fun c => (row, c)) (List.seq 1 (length headers)))
             (List.seq start (length rows)).
Proof.
  revert start. induction rows as [|r rs IH]; intros start; [reflexivity|].
  cbn [dataOps]. specialize (IH (start + 1)).
  destruct (dataOps loc headers rs (start + 1)) as [ops next].
  cbn [fst length List.seq flat_map] in *.
  rewrite targets_app, targets_rowOps, IH.
  now replace (start + 1) with (S start) by lia.
Qed.

(** The cells the assembler assigns on the sheet of a page, in order. *)
Definition cellsOf (page : ParsedPage) : list (nat * nat) :=
  let w := length (headersOf page) in
  map (fun r => (r, 1))
      (List.seq 1 (length (match headerLines page with
                      | Some l => l | None => []
                      end)))
    ++ flat_map (fun row => map (fun c => (row, c)) (List.seq 1 w))
                (List.seq (dataStart page) (length (rows page)))
    ++ [(totalsRow page, 1); (totalsRow page, w - 1); (totalsRow page, w)].

Lemma addPage_targets page idx used ws used' :
  addPage loc page idx used = Some (ws, used') ->
  targets (wsOps ws) = cellsOf page.
Proof.
  intros H. rewrite (addPage_ops page idx used ws used' H).
  rewrite !targets_app, targets_headerLines, targets_dataOps.
  reflexivity.
Qed.

Lemma dataStart_above page :
  length (match headerLines page with Some l => l | None => [] end) + 2
  <= dataStart page.
Proof. unfold dataStart. destruct (headerLines page) as [[|h t]|]; cbn; lia. Qed.

Lemma cellsOf_range page :
  2 <= length (headersOf page) ->
  Forall (fun rc => 1 <= fst rc /\ 1 <= snd rc <= length (headersOf page))
         (cellsOf page).
Proof.
  intros Hw. unfold cellsOf.
  pose proof (dataStart_above page) as Hd.
  apply Forall_forall. intros [r c] H. cbn [fst snd].
  apply in_app_or in H. destruct H as [H | H].
  - apply in_map_iff in H. destruct H as (row & E & Hrow).
    inversion E. subst. apply in_seq in Hrow. lia.
  - apply in_app_or in H. destruct H as [H | H].
    + apply in_flat_map in H. destruct H as (row & Hrow & H).
      apply in_map_iff in H. destruct H as (col & E & Hcol).
      inversion E. subst. apply in_seq in Hrow, Hcol. lia.
    + unfold totalsRow in H. cbn [In] in H.
      repeat (destruct H as [H | H]; [inversion H; lia|]). destruct H.
Qed.

(** No cell of the row above the data is assigned. *)
Lemma cellsOf_above page c : ~ In (dataStart page - 1, c) (cellsOf page).
Proof.
  unfold cellsOf. intros H.
  assert (Hd : dataStart page
               = match headerLines page with
                 | Some ((_ :: _) as l) => length l + 3
                 | _ => 2
                 end) by reflexivity.
  apply in_app_or in H. destruct H as [H | H].
  - apply in_map_iff in H. destruct H as (row & E & Hrow).
    inversion E. subst. apply in_seq in Hrow.
    destruct (headerLines page) as [[|h t]|]; cbn [length] in *; lia.
  - apply in_app_or in H. destruct H as [H | H].
    + apply in_flat_map in H. destruct H as (row & Hrow & H).
      apply in_map_iff in H. destruct H as (col & E & Hcol).
      inversion E. subst. apply in_seq in Hrow.
      destruct (headerLines page) as [[|h t]|]; cbn [length] in *; lia.
    + unfold totalsRow in H. cbn [In] in H.
      repeat (destruct H as [H | H];
              [inversion H;
               destruct (headerLines page) as [[|h t]|]; cbn [length] in *;
               lia|]).
      destruct H.
Qed.

(** ** Where the lines and the rows of a page go *)

Lemma headerLineRows_at width lines row k line :
  nth_error lines k = Some line ->
  In (MergeCells (row + k) 1 (row + k) width)
     (headerLineRows width lines row)
  /\ In (SetValue (row + k) 1 (VString line)) (headerLineRows width lines row).
Proof.
  revert row k. induction lines as [|l tl IH]; intros row [|k] H;
    cbn [nth_error] in H; try discriminate.
  - inversion H. subst. rewrite Nat.add_0_r. cbn [headerLineRows In]. auto.
  - destruct (IH (S row) k H) as [H1 H2].
    replace (row + S k) with (S row + k) by lia.
    cbn [headerLineRows In]. auto.
Qed.

Lemma rowOps_at r row i headers j h :
  nth_error headers j = Some h ->
  In (SetValue row (i + j + 1) (cellValue loc r h)) (rowOps loc r row i headers).
Proof.
  revert i j. induction headers as [|x hs IH]; intros i [|j] H;
    cbn [nth_error] in H; try discriminate.
  - inversion H. subst. rewrite Nat.add_0_r. cbn [rowOps In]. auto.
  - cbn [rowOps In]. right.
    replace (i + S j + 1) with (i + 1 + j + 1) by lia. now apply IH.
Qed.

Lemma dataOps_at headers rows start i r j h :
  nth_error rows i = Some r -> nth_error headers j = Some h ->
  In (SetValue (start + i) (j + 1) (cellValue loc r h))
     (fst (dataOps loc headers rows start)).
Proof.
  revert start i. induction rows as [|x rs IH]; intros start [|i] Hr Hh;
    cbn [nth_error] in Hr; try discriminate.
  - inversion Hr. subst. cbn [dataOps].
    destruct (dataOps loc headers rs (start + 1)) as [ops next]. cbn [fst].
    apply in_or_app. left. rewrite Nat.add_0_r.
    now apply (rowOps_at r start 0 headers j h).
  - cbn [dataOps]. specialize (IH (start + 1) i Hr Hh).
    destruct (dataOps loc headers rs (start + 1)) as [ops next]. cbn [fst] in *.
    apply in_or_app. right.
    now replace (start + S i) with (start + 1 + i) by lia.
Qed.

End Layout.

End LayoutFacts.

(* ================================================================== *)
(** * The name of the download and the pages of a document *)
(* ================================================================== *)

Module IndexFacts.

Import RegexFacts StrFacts TotalsFacts Parse MakeExcel Index.

(** [.pdf] in any letter case. *)
Definition isPdfExt (s : str) : bool :=
  match s with
  | [a; b; c; d] =>
    N.eqb a (ch ".")
    && (N.eqb b (ch "p") || N.eqb b (ch "P"))
    && (N.eqb c (ch "d") || N.eqb c (ch "D"))
    && (N.eqb d (ch "f") || N.eqb d (ch "F"))
  | _ => false
  end.

Lemma class2 x y c : inClass [IChar x; IChar y] c = N.eqb c x || N.eqb c y.
Proof. unfold inClass. cbn [existsb inItem]. now rewrite orb_false_r. Qed.

Lemma oneChar_cons p before c tl cs k :
  oneChar p (MState before (c :: tl) cs) k
  = if p c then k (MState (c :: before) tl cs) else None.
Proof. reflexivity. Qed.

Lemma run_Chr c st k : run (Chr c) st k = oneChar (N.eqb c) st k.
Proof. reflexivity. Qed.

Lemma run_Cls items st k : run (Cls items) st k = oneChar (inClass items) st k.
Proof. reflexivity. Qed.

Lemma oneChar_nil p before cs k : oneChar p (MState before [] cs) k = None.
Proof. reflexivity. Qed.

(** An attempt of the expression succeeds exactly on a text that is
    [.pdf], and takes it whole. *)
Lemma run_pdf before s :
  run rxPdf (MState before s noCaps) (fun st => Some st)
  = if isPdfExt s then Some (MState (rev s ++ before) [] noCaps) else None.
Proof.
  unfold rxPdf. cbn [seq]. rewrite run_Seq, run_Chr.
  destruct s as [|a s]; [reflexivity|]. cbn [isPdfExt].
  rewrite oneChar_cons, (N.eqb_sym (ch ".") a).
  destruct (N.eqb a (ch ".")); [|now destruct s as [|? [|? [|? [|? ?]]]]].
  cbn [andb]. rewrite run_Seq, run_Cls.
  destruct s as [|b s]; [reflexivity|]. rewrite oneChar_cons, class2.
  destruct (N.eqb b (ch "p") || N.eqb b (ch "P"));
    [|now destruct s as [|? [|? [|? ?]]]].
  cbn [andb]. rewrite run_Seq, run_Cls.
  destruct s as [|c s]; [reflexivity|]. rewrite oneChar_cons, class2.
  destruct (N.eqb c (ch "d") || N.eqb c (ch "D"));
    [|now destruct s as [|? [|? ?]]].
  cbn [andb]. rewrite run_Seq, run_Cls.
  destruct s as [|d s]; [reflexivity|]. rewrite oneChar_cons, class2.
  destruct (N.eqb d (ch "f") || N.eqb d (ch "F"));
    [|now destruct s as [|? ?]].
  cbn [run rest rev app]. destruct s as [|e s]; [|reflexivity].
  now rewrite <- !app_assoc.
Qed.

(** The text ends with [.pdf] in some letter case. *)
Definition endsWithPdf (name : str) : bool :=
  isPdfExt (skipn (length name - 4) name).

Lemma isPdfExt_length s : isPdfExt s = true -> length s = 4.
Proof. now destruct s as [|? [|? [|? [|? [|? ?]]]]]. Qed.

Lemma search_pdf :
  forall s before,
    search rxPdf before s
    = if endsWithPdf s
      then Some (Result (length before + (length s - 4))
                        (skipn (length s - 4) s) noCaps
                        (MState (rev s ++ before) [] noCaps))
      else None.
Proof.
  induction s as [|c s IH]; intros before.
  - reflexivity.
  - cbn [search]. unfold matchAt. rewrite run_pdf.
    destruct (isPdfExt (c :: s)) eqn:E.
    + pose proof (isPdfExt_length _ E) as Hl.
      unfold endsWithPdf. rewrite Hl. cbn [Nat.sub skipn]. rewrite E.
      f_equal. unfold consumed. cbn [rest]. rewrite Hl. cbn [length Nat.sub].
      rewrite firstn_all2 by lia. f_equal. lia.
    + rewrite IH. unfold endsWithPdf.
      destruct (Nat.le_gt_cases (length (c :: s)) 4) as [Hle | Hgt].
      * replace (length (c :: s) - 4) with 0 by lia. cbn [skipn]. rewrite E.
        assert (Hs : length s - 4 = 0) by (simpl in Hle; lia).
        rewrite Hs. cbn [skipn].
        destruct (isPdfExt s) eqn:Es; [|reflexivity].
        apply isPdfExt_length in Es. simpl in Hle. lia.
      * replace (length (c :: s) - 4) with (S (length s - 4))
          by (simpl in *; lia).
        cbn [skipn].
        destruct (isPdfExt (skipn (length s - 4) s)); [|reflexivity].
        cbn [rev length]. rewrite <- app_assoc. cbn [app].
        do 2 f_equal. lia.
Qed.

(** The name of the download: the name of the file without its [.pdf],
    whatever the case of its letters, and [.xlsx] at its end. *)
Lemma outName_spec name :
  outName name
  = (if endsWithPdf name then firstn (length name - 4) name else name)
      ++ lit ".xlsx".
Proof.
  unfold outName, replaceFirst, exec. rewrite search_pdf.
  destruct (endsWithPdf name); [|reflexivity].
  cbn [index after rest Nat.add]. now rewrite app_nil_r.
Qed.

(** ** From the pages of a document to the sheets *)

Lemma splitColumns_three header : 3 <= length (splitColumns header).
Proof.
  unfold splitColumns. destruct (3 <=? length _) eqn:E.
  - now apply Nat.leb_le.
  - cbn. lia.
Qed.

(** The labels of a parsed page are the headers of its sheet. *)
Lemma parsed_headers lines idx :
  exists cols,
    columns (parseFromLines lines idx) = Some cols
    /\ 3 <= length cols
    /\ headersOf (parseFromLines lines idx) = cols.
Proof.
  destruct (PageFacts.parseFromLines_fields lines idx) as (_ & Hcols & _).
  set (hl := nth _ _ _) in Hcols.
  exists (splitColumns hl). split; [exact Hcols|].
  pose proof (splitColumns_three hl) as Hlen. split; [exact Hlen|].
  unfold headersOf, hasColumns. rewrite Hcols.
  destruct (splitColumns hl) as [|c cs]; [simpl in Hlen; lia|].
  cbn [asString]. apply map_id.
Qed.

Section Pages.

Variable canvas : Type.
Variable ocrCanvas : canvas -> str.

Lemma pageResult_lines i pg :
  exists lines, pageResult ocrCanvas i pg = parseFromLines lines (Z.of_nat i).
Proof.
  unfold pageResult. destruct (_ && _); eexists; reflexivity.
Qed.

Lemma resultsFrom_length pages :
  forall i, length (resultsFrom ocrCanvas i pages) = length pages.
Proof. induction pages as [|pg tl IH]; intros i; simpl; auto. Qed.

Lemma resultsFrom_headers pages :
  forall i,
    Forall (fun p => exists cols, columns p = Some cols /\ 3 <= length cols
                                  /\ headersOf p = cols)
           (resultsFrom ocrCanvas i pages).
Proof.
  induction pages as [|pg tl IH]; intros i; cbn [resultsFrom]; constructor;
    [|apply IH].
  destruct (pageResult_lines i pg) as (lines & ->). apply parsed_headers.
Qed.

End Pages.

Section Columns.

Variable loc : locale.

Lemma columnsOf_headers headers : map header (columnsOf headers) = headers.
Proof.
  unfold columnsOf. rewrite map_map. cbn [header]. apply map_id.
Qed.

Lemma addPage_columns page idx used ws used' :
  addPage loc page idx used = Some (ws, used') ->
  map header (wsColumns ws) = headersOf page
  /\ Forall (fun c => 12 <= width c <= 40) (wsColumns ws).
Proof.
  unfold addPage.
  destruct (uniqueSheetName _ used) as [[name u]|]; [|discriminate].
  destruct (headerLineOps _ _ _) as [ops1 r1].
  destruct (dataOps loc _ _ _) as [ops2 r2].
  intros H. inversion H. subst. cbn [wsColumns].
  split; [apply columnsOf_headers|].
  unfold columnsOf. apply Forall_forall. intros c Hc.
  apply in_map_iff in Hc. destruct Hc as (h & <- & _). cbn [width]. lia.
Qed.

Lemma addPages_sheets pages :
  forall idx used wss,
    addPages loc pages idx used = Some wss ->
    Forall2 (fun page ws =>
               map header (wsColumns ws) = headersOf page
               /\ LayoutFacts.targets (wsOps ws) = LayoutFacts.cellsOf page)
            pages wss.
Proof.
  induction pages as [|page ps IH]; intros idx used wss; cbn [addPages].
  - intros H. inversion H. constructor.
  - destruct (addPage loc page idx used) as [[ws u]|] eqn:E; [|discriminate].
    destruct (addPages loc ps (idx + 1) u) as [rest|] eqn:E'; [|discriminate].
    intros H. inversion H. subst. constructor.
    + split.
      * now apply (addPage_columns page idx used ws u).
      * now apply (LayoutFacts.addPage_targets loc page idx used ws u).
    + now apply (IH (idx + 1) u).
Qed.

End Columns.

End IndexFacts.

(* ================================================================== *)
(** * The labels of the columns *)
(* ================================================================== *)

Module ColumnFacts.

Import RegexFacts StrFacts RowFacts NormalizeFacts Parse.

(** No tab and no two spaces in a row: nothing [splitColumns] splits
    at. *)
Fixpoint gapFree (s : str) : bool :=
  match s with
  | [] => true
  | c :: tl =>
    negb (N.eqb tab c) && negb (N.eqb space c && startsWithSpace tl)
    && gapFree tl
  end.

Definition noPipe (s : str) : bool :=
  forallb (fun c : char => negb (N.eqb (ch "|") c)) s.

Lemma gapFree_cons c s :
  gapFree (c :: s) = true ->
  N.eqb tab c = false /\ (N.eqb space c && startsWithSpace s) = false
  /\ gapFree s = true.
Proof.
  cbn [gapFree]. rewrite !andb_true_iff, !negb_true_iff. tauto.
Qed.

Lemma gapFree_snoc s c :
  gapFree s = true -> N.eqb tab c = false ->
  (N.eqb space c && startsWithSpace (rev s)) = false ->
  gapFree (s ++ [c]) = true.
Proof.
  intros Hs Ht Hc. induction s as [|x s IH].
  - cbn [app gapFree startsWithSpace]. now rewrite Ht, andb_false_r.
  - apply gapFree_cons in Hs. destruct Hs as (H1 & H2 & H3).
    cbn [app gapFree]. rewrite H1. cbn [negb andb].
    assert (Hc' : (N.eqb space c && startsWithSpace (rev s)) = false).
    { destruct (N.eqb space c); [|reflexivity]. cbn [andb] in *.
      cbn [rev] in Hc. destruct (rev s) as [|y t]; [reflexivity|].
      exact Hc. }
    rewrite (IH H3 Hc'), andb_true_r.
    destruct (N.eqb space x) eqn:Ex; [|reflexivity]. cbn [andb] in *.
    destruct s as [|y s]; cbn [app startsWithSpace] in *.
    + cbn [rev app startsWithSpace] in Hc. rewrite Ex, andb_true_r in Hc.
      now rewrite Hc.
    + now rewrite H2.
Qed.

Lemma gapFree_suffix w s : gapFree (w ++ s) = true -> gapFree s = true.
Proof.
  induction w as [|c w IH]; simpl app; [auto|].
  intros H. apply gapFree_cons in H. tauto.
Qed.

Lemma gapFree_prefix a b : gapFree (a ++ b) = true -> gapFree a = true.
Proof.
  induction a as [|c a IH]; [reflexivity|]. simpl app.
  intros H. apply gapFree_cons in H. destruct H as (H1 & H3 & H4).
  cbn [gapFree]. rewrite H1, (IH H4). simpl.
  destruct a as [|d a]; [now rewrite andb_false_r|].
  simpl in *. now rewrite H3.
Qed.

Lemma gapFree_trim s : gapFree s = true -> gapFree (trim s) = true.
Proof.
  intros H. unfold trim.
  destruct (trimStart_suffix s) as (w & E & _).
  destruct (trimEnd_prefix (trimStart s)) as (w' & E' & _).
  rewrite E in H. apply gapFree_suffix in H. rewrite E' in H.
  now apply gapFree_prefix in H.
Qed.

Lemma noPipe_trim s : noPipe s = true -> noPipe (trim s) = true.
Proof.
  intros H. unfold trim, noPipe in *.
  destruct (trimStart_suffix s) as (w & E & _).
  destruct (trimEnd_prefix (trimStart s)) as (w' & E' & _).
  rewrite E, forallb_app in H. apply andb_true_iff in H. destruct H as [_ H].
  rewrite E', forallb_app in H. apply andb_true_iff in H. tauto.
Qed.

(** ** The expression [/ {2,}|\t+/] *)

Lemma rxGap_tab before tl : matchAt rxGap before (tab :: tl) <> None.
Proof.
  unfold matchAt.
  match goal with
  | |- match ?r with _ => _ end <> None =>
    assert (H : r <> None); [|destruct r; congruence]
  end.
  assert (Hw : lang rxGap [tab]).
  { right. exists [[tab]]. split; [reflexivity|]. split; [simpl; lia|].
    split; [exact I|]. repeat constructor. }
  apply (run_complete rxGap eq_refl [tab] Hw) with (s2 := tl);
    [reflexivity | discriminate].
Qed.

Lemma rxGap_spaces before tl :
  matchAt rxGap before (space :: space :: tl) <> None.
Proof.
  unfold matchAt.
  match goal with
  | |- match ?r with _ => _ end <> None =>
    assert (H : r <> None); [|destruct r; congruence]
  end.
  assert (Hw : lang rxGap [space; space]).
  { left. exists [[space]; [space]]. split; [reflexivity|].
    split; [simpl; lia|]. split; [exact I|]. repeat constructor. }
  apply (run_complete rxGap eq_refl [space; space] Hw) with (s2 := tl);
    [reflexivity | discriminate].
Qed.

(** A match takes at least one character, and what is left is the end
    of the text. *)
Lemma rxGap_rest before s m :
  matchAt rxGap before s = Some m ->
  exists w, w <> [] /\ s = w ++ rest (after m).
Proof.
  unfold matchAt.
  destruct (run rxGap _ _) as [st'|] eqn:E; [|discriminate].
  intros H. inversion H. subst. cbn [after].
  apply run_sound in E. destruct E as (st'' & HM & Heq).
  inversion Heq. subst.
  destruct (Matches_lang rxGap eq_refl _ _ HM) as (w & Hr & _ & Hw).
  exists w. split; [|exact Hr].
  now apply (@lang_nonempty rxGap eq_refl eq_refl w).
Qed.

(** ** The pieces of the header line *)

Lemma noPipe_rev s : noPipe (rev s) = noPipe s.
Proof.
  unfold noPipe. destruct (forallb _ s) eqn:E.
  - rewrite forallb_forall in *. intros x Hx. apply E. now apply in_rev.
  - destruct (forallb _ (rev s)) eqn:E'; [|reflexivity].
    rewrite <- E. symmetry. rewrite forallb_forall in *.
    intros x Hx. apply E'. now apply in_rev in Hx.
Qed.

Lemma splitFrom_gap :
  forall fuel (s : str) (piece before : list char),
    length s < fuel ->
    gapFree (rev piece) = true -> noPipe piece = true -> noPipe s = true ->
    (startsWithSpace piece = true -> startsWithSpace s = false) ->
    Forall (fun l : str => gapFree l = true /\ noPipe l = true)
           (splitFrom rxGap fuel piece before s).
Proof.
  induction fuel as [|fuel IH]; intros s piece before Hf Hg Hp Hs Hsp; [lia|].
  cbn [splitFrom]. destruct s as [|c tl].
  - constructor; [|constructor]. now rewrite noPipe_rev.
  - cbn [length] in Hf.
    destruct (matchAt rxGap before (c :: tl)) as [m|] eqn:E.
    + destruct (rxGap_rest before (c :: tl) m E) as (w & Hw & Hr).
      assert (Hl : length (rest (after m)) < length (c :: tl)).
      { pose proof (f_equal (@length char) Hr) as Hlen.
        rewrite length_app in Hlen.
        destruct w; [congruence | simpl in Hlen |- *; lia]. }
      replace (Nat.eqb (length (rest (after m))) (length (c :: tl)))
        with false by (symmetry; apply Nat.eqb_neq; lia).
      cbn [andb]. constructor; [now rewrite noPipe_rev|].
      apply IH; auto.
      * simpl in Hl. lia.
      * unfold noPipe in *. rewrite Hr, forallb_app in Hs.
        apply andb_true_iff in Hs. tauto.
      * discriminate.
    + assert (Htab : N.eqb tab c = false).
      { destruct (N.eqb tab c) eqn:Et; [|reflexivity].
        apply N.eqb_eq in Et. subst c.
        now destruct (rxGap_tab before tl). }
      unfold noPipe in Hs. cbn [forallb] in Hs.
      apply andb_true_iff in Hs. destruct Hs as [Hc Hs].
      apply IH; auto.
      * lia.
      * cbn [rev]. apply gapFree_snoc; auto.
        rewrite rev_involutive.
        destruct (N.eqb space c) eqn:Ec; [|reflexivity]. cbn [andb].
        destruct (startsWithSpace piece) eqn:Ep; [|reflexivity].
        specialize (Hsp eq_refl). cbn [startsWithSpace] in Hsp. congruence.
      * unfold noPipe in *. cbn [forallb]. now rewrite Hc, Hp.
      * cbn [startsWithSpace]. intros Ec.
        destruct tl as [|d tl]; [reflexivity|]. cbn [startsWithSpace].
        destruct (N.eqb space d) eqn:Ed; [|reflexivity].
        apply N.eqb_eq in Ec, Ed. subst c d.
        now destruct (rxGap_spaces before tl).
Qed.

Lemma split_gap s :
  noPipe s = true ->
  Forall (fun l : str => gapFree l = true /\ noPipe l = true)
         (split rxGap s).
Proof.
  intros H. unfold split. destruct s as [|c s].
  - destruct (matchAt rxGap [] []); repeat constructor.
  - apply splitFrom_gap; auto; [lia | discriminate].
Qed.

Lemma unPipe s :
  noPipe (replaceAll rxPipe (lit "  ") s) = true.
Proof.
  unfold rxPipe. rewrite replaceAll_Chr. unfold noPipe.
  induction s as [|c s IH]; [reflexivity|].
  cbn [flat_map]. rewrite forallb_app. apply andb_true_iff.
  split; [|exact IH].
  destruct (N.eqb (ch "|") c) eqn:E; [reflexivity|].
  cbn [forallb]. now rewrite E.
Qed.

(** A label is not empty, has no white space at its ends, no tab, no
    two spaces in a row and no [|]. *)
Definition goodLabel (l : str) : Prop :=
  l <> [] /\ isWhiteAt l = false /\ isWhiteAt (rev l) = false
  /\ gapFree l = true /\ noPipe l = true.

Lemma splitColumns_labels header :
  Forall goodLabel (splitColumns header).
Proof.
  unfold splitColumns.
  destruct (3 <=? length _).
  - apply Forall_forall. intros l Hl. apply filter_In in Hl.
    destruct Hl as [Hl Ht]. apply in_map_iff in Hl.
    destruct Hl as (x & <- & Hx).
    pose proof (split_gap _ (unPipe header)) as Hall.
    rewrite Forall_forall in Hall. destruct (Hall x Hx) as [Hg Hp].
    destruct (trim_ends x) as [H1 H2].
    repeat split; auto.
    + now destruct (trim x).
    + now apply gapFree_trim.
    + now apply noPipe_trim.
  - unfold canonicalColumns.
    repeat (constructor; [repeat split; try reflexivity; discriminate|]).
    constructor.
Qed.

End ColumnFacts.

(* ================================================================== *)
(** * The sum of the amounts *)
(* ================================================================== *)

Module SumFacts.

Import AmountFacts MakeExcel.

Definition notNaN (x : number) : bool :=
  match x with S754_nan => false | _ => true end.

(** ** Rounding never gives NaN *)

Lemma shr_1_nonneg mrs : (0 <= shr_m mrs)%Z -> (0 <= shr_m (shr_1 mrs))%Z.
Proof.
  destruct mrs as [m r s]. destruct m as [|[p|p|]|p]; cbn; lia.
Qed.

Lemma iter_shr_nonneg p :
  forall mrs, (0 <= shr_m mrs)%Z -> (0 <= shr_m (iter_pos shr_1 p mrs))%Z.
Proof.
  induction p as [p IH|p IH|]; intros mrs H; cbn [iter_pos].
  - apply IH, IH. now apply shr_1_nonneg.
  - now apply IH, IH.
  - now apply shr_1_nonneg.
Qed.

Lemma shr_fexp_nonneg m e l :
  (0 <= m)%Z -> (0 <= shr_m (fst (shr_fexp prec emax m e l)))%Z.
Proof.
  intros H. unfold shr_fexp, shr.
  assert (Hm : (0 <= shr_m (shr_record_of_loc m l))%Z)
    by (destruct l as [|[| |]]; exact H).
  destruct (_ - e)%Z; cbn [fst]; auto. now apply iter_shr_nonneg.
Qed.

Lemma round_nonneg m l : (0 <= m)%Z -> (0 <= round_nearest_even m l)%Z.
Proof.
  intros H. unfold round_nearest_even.
  destruct l as [|[| |]]; try lia. destruct (Z.even m); lia.
Qed.

Lemma binary_round_aux_notNaN sx mx ex lx :
  (0 <= mx)%Z -> notNaN (binary_round_aux prec emax sx mx ex lx) = true.
Proof.
  intros H. unfold binary_round_aux.
  pose proof (shr_fexp_nonneg mx ex lx H) as H1.
  destruct (shr_fexp prec emax mx ex lx) as [mrs e']. cbn [fst] in H1.
  pose proof (shr_fexp_nonneg
                (round_nearest_even (shr_m mrs) (loc_of_shr_record mrs))
                e' loc_Exact (round_nonneg _ _ H1)) as H2.
  destruct (shr_fexp prec emax _ e' loc_Exact) as [mrs' e'']. cbn [fst] in H2.
  destruct (shr_m mrs'); [reflexivity | | lia].
  destruct (Z.leb _ _); reflexivity.
Qed.

Lemma binary_normalize_notNaN m e s :
  notNaN (binary_normalize prec emax m e s) = true.
Proof.
  unfold binary_normalize, binary_round. destruct m as [|p|p];
    [reflexivity | |];
    destruct (shl_align _ _ _) as [mz ez];
    apply binary_round_aux_notNaN; lia.
Qed.

Lemma binary_normalize_sign p e s :
  isNonNegative (binary_normalize prec emax (Zpos p) e s) = true.
Proof.
  pose proof (binary_normalize_notNaN (Zpos p) e s) as Hn.
  unfold binary_normalize, binary_round in *.
  destruct (shl_align _ _ _) as [mz ez].
  destruct (binary_round_aux_sign false (Zpos mz) ez loc_Exact) as [E | E];
    [rewrite E in Hn; discriminate | exact E].
Qed.

(** ** Sums *)

Lemma add_notNaN x y :
  notNaN x = true -> isFinite y = true -> notNaN (Num.add x y) = true.
Proof.
  unfold Num.add. destruct x as [sx|sx| |sx mx ex], y as [sy|sy| |sy my ey];
    try discriminate; intros _ _; cbn [SFadd]; try reflexivity.
  - destruct sx, sy; reflexivity.
  - apply binary_normalize_notNaN.
Qed.

Lemma add_nonNegative x y :
  isNonNegative x = true -> isNonNegative y = true -> isFinite y = true ->
  isNonNegative (Num.add x y) = true.
Proof.
  unfold Num.add. destruct x as [sx|sx| |sx mx ex], y as [sy|sy| |sy my ey];
    try discriminate; cbn [isNonNegative]; intros Hx Hy _;
      apply negb_true_iff in Hx; apply negb_true_iff in Hy; subst;
        cbn [SFadd]; try reflexivity.
  cbn [cond_Zopp]. apply binary_normalize_sign.
Qed.

Lemma fold_notNaN (l : list number) :
  Forall (fun y => isFinite y = true) l ->
  forall acc, notNaN acc = true -> notNaN (fold_left Num.add l acc) = true.
Proof.
  induction 1 as [|y l Hy _ IH]; intros acc Ha; cbn [fold_left]; [exact Ha|].
  apply IH. now apply add_notNaN.
Qed.

Lemma fold_nonNegative (l : list number) :
  Forall (fun y => isNonNegative y = true /\ isFinite y = true) l ->
  forall acc, isNonNegative acc = true ->
              isNonNegative (fold_left Num.add l acc) = true.
Proof.
  induction 1 as [|y l [Hy Hf] _ IH]; intros acc Ha; cbn [fold_left];
    [exact Ha|].
  apply IH. now apply add_nonNegative.
Qed.

(** The sum of the amounts is a number. *)
Lemma sumAmounts_notNaN rows : notNaN (sumAmounts rows) = true.
Proof.
  rewrite SheetFacts.sumAmounts_fold. apply fold_notNaN; [|reflexivity].
  apply Forall_forall. intros y Hy. apply in_map_iff in Hy.
  destruct Hy as (r & <- & _). apply SheetFacts.toNumber_finite.
Qed.

Lemma sumAmounts_nonNegative rows :
  Forall (fun r => isNonNegative (toNumber (amount r)) = true) rows ->
  isNonNegative (sumAmounts rows) = true.
Proof.
  intros H. rewrite SheetFacts.sumAmounts_fold.
  apply fold_nonNegative; [|reflexivity].
  apply Forall_forall. intros y Hy. apply in_map_iff in Hy.
  destruct Hy as (r & <- & Hr). rewrite Forall_forall in H.
  split; [now apply H | apply SheetFacts.toNumber_finite].
Qed.

Lemma totalAmountNum_notNaN page : notNaN (totalAmountNum page) = true.
Proof.
  unfold totalAmountNum.
  assert (Hf : forall v, notNaN (toNumber v) = true).
  { intros v. pose proof (SheetFacts.toNumber_finite v) as H.
    now destruct (toNumber v). }
  destruct (totals page) as [[c [|s|n|t]]|]; auto using sumAmounts_notNaN.
Qed.

End SumFacts.

(* ================================================================== *)
(** * The cell under a label the row has nothing for *)
(* ================================================================== *)

Module CellFacts.

Import MakeExcel.

(** The labels the assembler has a field for, the names of the fields
    of a row, and the names every object inherits. *)
Definition knownLabels : list str :=
  [lit "STUDENT NO"; lit "SIN"; lit "GOV"; lit "CERT #";
   lit "ABBREVIATED NAME"; lit "EOS DATE"; lit "AMOUNT"].

Definition fieldNames : list str :=
  [lit "studentNo"; lit "sin"; lit "gov"; lit "cert"; lit "name";
   lit "eosDate"; lit "amount"].

Definition inheritedNames : list str :=
  [lit "constructor"; lit "__defineGetter__"; lit "__defineSetter__";
   lit "hasOwnProperty"; lit "__lookupGetter__"; lit "__lookupSetter__";
   lit "isPrototypeOf"; lit "propertyIsEnumerable"; lit "toString";
   lit "valueOf"; lit "__proto__"; lit "toLocaleString"].

Lemma eqb_neq (a b : str) : a <> b -> Str.eqb a b = false.
Proof.
  intros H. destruct (Str.eqb a b) eqn:E; [|reflexivity].
  apply SheetFacts.eqb_eq in E. contradiction.
Qed.

Lemma headerKeyMap_unknown key :
  ~ In key knownLabels -> headerKeyMap key = None.
Proof.
  intros H. unfold headerKeyMap.
  rewrite !eqb_neq; [reflexivity | ..];
    intros ->; apply H; cbn [knownLabels In]; auto 10.
Qed.

Lemma assoc_none h (l : list (str * value)) :
  (forall v, ~ In (h, v) l) -> assoc h l = None.
Proof.
  induction l as [|[k v] l IH]; intros H; [reflexivity|].
  cbn [assoc]. rewrite eqb_neq.
  - apply IH. intros w Hw. apply (H w). now right.
  - intros ->. apply (H v). now left.
Qed.

Lemma property_unknown r h :
  ~ In h fieldNames -> ~ In h inheritedNames ->
  (forall v, ~ In (h, v) (extra r)) ->
  property r h = VUndefined.
Proof.
  intros Hf Hi He. unfold property.
  rewrite !eqb_neq;
    try (intros ->; apply Hf; cbn [fieldNames In]; auto 10).
  rewrite (assoc_none h (extra r) He).
  rewrite assoc_none; [reflexivity|].
  intros v Hv. apply Hi. unfold objectPrototype in Hv. cbn [In] in Hv.
  cbn [inheritedNames In].
  repeat (destruct Hv as [Hv | Hv]; [inversion Hv; auto 15|]).
  destruct Hv.
Qed.

End CellFacts.

(* ================================================================== *)
(** * The totals row *)
(* ================================================================== *)

Module TotalsRowFacts.

Import RegexFacts StrFacts Parse MakeExcel.

(** ** The count and the amount, as the specification words them *)

(** The coercion rule: a finite number is taken as it is; of a text the
    commas, the dollar signs and the white space are taken out and the
    rest is read as a number; and whatever gives no finite number
    is 0. *)
Definition finiteOr0 (n : number) : number := if isFinite n then n else zero.

Definition coerced (v : value) : number :=
  match v with
  | VUndefined => zero
  | VNumber x => finiteOr0 x
  | VString s | VObject s =>
    finiteOr0 (ofString (filter (fun c => negb (CoercionFacts.stripped c)) s))
  end.

(** The count: the one the page supplies, else the number of its
    rows. *)
Definition shownCount (page : ParsedPage) : number :=
  match totals page with
  | Some t =>
    match count t with
    | Some c => c
    | None => ofZ (Z.of_nat (length (rows page)))
    end
  | None => ofZ (Z.of_nat (length (rows page)))
  end.

(** The sum of the coerced amounts of the rows, from the first row
    on. *)
Definition rowSum (page : ParsedPage) : number :=
  fold_left Num.add (map (fun r => coerced (amount r)) (rows page)) zero.

(** The amount: the coerced one the page supplies, else the sum of the
    coerced amounts of its rows. *)
Definition shownAmount (page : ParsedPage) : number :=
  match totals page with
  | Some t =>
    match t_amount t with
    | VUndefined => rowSum page
    | supplied => coerced supplied
    end
  | None => rowSum page
  end.

(** ** The coercion of the assembler follows the rule *)

Lemma numberOr0_ofString s : numberOr0 s = ofString s.
Proof. now destruct s. Qed.

Lemma toNumber_coerced v : MakeExcel.toNumber v = coerced v.
Proof.
  destruct v as [|s|n|t]; cbn [MakeExcel.toNumber coerced asString].
  - vm_compute. reflexivity.
  - now rewrite CoercionFacts.strip_filter, numberOr0_ofString.
  - reflexivity.
  - now rewrite CoercionFacts.strip_filter, numberOr0_ofString.
Qed.

Lemma totalCount_shown page : totalCount page = shownCount page.
Proof.
  unfold totalCount, shownCount.
  destruct (totals page) as [[[c|] a]|]; reflexivity.
Qed.

Lemma sumAmounts_rowSum page : sumAmounts (rows page) = rowSum page.
Proof.
  rewrite SheetFacts.sumAmounts_fold. unfold rowSum. f_equal.
  apply map_ext. intros r. apply toNumber_coerced.
Qed.

Lemma totalAmountNum_shown page : totalAmountNum page = shownAmount page.
Proof.
  unfold totalAmountNum, shownAmount.
  destruct (totals page) as [[c [|s|n|t]]|]; cbn [t_amount];
    try apply sumAmounts_rowSum; apply toNumber_coerced.
Qed.

(** ** The last calls on a sheet *)

Section Calls.

Variable loc : locale.

Lemma addPage_totals page idx used :
  exists ws used' above,
    addPage loc page idx used = Some (ws, used')
    /\ wsOps ws
       = above ++ totalsOps loc page (length (headersOf page))
                            (LayoutFacts.totalsRow page).
Proof.
  destruct (SheetFacts.addPage_total loc page idx used) as (ws & H & _).
  exists ws, (add used (wsName ws)).
  eexists. split; [exact H|].
  rewrite (LayoutFacts.addPage_ops loc page idx used ws _ H).
  rewrite app_assoc. reflexivity.
Qed.

(** What holds of the calls for any one page holds of the calls for each
    page of a workbook. *)
Lemma addPages_each (R : ParsedPage -> worksheet -> Prop) :
  (forall page idx used ws used',
      addPage loc page idx used = Some (ws, used') -> R page ws) ->
  forall pages idx used wss,
    addPages loc pages idx used = Some wss -> Forall2 R pages wss.
Proof.
  intros HR. induction pages as [|page ps IH]; intros idx used wss;
    cbn [addPages].
  - intros H. inversion H. constructor.
  - destruct (addPage loc page idx used) as [[ws u]|] eqn:E; [|discriminate].
    destruct (addPages loc ps (idx + 1) u) as [rest|] eqn:E'; [|discriminate].
    intros H. inversion H. subst. constructor.
    + now apply (HR page idx used ws u).
    + now apply (IH (idx + 1) u).
Qed.

(** The calls of the totals row, in row [r]. *)
Definition totalsCalls (page : ParsedPage) (r : nat) : list op :=
  [ MergeCells r 1 r (Nat.max 1 (length (headersOf page) - 2));
    SetValue r 1 (VString (lit "TOTAL FOR THIS DISBURSEMENT"));
    SetValue r (length (headersOf page) - 1) (VNumber (shownCount page));
    SetValue r (length (headersOf page))
             (VString (lit "$" ++ toLocaleString2 loc (shownAmount page))) ].

Lemma totalsOps_calls page r :
  totalsOps loc page (length (headersOf page)) r = totalsCalls page r.
Proof.
  unfold totalsOps, totalsCalls, fmtMoney.
  now rewrite totalCount_shown, totalAmountNum_shown.
Qed.

End Calls.

Lemma totalsRow_positive page : 3 <= LayoutFacts.totalsRow page.
Proof.
  unfold LayoutFacts.totalsRow.
  pose proof (LayoutFacts.dataStart_above page). lia.
Qed.

(** A library that keeps the calls made, and throws on a cell in
    column 0 only. *)
Definition recorder (wb : list call) (c : call) : option (list call) :=
  match c with
  | OnSheet (SetValue _ 0 _) => None
  | _ => Some (wb ++ [c])
  end.

(** Three amounts of 100, as texts or as numbers, add up to 300. *)
Lemma three_hundred (l : list value) :
  length l = 3 ->
  Forall (fun a => a = VString (lit "100.00") \/ a = VNumber (ofZ 100)) l ->
  fold_left Num.add (map coerced l) zero = ofZ 300.
Proof.
  intros Hl H.
  destruct l as [|a [|b [|c [|d l]]]]; try discriminate Hl.
  inversion H as [|? ? Ha H1]; subst.
  inversion H1 as [|? ? Hb H2]; subst.
  inversion H2 as [|? ? Hc _]; subst.
  destruct Ha as [-> | ->], Hb as [-> | ->], Hc as [-> | ->];
    vm_compute; reflexivity.
Qed.

End TotalsRowFacts.

(** A page with three rows of 100.00 and no totals, a page whose totals
    supply the amount 26460, a page whose totals supply an amount that
    is no finite number, and a page with one label. *)
Definition row100 : ParsedRow :=
  mkRow None None None None None None (VString (lit "100.00")) [].
Definition page300 : ParsedPage :=
  mkPage None None None [row100; row100; row100] None.
Definition pageSupplied : ParsedPage :=
  mkPage None None None [row100]
         (Some (mkTotals (Some (ofZ 12)) (VNumber (ofZ 26460)))).
Definition pageInfinite : ParsedPage :=
  mkPage None None None [row100]
         (Some (mkTotals (Some (ofZ 1)) (VNumber (S754_infinity false)))).
Definition oneLabelPage : ParsedPage :=
  mkPage None None (Some [lit "AMOUNT"]) [] None.

(** C8, as amended.  Whatever the default locale, for every page with
    two labels or more the last calls of the assembler on the sheet
    write the totals row: the count the page supplies, else the number
    of its rows, in the column before the last, and in the last column
    ["$"] with the two-decimal form, in the default locale, of the
    amount the page supplies, coerced to a number, else of the sum of
    the coerced amounts of its rows; these cells lie in columns from 1
    on.  The calls for every page of a workbook end so, and the workbook
    is what the library makes of the calls.  A finite number supplied as
    the amount is shown as it is: 26460, in the en-US form of numbers,
    as ["$26,460.00"]; and three rows of 100.00 without supplied totals
    give the count 3 and the amount 300, in the en-US form
    ["$300.00"]. *)
Theorem totals_row_count_and_amount :
  (forall (loc : locale) (page : ParsedPage) (idx : nat) (used : StrSet),
      2 <= length (headersOf page) ->
      exists ws used' above r,
        addPage loc page idx used = Some (ws, used')
        /\ wsOps ws
           = above
               ++ [ MergeCells r 1 r (Nat.max 1 (length (headersOf page) - 2));
                    SetValue r 1 (VString (lit "TOTAL FOR THIS DISBURSEMENT"));
                    SetValue r (length (headersOf page) - 1)
                             (VNumber (TotalsRowFacts.shownCount page));
                    SetValue r (length (headersOf page))
                             (VString
                                (lit "$"
                                     ++ toLocaleString2
                                          loc
                                          (TotalsRowFacts.shownAmount page))) ]
        /\ 1 <= r
        /\ 1 <= length (headersOf page) - 1 < length (headersOf page))
  /\ (forall (loc : locale) (pages : list ParsedPage),
         exists wss,
           requests loc pages = Some wss
           /\ Forall2 (fun page ws =>
                         exists above r,
                           wsOps ws
                           = above ++ TotalsRowFacts.totalsCalls loc page r)
                      pages wss
           /\ forall (workbook : Type)
                     (perform : workbook -> call -> option workbook)
                     (wb : workbook),
               createWorkbookFromPages loc perform wb pages
               = performAll perform wb (flat_map callsOf wss))
  /\ (forall (page : ParsedPage) (c : option number) (n : number),
         totals page = Some (mkTotals c (VNumber n)) ->
         isFinite n = true ->
         TotalsRowFacts.shownAmount page = n)
  /\ (forall (page : ParsedPage) (c : number) (a : value),
         totals page = Some (mkTotals (Some c) a) ->
         TotalsRowFacts.shownCount page = c)
  /\ (forall page : ParsedPage,
         totals page = None ->
         length (rows page) = 3 ->
         Forall (fun r => amount r = VString (lit "100.00")
                          \/ amount r = VNumber (ofZ 100))
                (rows page) ->
         TotalsRowFacts.shownCount page = ofZ 3
         /\ TotalsRowFacts.shownAmount page = ofZ 300
         /\ lit "$" ++ toLocaleString2 enUS (TotalsRowFacts.shownAmount page)
            = lit "$300.00")
  /\ lit "$" ++ toLocaleString2 enUS (TotalsRowFacts.shownAmount pageSupplied)
     = lit "$26,460.00".
Proof.
  split; [|split; [|split; [|split; [|split]]]].
  - intros loc page idx used Hw.
    destruct (TotalsRowFacts.addPage_totals loc page idx used)
      as (ws & used' & above & H & Hops).
    exists ws, used', above, (LayoutFacts.totalsRow page).
    split; [exact H|]. split.
    + rewrite Hops. apply f_equal.
      apply (TotalsRowFacts.totalsOps_calls loc).
    + pose proof (TotalsRowFacts.totalsRow_positive page). lia.
  - intros loc pages.
    destruct (SheetFacts.addPages_names loc pages 0 []) as (wss & H & _).
    exists wss. split; [exact H|]. split.
    + refine (TotalsRowFacts.addPages_each loc _ _ pages 0 [] wss H).
      intros page idx used ws used' Hp.
      destruct (TotalsRowFacts.addPage_totals loc page idx used)
        as (ws' & u' & above & H' & Hops).
      rewrite Hp in H'. inversion H'. subst ws' u'.
      exists above, (LayoutFacts.totalsRow page).
      rewrite Hops. apply f_equal. apply TotalsRowFacts.totalsOps_calls.
    + intros workbook perform wb. unfold createWorkbookFromPages.
      unfold requests. now rewrite H.
  - intros page c n Ht Hn. unfold TotalsRowFacts.shownAmount.
    rewrite Ht. cbn [t_amount TotalsRowFacts.coerced].
    unfold TotalsRowFacts.finiteOr0. now rewrite Hn.
  - intros page c a Ht. unfold TotalsRowFacts.shownCount. now rewrite Ht.
  - intros page Ht Hlen Hrows.
    assert (Hs : TotalsRowFacts.shownAmount page = ofZ 300).
    { unfold TotalsRowFacts.shownAmount, TotalsRowFacts.rowSum.
      rewrite Ht, <- (map_map amount TotalsRowFacts.coerced).
      apply TotalsRowFacts.three_hundred.
      - now rewrite length_map.
      - apply Forall_forall. intros a Ha. apply in_map_iff in Ha.
        destruct Ha as (r & <- & Hr). rewrite Forall_forall in Hrows.
        now apply Hrows. }
    split; [|split; [exact Hs|]].
    + unfold TotalsRowFacts.shownCount. rewrite Ht, Hlen. reflexivity.
    + rewrite Hs. vm_compute. reflexivity.
  - vm_compute. reflexivity.
Qed.

Lemma totals_row_count_and_amount_witness :
  2 <= length (headersOf page300)
  /\ exists ws used' above r,
      addPage enUS page300 0 [] = Some (ws, used')
      /\ wsOps ws
         = above
             ++ [ MergeCells r 1 r (Nat.max 1 (length (headersOf page300) - 2));
                  SetValue r 1 (VString (lit "TOTAL FOR THIS DISBURSEMENT"));
                  SetValue r (length (headersOf page300) - 1)
                           (VNumber (TotalsRowFacts.shownCount page300));
                  SetValue r (length (headersOf page300))
                           (VString
                              (lit "$"
                                   ++ toLocaleString2
                                        enUS
                                        (TotalsRowFacts.shownAmount page300))) ]
      /\ 1 <= r
      /\ 1 <= length (headersOf page300) - 1 < length (headersOf page300).
Proof.
  split; [cbn; lia|].
  apply (proj1 totals_row_count_and_amount enUS page300 0 []). cbn. lia.
Defined.

(** C8, as the specification words it, fails in three ways.  Under the
    default locale de-DE the page with three rows of 100.00 shows
    ["$300,00"].  An amount that the page supplies and that is no finite
    number is not shown: it counts as 0.  And on a page with one label
    the count of the totals row goes to column 0, where the library
    throws, so that no workbook is assembled, whatever else the library
    does; a library that keeps the calls and throws on column 0 only
    assembles the page with three rows of 100.00 and not the page with
    one label. *)
Lemma totals_row_fails_as_worded :
  (exists ws used',
      addPage deDE page300 0 [] = Some (ws, used')
      /\ last (wsOps ws) (MergeCells 0 0 0 0)
         = SetValue 6 7 (VString (lit "$300,00")))
  /\ (exists ws used',
         addPage enUS pageInfinite 0 [] = Some (ws, used')
         /\ last (wsOps ws) (MergeCells 0 0 0 0)
            = SetValue 4 7 (VString (lit "$0.00")))
  /\ headersOf oneLabelPage = [lit "AMOUNT"]
  /\ (exists ws used',
         addPage enUS oneLabelPage 0 [] = Some (ws, used')
         /\ wsOps ws
            = [ MergeCells 3 1 3 1;
                SetValue 3 1 (VString (lit "TOTAL FOR THIS DISBURSEMENT"));
                SetValue 3 0 (VNumber (ofZ 0));
                SetValue 3 1 (VString (lit "$0.00")) ])
  /\ (forall (loc : locale) (workbook : Type)
             (perform : workbook -> call -> option workbook)
             (wb : workbook),
         (forall w r v, perform w (OnSheet (SetValue r 0 v)) = None) ->
         createWorkbookFromPages loc perform wb [oneLabelPage] = None)
  /\ createWorkbookFromPages enUS TotalsRowFacts.recorder [] [oneLabelPage]
     = None
  /\ createWorkbookFromPages enUS TotalsRowFacts.recorder [] [page300]
     <> None.
Proof.
  split; [|split; [|split; [|split; [|split; [|split]]]]].
  - eexists. eexists. split; vm_compute; reflexivity.
  - eexists. eexists. split; vm_compute; reflexivity.
  - reflexivity.
  - eexists. eexists. split; vm_compute; reflexivity.
  - intros loc workbook perform wb Hzero. unfold createWorkbookFromPages.
    assert (E : requests loc [oneLabelPage]
                = Some [mkSheet (lit "Page 1")
                                (columnsOf [lit "AMOUNT"])
                                [ MergeCells 3 1 3 1;
                                  SetValue 3 1
                                    (VString (lit "TOTAL FOR THIS DISBURSEMENT"));
                                  SetValue 3 0 (VNumber (ofZ 0));
                                  SetValue 3 1
                                    (VString (lit "$" ++ loc (ofZ 0))) ]])
      by reflexivity.
    rewrite E. cbn [flat_map callsOf wsName wsColumns wsOps map app performAll].
    destruct (perform wb _) as [w1|]; [|reflexivity].
    destruct (perform w1 _) as [w2|]; [|reflexivity].
    destruct (perform w2 _) as [w3|]; [|reflexivity].
    destruct (perform w3 _) as [w4|]; [|reflexivity].
    now rewrite Hzero.
  - vm_compute. reflexivity.
  - vm_compute. discriminate.
Qed.

(* ================================================================== *)
(** * Further properties of the code *)
(* ================================================================== *)

(** X1. [normalize] gives a text without tab or non-breaking space,
    without two spaces in a row and without white space at its ends,
    and leaves such a text as it is: normalizing twice is normalizing
    once. *)
Theorem normalize_gives_normalized_text :
  forall s : str,
    NormalizeFacts.normalized (normalize s)
    /\ normalize (normalize s) = normalize s.
Proof.
  intros s. split.
  - apply NormalizeFacts.normalize_normalized.
  - apply NormalizeFacts.normalize_idempotent.
Qed.

(** X2. Every label [splitColumns] returns has a character, no white
    space at its ends, no tab, no two spaces in a row and no [|]. *)
Theorem column_labels_are_clean :
  forall header : str, Forall ColumnFacts.goodLabel (splitColumns header).
Proof.
  intros header. apply Forall_forall. intros l Hl.
  pose proof (ColumnFacts.splitColumns_labels header) as H.
  rewrite Forall_forall in H. now apply H.
Qed.

(** X3. The coercion of the parser and the coercion of the assembler
    give the same number on every value: on [undefined] the one reads
    the text ["undefined"] and the other the empty text, and both give
    0. *)
Theorem coercions_agree :
  forall v : value, Parse.toNumber v = MakeExcel.toNumber v.
Proof.
  intros [|s|n|t].
  - vm_compute. reflexivity.
  - reflexivity.
  - reflexivity.
  - reflexivity.
Qed.

(** X4. A comma, a dollar sign or a white space character anywhere in a
    text does not change the number the text coerces to; a text of such
    characters only, the empty text too, coerces to 0. *)
Theorem coercion_ignores_separators :
  (forall (a b : str) (c : char),
      CoercionFacts.stripped c = true ->
      Parse.toNumber (VString (a ++ c :: b))
      = Parse.toNumber (VString (a ++ b))
      /\ MakeExcel.toNumber (VString (a ++ c :: b))
         = MakeExcel.toNumber (VString (a ++ b)))
  /\ (forall s : str,
         forallb CoercionFacts.stripped s = true ->
         Parse.toNumber (VString s) = zero
         /\ MakeExcel.toNumber (VString s) = zero).
Proof.
  split.
  - intros a b c H.
    unfold Parse.toNumber, MakeExcel.toNumber, String_, asString.
    now rewrite (CoercionFacts.strip_insert a c b H).
  - intros s H.
    unfold Parse.toNumber, MakeExcel.toNumber, String_, asString.
    rewrite (CoercionFacts.strip_all s H). split; reflexivity.
Qed.

Lemma coercion_ignores_separators_witness :
  CoercionFacts.stripped (ch ",") = true
  /\ Parse.toNumber (VString (lit "$1" ++ ch "," :: lit "234.50"))
     = Parse.toNumber (VString (lit "$1" ++ lit "234.50"))
  /\ MakeExcel.toNumber (VString (lit "$1" ++ ch "," :: lit "234.50"))
     = MakeExcel.toNumber (VString (lit "$1" ++ lit "234.50")).
Proof.
  split; [reflexivity|].
  apply (proj1 coercion_ignores_separators (lit "$1") (lit "234.50") (ch ",")).
  reflexivity.
Defined.

(** A totals line with a count in front of its amount, and one with the
    count alone. *)
Definition sampleTotals : str := lit "TOTAL 12 $26,460.00".
Definition sampleCount : str := lit "TOTAL 12".

(** X5. The amount of a totals line, when the line has one, is a finite
    number that is not negative and is the number value of a whole
    number of hundredths. *)
Theorem totals_amount_is_money :
  forall (line : str) (t : ParsedTotals) (a : number),
    parseTotals line = Some t -> t_amount t = VNumber a ->
    isFinite a = true /\ isNonNegative a = true /\ AmountFacts.twoDecimals a.
Proof.
  intros line t a H Ha.
  destruct (TotalsLineFacts.totals_amount_number line t a H Ha)
    as (H1 & H2 & H3).
  auto.
Qed.

Lemma totals_amount_is_money_witness :
  parseTotals sampleTotals
  = Some (mkTotals (Some (ofZ 0)) (VNumber (ofZ 26460)))
  /\ isFinite (ofZ 26460) = true /\ isNonNegative (ofZ 26460) = true
  /\ AmountFacts.twoDecimals (ofZ 26460).
Proof.
  split; [vm_compute; reflexivity|].
  apply (totals_amount_is_money
           sampleTotals (mkTotals (Some (ofZ 0)) (VNumber (ofZ 26460)))).
  - vm_compute. reflexivity.
  - reflexivity.
Defined.

(** X6. A totals line has an amount exactly when it holds a run of
    digits and commas, a point and two digits with no letter, digit or
    underscore after them; and a totals line with an amount has a count
    too. *)
Theorem totals_amount_brings_count :
  forall (line : str) (t : ParsedTotals),
    parseTotals line = Some t ->
    (t_amount t <> VUndefined
     <-> exists pre g x y post,
        line = pre ++ g ++ [ch "."; x; y] ++ post
        /\ TotalsLineFacts.amountAt g x y post)
    /\ (t_amount t <> VUndefined -> count t <> None).
Proof.
  intros line t H.
  rewrite (TotalsLineFacts.parseTotals_amount line t H).
  rewrite (@TotalsFacts.parseTotals_count line t H).
  destruct (exec rxAmount line) as [m|] eqn:E.
  - split.
    + split; [|discriminate]. intros _.
      apply TotalsLineFacts.exec_rxAmount_Some in E.
      destruct E as (pre & g & x & y & post & E1 & _ & E2).
      now exists pre, g, x, y, post.
    + intros _.
      assert (Ha : exec rxAmount line <> None) by (rewrite E; discriminate).
      apply TotalsLineFacts.amount_then_count in Ha.
      destruct (exec rxCount line); [discriminate | congruence].
  - split; [|congruence]. split; [congruence|].
    intros (pre & g & x & y & post & -> & Ha). exfalso.
    now apply (TotalsLineFacts.exec_rxAmount_complete pre g x y post Ha).
Qed.

Lemma totals_amount_brings_count_witness :
  parseTotals sampleTotals
  = Some (mkTotals (Some (ofZ 0)) (VNumber (ofZ 26460)))
  /\ (t_amount (mkTotals (Some (ofZ 0)) (VNumber (ofZ 26460))) <> VUndefined
      -> count (mkTotals (Some (ofZ 0)) (VNumber (ofZ 26460))) <> None).
Proof.
  split; [vm_compute; reflexivity|].
  apply (totals_amount_brings_count
           sampleTotals (mkTotals (Some (ofZ 0)) (VNumber (ofZ 26460)))).
  vm_compute. reflexivity.
Defined.

(** X7. On a totals line without line terminators the count is the
    number of the one run of one to four digits that has no letter,
    digit or underscore next to it and no other such run after it. *)
Theorem count_of_a_single_line :
  forall (line pre d post : str) (t : ParsedTotals),
    forallb RowFacts.notTerminator line = true ->
    line = pre ++ d ++ post -> TotalsFacts.countAt pre d post ->
    parseTotals line = Some t ->
    count t = Some (ofString d).
Proof.
  intros line pre d post t Hline E Hc H.
  now apply (TotalsLineFacts.count_single_line line pre d post t).
Qed.

Lemma count_of_a_single_line_witness :
  forallb RowFacts.notTerminator sampleCount = true
  /\ sampleCount = lit "TOTAL " ++ lit "12" ++ []
  /\ TotalsFacts.countAt (lit "TOTAL ") (lit "12") []
  /\ parseTotals sampleCount = Some (mkTotals (Some (ofZ 12)) VUndefined)
  /\ count (mkTotals (Some (ofZ 12)) VUndefined) = Some (ofString (lit "12")).
Proof.
  assert (Hc : TotalsFacts.countAt (lit "TOTAL ") (lit "12") []).
  { split.
    - repeat split; vm_compute; (reflexivity || lia).
    - intros u e v H _ (Hl & _).
      symmetry in H. apply app_eq_nil in H. destruct H as [_ H].
      apply app_eq_nil in H. destruct H as [-> _]. simpl in Hl. lia. }
  split; [reflexivity|]. split; [reflexivity|]. split; [exact Hc|].
  split; [vm_compute; reflexivity|].
  apply (count_of_a_single_line sampleCount (lit "TOTAL ") (lit "12") []).
  - reflexivity.
  - reflexivity.
  - exact Hc.
  - vm_compute. reflexivity.
Defined.

(** A page of two lines: a header line and a row. *)
Definition sampleRowLine : str :=
  lit "000123 123-456-789 ON 45678 DOE JOHN 08/09/23 $2,205.00".
Definition sampleRow : ParsedRow :=
  mkRow (Some (lit "000123")) (Some (lit "123-456-789")) (Some (lit "ON"))
        (Some (lit "45678")) (Some (lit "DOE JOHN")) (Some (lit "08/09/23"))
        (VString (lit "$2,205.00")) [].
Definition sampleLines : list str :=
  [lit "STUDENT NO  SIN  GOV  CERT #"; sampleRowLine].

(** X8. Every row of a page is read from one of its clean lines, and
    that line is a row of the grammar from its first to its last
    character: the student number, the SIN, the certificate number, the
    name, the date and the amount of the row are never missing. *)
Theorem page_rows_are_rows_of_the_grammar :
  forall (lines : list str) (idx : Z) (r : ParsedRow),
    In r (rows (parseFromLines lines idx)) ->
    exists d, RowFacts.wellFormed d = true
              /\ In (RowFacts.text d) (cleanLines lines)
              /\ r = RowFacts.rowOf d.
Proof.
  intros lines idx r H.
  destruct (PageRowFacts.row_line lines idx r H) as (d & H1 & H2 & H3 & _).
  now exists d.
Qed.

Lemma page_rows_are_rows_of_the_grammar_witness :
  In sampleRow (rows (parseFromLines sampleLines 1))
  /\ exists d, RowFacts.wellFormed d = true
               /\ In (RowFacts.text d) (cleanLines sampleLines)
               /\ sampleRow = RowFacts.rowOf d.
Proof.
  assert (H : In sampleRow (rows (parseFromLines sampleLines 1)))
    by (vm_compute; left; reflexivity).
  split; [exact H|].
  apply (page_rows_are_rows_of_the_grammar sampleLines 1 sampleRow H).
Defined.

(** A line that reads as a row and has [TOTAL] in its name. *)
Definition sampleTotalName : str :=
  lit "000123 123-456-789 ON 45678 TOTALA JOHN 08/09/23 $2,205.00".

(** X9. A normalized line that reads as a row and holds [TOTAL], in any
    letter case, reads as a totals line; it is taken as the totals of
    the page, so no row of a page has [TOTAL] in its name. *)
Theorem row_with_total_is_a_totals_line :
  (forall (ln : str) (r : ParsedRow),
      normalize ln = ln -> parseRow ln = Some r ->
      includes (toUpperCase ln) (lit "TOTAL") = true ->
      parseTotals ln <> None)
  /\ (forall (lines : list str) (idx : Z) (r : ParsedRow) (nm : str),
         In r (rows (parseFromLines lines idx)) -> name r = Some nm ->
         includes (toUpperCase nm) (lit "TOTAL") = false).
Proof.
  split.
  - intros ln r Hn Hr Ht.
    now apply (TotalsLineFacts.row_with_total ln r).
  - intros lines idx r nm H Hname.
    destruct (PageRowFacts.row_line lines idx r H) as (d & _ & _ & -> & Ht).
    cbn [RowFacts.rowOf name] in Hname. inversion Hname. subst nm.
    destruct (includes (toUpperCase (RowFacts.p_name d)) (lit "TOTAL")) eqn:E;
      [|reflexivity].
    rewrite <- Ht. symmetry. unfold RowFacts.text.
    replace (RowFacts.p_studentNo d ++ RowFacts.p_gap1 d ++ RowFacts.p_sin d
               ++ RowFacts.p_gap2 d ++ RowFacts.govText (RowFacts.p_gov d)
               ++ RowFacts.p_gap3 d ++ RowFacts.p_cert d ++ RowFacts.p_gap4 d
               ++ RowFacts.p_name d ++ RowFacts.p_gap5 d
               ++ RowFacts.p_eosDate d ++ RowFacts.p_gap6 d
               ++ RowFacts.p_amount d)
      with ((RowFacts.p_studentNo d ++ RowFacts.p_gap1 d ++ RowFacts.p_sin d
               ++ RowFacts.p_gap2 d ++ RowFacts.govText (RowFacts.p_gov d)
               ++ RowFacts.p_gap3 d ++ RowFacts.p_cert d ++ RowFacts.p_gap4 d)
              ++ RowFacts.p_name d
              ++ (RowFacts.p_gap5 d ++ RowFacts.p_eosDate d
                    ++ RowFacts.p_gap6 d ++ RowFacts.p_amount d))
      by (rewrite <- !app_assoc; reflexivity).
    now apply TotalsLineFacts.includes_upper.
Qed.

Lemma row_with_total_is_a_totals_line_witness :
  normalize sampleTotalName = sampleTotalName
  /\ parseRow sampleTotalName <> None
  /\ includes (toUpperCase sampleTotalName) (lit "TOTAL") = true
  /\ parseTotals sampleTotalName <> None.
Proof.
  split; [vm_compute; reflexivity|].
  split; [vm_compute; discriminate|].
  split; [vm_compute; reflexivity|].
  destruct (parseRow sampleTotalName) as [r|] eqn:E;
    [|vm_compute in E; discriminate].
  apply (proj1 row_with_total_is_a_totals_line sampleTotalName r).
  - vm_compute. reflexivity.
  - exact E.
  - vm_compute. reflexivity.
Defined.

(** X10. The sheet name of a page is its first clean line, unless that
    line is header-like or there is no clean line: then it is [Page]
    and the page index. *)
Theorem sheet_name_is_the_first_line :
  forall (lines : list str) (idx : Z),
    sheetName (parseFromLines lines idx)
    = Some (match cleanLines lines with
            | h :: _ =>
              if looksLikeHeader h then lit "Page " ++ Str.ofZ idx else h
            | [] => lit "Page " ++ Str.ofZ idx
            end).
Proof.
  intros lines idx. rewrite (SpacingFacts.sheetName_first_line lines idx).
  reflexivity.
Qed.

(** X11. A page does not depend on the spacing of its lines nor on
    blank lines: the lines normalized give the same page, a line reads
    as the same row once normalized, and a line that normalizes to the
    empty text can be left out. *)
Theorem page_ignores_spacing_and_blank_lines :
  (forall (lines : list str) (idx : Z),
      parseFromLines (map normalize lines) idx = parseFromLines lines idx)
  /\ (forall l : str, parseRow (normalize l) = parseRow l)
  /\ (forall (a b : list str) (blank : str) (idx : Z),
         normalize blank = [] ->
         parseFromLines (a ++ blank :: b) idx = parseFromLines (a ++ b) idx).
Proof.
  split; [|split].
  - intros lines idx. apply SpacingFacts.parseFromLines_clean.
    apply SpacingFacts.cleanLines_normalize.
  - exact SpacingFacts.parseRow_normalize.
  - intros a b blank idx H. apply SpacingFacts.parseFromLines_clean.
    now apply SpacingFacts.cleanLines_blank.
Qed.

Lemma page_ignores_spacing_and_blank_lines_witness :
  normalize [ch " "; Parse.tab; Parse.nbsp] = []
  /\ parseFromLines ([lit "STUDENT NO  SIN  GOV  CERT #"]
                       ++ [ch " "; Parse.tab; Parse.nbsp] :: [sampleRowLine]) 1
     = parseFromLines ([lit "STUDENT NO  SIN  GOV  CERT #"] ++ [sampleRowLine]) 1.
Proof.
  split; [vm_compute; reflexivity|].
  apply (proj2 (proj2 page_ignores_spacing_and_blank_lines)).
  vm_compute. reflexivity.
Defined.

(** X12. The lines a text is split into, joined by line feeds, are the
    text without the carriage returns that stand before a line feed,
    and no line holds a line feed. *)
Theorem lines_of_a_text :
  forall s : str,
    join [LinesFacts.lf] (split rxNewline s) = LinesFacts.dropCR s
    /\ Forall (fun l : str =>
                 forallb (fun c : char => negb (N.eqb c LinesFacts.lf)) l
                 = true)
              (split rxNewline s).
Proof.
  intros s. destruct (LinesFacts.split_newline s) as [H1 H2].
  split; [exact H1 | exact H2].
Qed.

(** X13. A safe sheet name has a character, 31 characters at most, none
    of [\ / * ? : [ ]], and no white space at its start. *)
Theorem safe_sheet_name_is_safe :
  forall (raw : value) (idx : nat),
    safeSheetName raw idx <> []
    /\ length (safeSheetName raw idx) <= 31
    /\ SheetNameFacts.legal (safeSheetName raw idx) = true
    /\ NormalizeFacts.isWhiteAt (safeSheetName raw idx) = false.
Proof.
  intros raw idx.
  destruct (SheetNameFacts.safeSheetName_safe raw idx) as (H1 & H2 & H3 & H4).
  auto.
Qed.

(** X15. Whatever the default locale, for a page with two labels or more
    the assembler hands the library one column per label, with the label
    as its header and a width from 12 to 40; header line [k] goes to
    cell [(k + 1, 1)] of a row merged across the columns; the cell of
    row [i] under label [j] goes to row [dataStart + i] and column
    [j + 1], where the data start in row 2 when there are no header
    lines, and else below the header lines, a blank row and one more
    row; the label of the totals goes to the first cell of the row below
    the data and a blank row; every cell that is given a value lies in a
    row from 1 on and in a column from 1 to the number of labels; and no
    cell of the row above the data, the row that is set in bold as the
    header row of the table, is given a value. *)
Theorem sheet_layout :
  forall (loc : locale) (page : ParsedPage) (idx : nat) (used : StrSet),
    2 <= length (headersOf page) ->
    exists ws used',
      addPage loc page idx used = Some (ws, used')
      /\ map header (wsColumns ws) = headersOf page
      /\ Forall (fun c => 12 <= width c <= 40) (wsColumns ws)
      /\ (forall k line,
             nth_error (match headerLines page with
                        | Some l => l | None => []
                        end) k = Some line ->
             In (MergeCells (1 + k) 1 (1 + k) (length (headersOf page)))
                (wsOps ws)
             /\ In (SetValue (1 + k) 1 (VString line)) (wsOps ws))
      /\ (forall i r j h,
             nth_error (rows page) i = Some r ->
             nth_error (headersOf page) j = Some h ->
             In (SetValue (LayoutFacts.dataStart page + i) (j + 1)
                          (cellValue loc r h))
                (wsOps ws))
      /\ In (SetValue (LayoutFacts.dataStart page + length (rows page) + 1) 1
                      (VString (lit "TOTAL FOR THIS DISBURSEMENT")))
            (wsOps ws)
      /\ Forall (fun rc => 1 <= fst rc
                           /\ 1 <= snd rc <= length (headersOf page))
                (LayoutFacts.targets (wsOps ws))
      /\ (forall c,
             ~ In (LayoutFacts.dataStart page - 1, c)
                  (LayoutFacts.targets (wsOps ws))).
Proof.
  intros loc page idx used Hw.
  destruct (SheetFacts.addPage_total loc page idx used) as (ws & H & _).
  exists ws, (add used (wsName ws)). split; [exact H|].
  destruct (IndexFacts.addPage_columns loc page idx used ws _ H) as [Hc Hwd].
  split; [exact Hc|]. split; [exact Hwd|].
  rewrite (LayoutFacts.addPage_targets loc page idx used ws _ H).
  rewrite (LayoutFacts.addPage_ops loc page idx used ws _ H).
  split; [|split; [|split; [|split]]].
  - intros k line Hk.
    destruct (LayoutFacts.headerLineRows_at
                (length (headersOf page)) _ 1 k line Hk) as [H1 H2].
    split; apply in_or_app; left; assumption.
  - intros i r j h Hi Hj. apply in_or_app. right. apply in_or_app. left.
    now apply LayoutFacts.dataOps_at.
  - apply in_or_app. right. apply in_or_app. right.
    unfold totalsOps, LayoutFacts.totalsRow. cbn [In]. auto.
  - apply LayoutFacts.cellsOf_range. exact Hw.
  - intros c. apply LayoutFacts.cellsOf_above.
Qed.

(** A page without labels, which gets the seven default headers. *)
Definition samplePage : ParsedPage :=
  mkPage None (Some [lit "ACME COLLEGE"]) None [sampleRow] None.

Lemma sheet_layout_witness :
  2 <= length (headersOf samplePage)
  /\ exists ws used',
      addPage enUS samplePage 0 [] = Some (ws, used')
      /\ map header (wsColumns ws) = headersOf samplePage
      /\ Forall (fun c => 12 <= width c <= 40) (wsColumns ws)
      /\ (forall k line,
             nth_error (match headerLines samplePage with
                        | Some l => l | None => []
                        end) k = Some line ->
             In (MergeCells (1 + k) 1 (1 + k) (length (headersOf samplePage)))
                (wsOps ws)
             /\ In (SetValue (1 + k) 1 (VString line)) (wsOps ws))
      /\ (forall i r j h,
             nth_error (rows samplePage) i = Some r ->
             nth_error (headersOf samplePage) j = Some h ->
             In (SetValue (LayoutFacts.dataStart samplePage + i) (j + 1)
                          (cellValue enUS r h))
                (wsOps ws))
      /\ In (SetValue (LayoutFacts.dataStart samplePage
                       + length (rows samplePage) + 1) 1
                      (VString (lit "TOTAL FOR THIS DISBURSEMENT")))
            (wsOps ws)
      /\ Forall (fun rc => 1 <= fst rc
                           /\ 1 <= snd rc <= length (headersOf samplePage))
                (LayoutFacts.targets (wsOps ws))
      /\ (forall c,
             ~ In (LayoutFacts.dataStart samplePage - 1, c)
                  (LayoutFacts.targets (wsOps ws))).
Proof.
  split; [cbn; lia|].
  apply (sheet_layout enUS samplePage 0 []). cbn. lia.
Defined.

(** X16. The name of the download is the name of the file without a
    final [.pdf], in any letter case, followed by [.xlsx]; the name of a
    file that does not end so is kept whole. *)
Theorem download_name :
  forall name : str,
    Index.outName name
    = (if IndexFacts.endsWithPdf name
       then firstn (length name - 4) name
       else name) ++ lit ".xlsx".
Proof.
  intros name. rewrite (IndexFacts.outName_spec name). reflexivity.
Qed.

(** X17. Whatever the document and whatever the recognition engine
    reads, the assembler asks for one sheet per page of the document, in
    the order of the pages and under pairwise distinct names; the
    headers of the columns of each sheet are the labels the parser found
    for its page, three at least, so that the default headers of the
    assembler are never used and every cell that is given a value lies
    in a row from 1 on and in a column from 1 to the number of labels;
    and the workbook of the document is what the library makes of these
    calls. *)
Theorem one_sheet_per_page :
  forall (canvas : Type) (ocrCanvas : canvas -> str) (loc : locale)
         (doc : list (Index.pdfPage canvas)),
    exists wss,
      requests loc (Index.resultsFrom ocrCanvas 1 doc) = Some wss
      /\ length wss = length doc
      /\ NoDup (map wsName wss)
      /\ Forall2 (fun p ws =>
                    columns p = Some (map header (wsColumns ws))
                    /\ 3 <= length (wsColumns ws)
                    /\ Forall (fun rc => 1 <= fst rc
                                         /\ 1 <= snd rc
                                            <= length (wsColumns ws))
                              (LayoutFacts.targets (wsOps ws)))
                 (Index.resultsFrom ocrCanvas 1 doc) wss
      /\ (forall (workbook : Type)
                 (perform : workbook -> call -> option workbook)
                 (wb : workbook),
             Index.workbookOf ocrCanvas loc perform wb doc
             = performAll perform wb (flat_map callsOf wss)).
Proof.
  intros canvas ocrCanvas loc doc.
  pose proof (IndexFacts.resultsFrom_length canvas ocrCanvas doc 1) as Hdoc.
  pose proof (IndexFacts.resultsFrom_headers canvas ocrCanvas doc 1) as Hp.
  unfold Index.workbookOf, createWorkbookFromPages.
  set (pages := Index.resultsFrom ocrCanvas 1 doc) in *. clearbody pages.
  destruct (SheetFacts.addPages_names loc pages 0 []) as (wss & H & Hlen & Hnd & _).
  exists wss. unfold requests. rewrite H. split; [reflexivity|].
  split; [now rewrite Hlen|]. split; [exact Hnd|].
  split; [|reflexivity].
  pose proof (IndexFacts.addPages_sheets loc _ _ _ _ H) as Hcols.
  clear H Hlen Hnd Hdoc.
  induction Hcols as [|p ws ps wss' [Hh Ht] _ IH]; [constructor|].
  inversion Hp as [|? ? Hex Hps]; subst.
  destruct Hex as (cols & Hc & Hl & Hhd).
  assert (Hw : length (wsColumns ws) = length cols)
    by now rewrite <- (length_map header), Hh, Hhd.
  constructor; [|now apply IH].
  rewrite Hh, Hhd, Hw. split; [exact Hc|]. split; [exact Hl|].
  rewrite Ht, <- Hhd. apply LayoutFacts.cellsOf_range. rewrite Hhd. lia.
Qed.

(** X18. A text read with carriage returns before its line feeds and
    the same text read without them give the same lines and the same
    page. *)
Theorem line_ends_do_not_matter :
  forall (s1 s2 : str) (idx : Z),
    LinesFacts.dropCR s1 = LinesFacts.dropCR s2 ->
    split rxNewline s1 = split rxNewline s2
    /\ parseDisbursementPageFromText s1 idx
       = parseDisbursementPageFromText s2 idx.
Proof.
  intros s1 s2 idx H. apply LinesFacts.split_newline_ext in H.
  split; [exact H|]. unfold parseDisbursementPageFromText. now rewrite H.
Qed.

Lemma line_ends_do_not_matter_witness :
  LinesFacts.dropCR (lit "A" ++ [13%N; 10%N] ++ lit "B")
  = LinesFacts.dropCR (lit "A" ++ [10%N] ++ lit "B")
  /\ split rxNewline (lit "A" ++ [13%N; 10%N] ++ lit "B")
     = split rxNewline (lit "A" ++ [10%N] ++ lit "B")
  /\ parseDisbursementPageFromText (lit "A" ++ [13%N; 10%N] ++ lit "B") 1
     = parseDisbursementPageFromText (lit "A" ++ [10%N] ++ lit "B") 1.
Proof.
  split; [reflexivity|].
  apply (line_ends_do_not_matter (lit "A" ++ [13%N; 10%N] ++ lit "B")
                                 (lit "A" ++ [10%N] ++ lit "B") 1).
  reflexivity.
Defined.

(** X19. A text with 1 to 31 characters, none of them illegal and no
    white space at its ends, is its own safe sheet name, and it is the
    name of the sheet when no sheet has that name yet. *)
Theorem clean_name_is_kept :
  forall (s : str) (idx : nat) (used : StrSet),
    s <> [] -> length s <= 31 -> SheetNameFacts.legal s = true ->
    NormalizeFacts.isWhiteAt s = false ->
    NormalizeFacts.isWhiteAt (rev s) = false ->
    ~ In s used ->
    safeSheetName (VString s) idx = s
    /\ uniqueSheetName (safeSheetName (VString s) idx) used
       = Some (s, add used s).
Proof.
  intros s idx used Hn Hl Hleg H1 H2 Hfree.
  rewrite (SheetNameFacts.safeSheetName_kept s idx Hn Hl Hleg H1 H2).
  split; [reflexivity|]. now apply SheetNameFacts.uniqueSheetName_free.
Qed.

Lemma clean_name_is_kept_witness :
  safeSheetName (VString (lit "ACME COLLEGE")) 0 = lit "ACME COLLEGE"
  /\ uniqueSheetName (safeSheetName (VString (lit "ACME COLLEGE")) 0) []
     = Some (lit "ACME COLLEGE", add [] (lit "ACME COLLEGE")).
Proof.
  apply (clean_name_is_kept (lit "ACME COLLEGE") 0 []).
  - discriminate.
  - cbn. lia.
  - reflexivity.
  - reflexivity.
  - reflexivity.
  - intros [].
Defined.

(** X20. The sum of the amounts of any rows and the amount of the
    totals row of any page are never NaN, and the sum of the amounts of
    the rows of a parsed page is not negative. *)
Theorem total_amount_is_a_number :
  (forall rows : list ParsedRow, SumFacts.notNaN (sumAmounts rows) = true)
  /\ (forall page : ParsedPage,
         SumFacts.notNaN (totalAmountNum page) = true)
  /\ (forall (lines : list str) (idx : Z),
         isNonNegative (sumAmounts (rows (parseFromLines lines idx))) = true).
Proof.
  split; [exact SumFacts.sumAmounts_notNaN|].
  split; [exact SumFacts.totalAmountNum_notNaN|].
  intros lines idx. apply SumFacts.sumAmounts_nonNegative.
  apply Forall_forall. intros r Hr.
  destruct (PageRowFacts.row_line lines idx r Hr) as (d & Hd & _ & -> & _).
  apply RowFacts.wellFormed_parts in Hd.
  destruct Hd as (_ & _ & _ & _ & _ & _ & _ & _ & _ & _ & _ & _ & Ha).
  cbn [RowFacts.rowOf amount].
  destruct (@AmountFacts.amount_toNumber _ Ha) as (_ & H2 & H3).
  now rewrite H3.
Qed.

(** X21. Under a label that, in upper case, is none of the seven labels
    the assembler has a field for, and that is no name of a field of the
    row, of a further key of it or of a member every object inherits,
    the cell of a row is empty; but when the label holds ["AMOUNT"], as
    ["NET AMOUNT"] does, the cell shows ["$"] and the form of 0,
    ["$0.00"] in en-US, whatever the amount of the row. *)
Theorem unknown_label_cells :
  forall (loc : locale) (r : ParsedRow) (h : str),
    ~ In (toUpperCase h) CellFacts.knownLabels ->
    ~ In h CellFacts.fieldNames ->
    ~ In h CellFacts.inheritedNames ->
    (forall v, ~ In (h, v) (extra r)) ->
    cellValue loc r h
    = VString (if isCurrency h
               then lit "$" ++ toLocaleString2 loc zero
               else []).
Proof.
  intros loc r h Hk Hf Hi He. unfold cellValue, rawOf.
  rewrite (CellFacts.headerKeyMap_unknown _ Hk).
  rewrite (CellFacts.property_unknown r h Hf Hi He).
  destruct (isCurrency h); reflexivity.
Qed.

Lemma unknown_label_cells_witness :
  amount exampleRow = VString (lit "$2,205.00")
  /\ cellValue enUS exampleRow (lit "NET AMOUNT") = VString (lit "$0.00").
Proof.
  split; [reflexivity|].
  apply (unknown_label_cells enUS exampleRow (lit "NET AMOUNT")).
  - cbn. intros H.
    repeat (destruct H as [H | H]; [discriminate H|]). exact H.
  - cbn. intros H.
    repeat (destruct H as [H | H]; [discriminate H|]). exact H.
  - cbn. intros H.
    repeat (destruct H as [H | H]; [discriminate H|]). exact H.
  - intros v H. exact H.
Defined.
